(** * VideoDirecting_MultiCamSceneEnhance: camera recommendation, point-cloud
      sampling, outline stitching and the tracking client, verified

    The development follows four parts of the UI sources:

    - [Sampler]   [SimplifiedPointCloud] of
                  [ui/src/components/LightweightSceneViewer.js];
    - [Outline]   [PointCloudOutlines] of the same file;
    - [Relations] [calculateCameraPersonRelations] and
                  [updateRecommendedCamera] of the scene viewer test page;
    - [Tracking]  the [TrackingService] class of
                  [ui/src/services/trackingService.js].

    Further modules follow the code around these: the loops, the grid and
    the stitch of the viewer ([Loops], [Voxels], [Nearest]), the information
    panel ([Panel]), the commands, listeners and messages of the tracking
    client ([Commands], [Listeners], [Messages]), and, of the test page, the
    histories of the persons ([History]), the box of the scene ([Doubles],
    [Bounds]), the cameras of a message ([Cameras]) and the PLY reader
    ([Ply]).

    Numbers.  Coordinates, colours and scores are JavaScript numbers, that is
    IEEE-754 doubles: they are Rocq's primitive [float]s, with the operations
    of the source applied in the order of the source.  Array lengths, loop
    counters, the point cap and the retry counter are integers ([Z], [nat]),
    on which double arithmetic is exact below 2^53; quotients of such integers
    are exact rationals extended with the values a division by zero produces
    ([JS.xnum]); the sign of a zero is not tracked.  A [Float32Array] holds
    each number rounded to the nearest binary32 number ([JS.Math_fround]).

    Objects.  An object used as a table is the list of its own properties in
    the order of [Object.keys]; the names of [Object.prototype] are excluded
    by hypothesis where the code reads or writes them as keys.

    The library.  The camera, the frustum and the projection are three.js
    code, which is not among the sources: they follow section 4.1 of the
    specification, the pinhole camera ([Relations.pinhole],
    [Relations.pinhole_project]), with [Math.tan] and the test for a
    near-vertical direction as parameters.  The theorems on them are stated
    on formulas written out coordinate by coordinate ([Relations.Written]),
    and those on the sampler on exact arithmetic ([Sampler.spec_stride],
    [Sampler.spec_walk]). *)

From Stdlib Require Import ZArith QArith Qround PrimFloat FloatOps SpecFloat.
From Stdlib Require Import Ascii String.
From Stdlib Require Uint63 FloatAxioms.
From stdpp Require Import base option list relations gmap sets strings countable.

Set Warnings "-inexact-float".
Set Default Proof Using "Type".

(** ** JavaScript numbers *)

Module JS.

(** An integer-valued double, as [Math.floor] and [Math.ceil] return it. *)
Inductive xint : Type :=
  | XNaN
  | XInf (neg : bool)
  | XInt (z : Z).

#[global] Instance xint_eq_dec : EqDecision xint.
Proof. solve_decision. Defined.

Definition xint_enc (a : xint) : option bool + Z :=
  match a with
  | XNaN => inl None
  | XInf s => inl (Some s)
  | XInt z => inr z
  end.

Definition xint_dec (c : option bool + Z) : xint :=
  match c with
  | inl None => XNaN
  | inl (Some s) => XInf s
  | inr z => XInt z
  end.

#[global] Instance xint_countable : Countable xint.
Proof. apply (inj_countable' xint_enc xint_dec). by intros []. Defined.

(** A quotient of integers, as [/] returns it. *)
Inductive xnum : Type :=
  | NaN
  | Inf (neg : bool)
  | Fin (q : Q).

Definition of_xint (i : xint) : xnum :=
  match i with
  | XNaN => NaN
  | XInf s => Inf s
  | XInt z => Fin (inject_Z z)
  end.

Definition Qlt_bool (a b : Q) : bool := negb (Qle_bool b a).

Definition Qis_zero (a : Q) : bool := Qeq_bool a 0.

Definition Qis_neg (a : Q) : bool := Qlt_bool a 0.

(** [a / b] *)
Definition div (a b : xnum) : xnum :=
  match a, b with
  | NaN, _ | _, NaN => NaN
  | Inf _, Inf _ => NaN
  | Inf s, Fin q => Inf (xorb s (Qis_neg q))
  | Fin _, Inf _ => Fin 0
  | Fin p, Fin q =>
      if Qis_zero q
      then (if Qis_zero p then NaN else Inf (Qis_neg p))
      else Fin (p / q)
  end.

(** [a > b] *)
Definition gt (a b : xnum) : bool :=
  match a, b with
  | NaN, _ | _, NaN => false
  | Inf s, Inf t => negb s && t
  | Inf s, Fin _ => negb s
  | Fin _, Inf t => t
  | Fin p, Fin q => Qlt_bool q p
  end.

(** [Math.ceil(a)] *)
Definition Math_ceil (a : xnum) : xint :=
  match a with
  | NaN => XNaN
  | Inf s => XInf s
  | Fin q => XInt (Qceiling q)
  end.

(** [Math.floor(x)] of a double: the mantissa shifted by the exponent; a
    shift to the right rounds towards minus infinity. *)
Definition Math_floor (x : float) : xint :=
  match Prim2SF x with
  | S754_nan => XNaN
  | S754_infinity s => XInf s
  | S754_zero _ => XInt 0
  | S754_finite s m e => XInt (Z.shiftl (if s then Z.neg m else Z.pos m) e)
  end.

(** [Math.max(a, b)] and [Math.min(a, b)] on integers *)
Definition Math_max (a b : xint) : xint :=
  match a, b with
  | XNaN, _ | _, XNaN => XNaN
  | XInf false, _ | _, XInf false => XInf false
  | XInf true, y => y
  | x, XInf true => x
  | XInt x, XInt y => XInt (Z.max x y)
  end.

(** [i % s === 0] for an integer [i] *)
Definition rem_is_zero (i : Z) (s : xint) : bool :=
  match s with
  | XNaN => false
  | XInf _ => (i =? 0)%Z
  | XInt z => if (z =? 0)%Z then false else (Z.rem i z =? 0)%Z
  end.

(** [Number.isNaN(x)] *)
Definition isNaN (x : float) : bool :=
  match Prim2SF x with
  | S754_nan => true
  | _ => false
  end.

(** [Number.isFinite(x)] *)
Definition Number_isFinite (x : float) : bool :=
  match Prim2SF x with
  | S754_zero _ | S754_finite _ _ _ => true
  | _ => false
  end.

(** [Math.fround(x)]: the binary32 number nearest to [x] (24 bits of
    mantissa, infinities from 2^128 on), as a double. *)
Definition Math_fround (x : float) : float :=
  match Prim2SF x with
  | S754_finite s m e => SF2Prim (binary_round 24 128 s m e)
  | _ => x
  end.

(** [new Float32Array(a)]: each number is stored as a binary32 number. *)
Definition Float32Array (a : list float) : list float := Math_fround <$> a.

(** [Math.floor(a)] of a quotient *)
Definition Math_floor_q (a : xnum) : xint :=
  match a with
  | NaN => XNaN
  | Inf s => XInf s
  | Fin q => XInt (Qfloor q)
  end.

(** The double nearest to the integer [n], the one with the even mantissa at
    a tie: [n] itself below 2^53, and beyond that [n] with the bits under its
    first 53 rounded away.  (No [n] met here reaches 2^1024.) *)
Definition to_double (n : Z) : Z :=
  let a := Z.abs n in
  if (a <? 2 ^ 53)%Z then n
  else
    let k := (Z.log2 a - 52)%Z in
    let q := Z.shiftr a k in
    let r := (a mod 2 ^ k)%Z in
    let half := (2 ^ (k - 1))%Z in
    let q' := if (half <? r)%Z || ((r =? half)%Z && Z.odd q) then (q + 1)%Z else q in
    (Z.sgn n * Z.shiftl q' k)%Z.

(** [a + d] for an integer literal [d]: the sum of two doubles, rounded. *)
Definition xadd (a : xint) (d : Z) : xint :=
  match a with
  | XInt z => XInt (to_double (z + d))
  | _ => a
  end.

(** [for (let i = i0; i < n; i += step) body(i)] with an integer bound [n].
    The counter moves by [step]: to [Infinity] or [NaN] the loop ends after
    one round; with a step that is zero or negative the test [i < n] never
    fails, which is the [None] of an exhausted [fuel]. *)
Fixpoint for_by {A : Type} (fuel : nat) (n : Z) (step : xint) (i : Z)
    (body : A -> Z -> A) (acc : A) : option A :=
  if (i <? n)%Z then
    match fuel with
    | O => None
    | S fuel' =>
        let acc' := body acc i in
        match step with
        | XInt z => for_by fuel' n step (i + z)%Z body acc'
        | XInf true => None
        | XInf false | XNaN => Some acc'
        end
    end
  else Some acc.

(** The rounds of [for (i = ...; i < n; i += z)] still to run at [i], and the
    values the counter takes in them. *)
Definition rounds (n z i : Z) : Z :=
  if (i <? n)%Z then ((n - i + z - 1) / z)%Z else 0%Z.

Definition strided (i z r : Z) : list Z :=
  (fun j => (i + j * z)%Z) <$> seqZ 0 r.

(** [x.toFixed(3)], the string read as what it denotes: ["NaN"], an
    infinity, the digits of a double of 1e21 or more (printed in full by
    [String(x)], so one string per double), or the sign and the integer [n]
    with [n / 1000] nearest to [|x|], the larger one at a tie.  The sign is
    kept when [n] is 0: [(-0.0001).toFixed(3)] is ["-0.000"]. *)
Inductive fixed : Type :=
  | FixNaN
  | FixInf (neg : bool)
  | FixBig (neg : bool) (m : positive) (e : Z)
  | FixDec (neg : bool) (n : Z).

Definition toFixed3 (x : float) : fixed :=
  match Prim2SF x with
  | S754_nan => FixNaN
  | S754_infinity s => FixInf s
  | S754_zero _ => FixDec false 0
  | S754_finite s m e =>
      if (0 <=? e)%Z then
        if (10 ^ 21 <=? Z.shiftl (Z.pos m) e)%Z then FixBig s m e
        else FixDec s (Z.shiftl (Z.pos m) e * 1000)
      else FixDec s ((2000 * Z.pos m + 2 ^ (- e)) / 2 ^ (1 - e))
  end.

#[global] Instance fixed_eq_dec : EqDecision fixed.
Proof. solve_decision. Defined.

Definition fixed_enc (f : fixed) : option bool + (bool * positive * Z + bool * Z) :=
  match f with
  | FixNaN => inl None
  | FixInf s => inl (Some s)
  | FixBig s m e => inr (inl (s, m, e))
  | FixDec s n => inr (inr (s, n))
  end.

Definition fixed_dec (c : option bool + (bool * positive * Z + bool * Z)) : fixed :=
  match c with
  | inl None => FixNaN
  | inl (Some s) => FixInf s
  | inr (inl (s, m, e)) => FixBig s m e
  | inr (inr (s, n)) => FixDec s n
  end.

#[global] Instance fixed_countable : Countable fixed.
Proof. apply (inj_countable' fixed_enc fixed_dec). by intros []. Defined.

(** Quotients that denote the same number. *)
Definition xeq (a b : xnum) : Prop :=
  match a, b with
  | NaN, NaN => True
  | Inf s, Inf t => s = t
  | Fin p, Fin q => (p == q)%Q
  | _, _ => False
  end.

(** [a[i]]: a read past the end gives [undefined], which is NaN as soon as
    it meets arithmetic or a typed array. *)
Definition get (a : list float) (i : Z) : float :=
  if (i <? 0)%Z then nan else nth (Z.to_nat i) a nan.

End JS.

(** ** The point-cloud sampler ([SimplifiedPointCloud]) *)

Module Sampler.
Import JS.

Definition vec3 : Type := float * float * float.

(** [sceneData.point_cloud.points.flat()] of [extractPointCloudData] *)
Definition flat (cloud : list vec3) : list float :=
  flat_map (fun p => [p.1.1; p.1.2; p.2]) cloud.

(** [Math.sqrt(dx*dx + dy*dy + dz*dz)] of two triples *)
Definition diff3 (a b : vec3) : float :=
  let dx := (a.1.1 - b.1.1)%float in
  let dy := (a.1.2 - b.1.2)%float in
  let dz := (a.2 - b.2)%float in
  sqrt (dx * dx + dy * dy + dz * dz)%float.

Definition importanceThreshold : float := 0.01%float.
Definition colorThreshold : float := 0.1%float.

(** [totalPoints = points.length / 3] *)
Definition totalPoints (points : list float) : xnum :=
  div (Fin (inject_Z (Z.of_nat (length points)))) (Fin 3).

(** Lines 51-56: the sampling interval. *)
Definition sampling_interval (points : list float) (density : float)
    (maxPoints : Z) : xint :=
  let interval := Math_max (XInt 1) (Math_floor (1 / density)%float) in
  if gt (div (totalPoints points) (of_xint interval)) (Fin (inject_Z maxPoints))
  then Math_ceil (div (totalPoints points) (Fin (inject_Z maxPoints)))
  else interval.

(** The variables the first loop updates. *)
Record pass1 : Type := Pass1 {
  lastPoint : option vec3;
  lastColor : option vec3;
  sampledPointsArray : list float;
  sampledColorsArray : list float
}.

Definition pass1_init : pass1 := Pass1 None None [] [].

Definition triple (a : list float) (idx : Z) : vec3 :=
  (get a idx, get a (idx + 1)%Z, get a (idx + 2)%Z).

(** Lines 78-101: [isImportant] for the point at [idx]. *)
Definition isImportant (points : list float) (colors : option (list float))
    (st : pass1) (idx : Z) : bool :=
  match lastPoint st with
  | None => false
  | Some lp =>
      (importanceThreshold <? diff3 (triple points idx) lp)%float
      || match colors, lastColor st with
         | Some cs, Some lc => (colorThreshold <? diff3 (triple cs idx) lc)%float
         | _, _ => false
         end
  end.

(** Lines 104-114: the point at [idx] is kept. *)
Definition keep (points : list float) (colors : option (list float))
    (st : pass1) (idx : Z) : pass1 :=
  let currentPoint := triple points idx in
  let pts := sampledPointsArray st
               ++ [currentPoint.1.1; currentPoint.1.2; currentPoint.2] in
  match colors with
  | Some cs =>
      if (length points <=? length cs)%nat then
        let c := triple cs idx in
        Pass1 (Some currentPoint) (Some c) pts
              (sampledColorsArray st ++ [c.1.1; c.1.2; c.2])
      else Pass1 (Some currentPoint) (lastColor st) pts (sampledColorsArray st)
  | None => Pass1 (Some currentPoint) (lastColor st) pts (sampledColorsArray st)
  end.

(** Lines 72-115: one round of the first loop. *)
Definition pass1_body (points : list float) (colors : option (list float))
    (interval : xint) (st : pass1) (i : Z) : pass1 :=
  let idx := (i * 3)%Z in
  if (idx + 2 <? Z.of_nat (length points))%Z then
    if rem_is_zero i interval || isImportant points colors st idx
    then keep points colors st idx
    else st
  else st.

(** The number of [i = 0, 1, ...] with [i < a.length / 3]. *)
Definition thirds (a : list float) : Z :=
  ((Z.of_nat (length a) + 2) / 3)%Z.

(** Lines 71-116: [for (let i = 0; i < totalPoints; i++)]. *)
Definition first_pass (points : list float) (colors : option (list float))
    (interval : xint) : pass1 :=
  fold_left (pass1_body points colors interval) (seqZ 0 (thirds points))
            pass1_init.

(** Lines 125-132: one round of the second loop; [finalColors] is an array or
    [null]. *)
Definition pass2_body (sp sc : list float)
    (acc : list float * option (list float)) (i : Z)
    : list float * option (list float) :=
  let idx := (i * 3)%Z in
  if (idx + 2 <? Z.of_nat (length sp))%Z then
    (acc.1 ++ [get sp idx; get sp (idx + 1)%Z; get sp (idx + 2)%Z],
     (fun fc => fc ++ [get sc idx; get sc (idx + 1)%Z; get sc (idx + 2)%Z])
       <$> acc.2)
  else acc.

(** What [useMemo] returns: [sampledPoints] and [sampledColors] (or [null]),
    the arrays handed to [new Float32Array]. *)
Definition sample : Type := list float * option (list float).

(** Lines 48-145: the body of [useMemo]; [None] when the second loop does not
    terminate. *)
Definition samplePoints (points : list float) (colors : option (list float))
    (density : float) (maxPoints : Z) : option sample :=
  let interval := sampling_interval points density maxPoints in
  let st := first_pass points colors interval in
  let sp := sampledPointsArray st in
  let sc := sampledColorsArray st in
  let kept := div (Fin (inject_Z (Z.of_nat (length sp)))) (Fin 3) in
  if gt kept (Fin (inject_Z maxPoints)) then
    let resampleInterval := Math_ceil (div kept (Fin (inject_Z maxPoints))) in
    let finalColors := if (0 <? length sc)%nat then Some [] else None in
    for_by (S (length sp)) (thirds sp) resampleInterval 0
           (pass2_body sp sc) ([], finalColors)
  else Some (sp, if (0 <? length sc)%nat then Some sc else None).

(** Lines 135-143: the object [useMemo] returns, each array stored as a
    [Float32Array]. *)
Definition returned (s : sample) : sample :=
  (Float32Array s.1, Float32Array <$> s.2).

(** What the component renders: nothing, or the sampled buffers. *)
Inductive rendering : Type :=
  | Null
  | PointsElement (s : sample).

(** Lines 43-45: the component. *)
Definition SimplifiedPointCloud (points colors : option (list float))
    (density : float) (maxPoints : Z) : option rendering :=
  match points with
  | None => Some Null
  | Some ps =>
      if (length ps =? 0)%nat then Some Null
      else PointsElement <$> samplePoints ps colors density maxPoints
  end.

(** *** The sampler as a transition system

    The control points of the two loops, for the statement that a run has one
    outcome.  A state is at the test of the first [for], at the test of the
    second, or at a [return]. *)
Inductive state : Type :=
  | Loop1 (i : Z) (st : pass1)
  | Loop2 (r : xint) (i : Z) (sp sc : list float)
          (acc : list float * option (list float))
  | Spin (sp sc : list float) (acc : list float * option (list float))
  | Return (s : sample).

(** A round of the second loop with the counter at [-Infinity]: the reads
    give [undefined]. *)
Definition pass2_undefined (acc : list float * option (list float))
    : list float * option (list float) :=
  (acc.1 ++ [nan; nan; nan], (fun fc => fc ++ [nan; nan; nan]) <$> acc.2).

Section Step.
Variables (points : list float) (colors : option (list float))
          (density : float) (maxPoints : Z).

Definition kept (st : pass1) : xnum :=
  div (Fin (inject_Z (Z.of_nat (length (sampledPointsArray st))))) (Fin 3).

Inductive step : state -> state -> Prop :=
  | step_round1 i st :
      (i < thirds points)%Z ->
      step (Loop1 i st)
           (Loop1 (i + 1)
                  (pass1_body points colors
                     (sampling_interval points density maxPoints) st i))
  | step_resample i st :
      ~ (i < thirds points)%Z ->
      gt (kept st) (Fin (inject_Z maxPoints)) = true ->
      step (Loop1 i st)
           (Loop2 (Math_ceil (div (kept st) (Fin (inject_Z maxPoints)))) 0
                  (sampledPointsArray st) (sampledColorsArray st)
                  ([], if (0 <? length (sampledColorsArray st))%nat
                       then Some [] else None))
  | step_return1 i st :
      ~ (i < thirds points)%Z ->
      gt (kept st) (Fin (inject_Z maxPoints)) = false ->
      step (Loop1 i st)
           (Return (sampledPointsArray st,
                    if (0 <? length (sampledColorsArray st))%nat
                    then Some (sampledColorsArray st) else None))
  | step_round2 z i sp sc acc :
      (i < thirds sp)%Z ->
      step (Loop2 (XInt z) i sp sc acc)
           (Loop2 (XInt z) (i + z) sp sc (pass2_body sp sc acc i))
  | step_round2_inf i sp sc acc :
      (i < thirds sp)%Z ->
      step (Loop2 (XInf false) i sp sc acc) (Return (pass2_body sp sc acc i))
  | step_round2_nan i sp sc acc :
      (i < thirds sp)%Z ->
      step (Loop2 XNaN i sp sc acc) (Return (pass2_body sp sc acc i))
  | step_round2_spin i sp sc acc :
      (i < thirds sp)%Z ->
      step (Loop2 (XInf true) i sp sc acc) (Spin sp sc (pass2_body sp sc acc i))
  | step_spin sp sc acc :
      step (Spin sp sc acc) (Spin sp sc (pass2_undefined acc))
  | step_return2 r i sp sc acc :
      ~ (i < thirds sp)%Z ->
      step (Loop2 r i sp sc acc) (Return acc).

(** A run of the sampler that returns [s]. *)
Definition runs (s : sample) : Prop :=
  rtc step (Loop1 0 pass1_init) (Return s).

End Step.

(** *** The first pass as a walk over the points

    The loop of lines 71-116 over the points and colours as
    [sceneData.point_cloud] holds them, one triple per point. *)

(** A point with its colour, when the cloud has colours. *)
Definition cpoint : Type := vec3 * option vec3.

Definition annotate (cloud : list vec3) (colors : option (list vec3))
    : list cpoint :=
  match colors with
  | None => (fun p => (p, None)) <$> cloud
  | Some cs => zip_with (fun p c => (p, Some c)) cloud cs
  end.

(** Lines 78-101 on a point and the last kept one. *)
Definition important (last : option cpoint) (p : cpoint) : bool :=
  match last with
  | None => false
  | Some l =>
      (importanceThreshold <? diff3 p.1 l.1)%float
      || match p.2, l.2 with
         | Some c, Some lc => (colorThreshold <? diff3 c lc)%float
         | _, _ => false
         end
  end.

(** Lines 71-116 on the points from [index] on. *)
Fixpoint walk (interval : xint) (index : Z) (last : option cpoint)
    (pts : list cpoint) : list cpoint :=
  match pts with
  | [] => []
  | p :: rest =>
      if rem_is_zero index interval || important last p
      then p :: walk interval (index + 1) (Some p) rest
      else walk interval (index + 1) last rest
  end.

(** *** The first pass as section 4.4 words it

    Steps 1 to 3 in exact arithmetic: the stride on the number that the
    double [1 / density] denotes and on the integers [totalPoints] and
    [maxPoints], the rule of step 3 on divisibility and on the operations of
    the doubles. *)

(** The number that a finite double of sign [s], mantissa [m] and exponent
    [e] denotes: [m * 2^e], negated for [s]. *)
Definition spec_value (s : bool) (m : positive) (e : Z) : Q :=
  let z := if s then Z.neg m else Z.pos m in
  if (0 <=? e)%Z then inject_Z (z * 2 ^ e) else z # 2 ^ Z.to_pos (- e).

(** Step 1: [max(1, floor(1/density))]; it is infinite for a quotient that
    is [Infinity], 1 for one that is zero or [-Infinity], and undefined for
    NaN. *)
Definition spec_base (density : float) : xint :=
  match Prim2SF (1 / density) with
  | S754_nan => XNaN
  | S754_infinity false => XInf false
  | S754_infinity true | S754_zero _ => XInt 1
  | S754_finite s m e => XInt (Z.max 1 (Qfloor (spec_value s m e)))
  end.

(** [ceil(a / b)] on integers; a quotient by 0 is infinite, or undefined
    for [0 / 0]. *)
Definition spec_ceil (a b : Z) : xint :=
  if (b =? 0)%Z then (if (a =? 0)%Z then XNaN else XInf (a <? 0)%Z)
  else XInt (Qceiling (inject_Z a / inject_Z b)).

(** Step 2: the stride is raised to [ceil(totalPoints/maxPoints)] when
    [totalPoints/stride > maxPoints]; with an infinite stride the quotient
    is 0, and with an undefined one the comparison fails. *)
Definition spec_stride (totalPoints : Z) (density : float) (maxPoints : Z)
    : xint :=
  match spec_base density with
  | XInt stride =>
      if Qlt_le_dec (inject_Z maxPoints) (inject_Z totalPoints / inject_Z stride)
      then spec_ceil totalPoints maxPoints
      else XInt stride
  | XInf false =>
      if Qlt_le_dec (inject_Z maxPoints) 0
      then spec_ceil totalPoints maxPoints
      else XInf false
  | stride => stride
  end.

(** Step 3: [index % stride == 0]: the stride is not zero and the index is
    a multiple of it; the remainder by an infinite stride is the index
    itself, and the one by an undefined stride is undefined. *)
Definition spec_multiple (index : Z) (stride : xint) : bool :=
  match stride with
  | XInt z => negb (z =? 0)%Z && (index mod z =? 0)%Z
  | XInf _ => bool_decide (index = 0%Z)
  | XNaN => false
  end.

(** Step 3: the Euclidean distance of two triples. *)
Definition spec_displacement (p q : vec3) : float :=
  sqrt ((p.1.1 - q.1.1) * (p.1.1 - q.1.1)
        + (p.1.2 - q.1.2) * (p.1.2 - q.1.2)
        + (p.2 - q.2) * (p.2 - q.2))%float.

(** Step 3: a point is important when its displacement from the last kept
    point exceeds the positional threshold or, when colour is present, the
    colour delta from the last kept point's colour exceeds the colour
    threshold. *)
Definition spec_important (positional colour : float) (last : option cpoint)
    (p : cpoint) : bool :=
  match last with
  | None => false
  | Some l =>
      (positional <? spec_displacement p.1 l.1)%float
      || match p.2, l.2 with
         | Some c, Some lc => (colour <? spec_displacement c lc)%float
         | _, _ => false
         end
  end.

(** Step 3: the walk, once and in the original order, keeping a point when
    [index % stride == 0] or it is important. *)
Fixpoint spec_walk (positional colour : float) (stride : xint) (index : Z)
    (last : option cpoint) (pts : list cpoint) : list cpoint :=
  match pts with
  | [] => []
  | p :: rest =>
      if spec_multiple index stride || spec_important positional colour last p
      then p :: spec_walk positional colour stride (index + 1) (Some p) rest
      else spec_walk positional colour stride (index + 1) last rest
  end.

(** The colours are absent or there is one for each point. *)
Definition colours_match (cloud : list vec3) (colors : option (list vec3)) : Prop :=
  match colors with
  | None => True
  | Some cs => (length cloud <= length cs)%nat
  end.

(** The variables of the loop hold the last kept point and its colour. *)
Definition holds_last (colors : option (list vec3)) (st : pass1)
    (last : option cpoint) : Prop :=
  lastPoint st = fst <$> last
  ∧ lastColor st = last ≫= snd
  ∧ (colors = None -> lastColor st = None).

(** A small cloud with a turn of colour, for the examples. *)
Definition demo_cloud : list vec3 :=
  [(0, 0, 0); (0.001, 0, 0); (1, 0, 0); (1, 0, 0); (1.005, 0, 0); (1.005, 0, 0);
   (1.005, 0, 0); (1.005, 0, 0); (1.005, 0, 0)]%float.

Definition demo_colors : list vec3 :=
  [(1, 0, 0); (1, 0, 0); (1, 0, 0); (0, 1, 0); (0, 1, 0); (0, 1, 0);
   (0, 1, 0); (0, 1, 0); (0, 1, 0)]%float.

End Sampler.

(** ** The outline extractor ([PointCloudOutlines]) *)

Module Outline.
Import JS.

(** A voxel of [voxelGrid]: its count and representative point. *)
Record voxel : Type := Voxel {
  count : Z;
  x : float;
  y : float;
  z : float
}.

Definition voxelSize : float := 0.1%float.

(** The key [`${vx},${vy},${vz}`], read as the three integers it spells. *)
Definition vkey : Type := xint * xint * xint.

(** [voxelGrid]: the voxels by key, and the keys in the order of their
    creation, which is the order [Object.keys] lists them in (no key is an
    array index). *)
Record grid : Type := Grid {
  cells : gmap vkey voxel;
  keys : list vkey
}.

Definition grid_empty : grid := Grid ∅ [].

(** Lines 471-479: the voxel is created with the point when it is missing,
    and counts one more. *)
Definition grid_add (g : grid) (k : vkey) (px py pz : float) : grid :=
  match cells g !! k with
  | None => Grid (<[k := Voxel 1 px py pz]> (cells g)) (keys g ++ [k])
  | Some v =>
      Grid (<[k := Voxel (count v + 1) (x v) (y v) (z v)]> (cells g)) (keys g)
  end.

(** Lines 463-480: one round of the loop over the points. *)
Definition voxelize_body (points : list float) (g : grid) (i : Z) : grid :=
  if (i + 2 <? Z.of_nat (length points))%Z then
    let vx := Math_floor (get points i / voxelSize)%float in
    let vy := Math_floor (get points (i + 1)%Z / voxelSize)%float in
    let vz := Math_floor (get points (i + 2)%Z / voxelSize)%float in
    grid_add g (vx, vy, vz) (get points i) (get points (i + 1)%Z)
             (get points (i + 2)%Z)
  else g.

(** Lines 462-481: [for (let i = 0; i < points.length; i += 3)]. *)
Definition voxelGrid (points : list float) : grid :=
  let n := Z.of_nat (length points) in
  fold_left (voxelize_body points) (strided 0 3 (rounds n 3 0)) grid_empty.

Definition directions : list (Z * Z * Z) :=
  [(1, 0, 0); (-1, 0, 0); (0, 1, 0); (0, -1, 0); (0, 0, 1); (0, 0, -1)]%Z.

(** [`${vx+dx},${vy+dy},${vz+dz}`] *)
Definition neighborKey (k : vkey) (d : Z * Z * Z) : vkey :=
  (xadd k.1.1 d.1.1, xadd k.1.2 d.1.2, xadd k.2 d.2).

(** Lines 495-503 *)
Definition emptyNeighbors (g : grid) (k : vkey) : nat :=
  length (filter (fun d => cells g !! neighborKey k d = None) directions).

(** Lines 493-509: the voxels with an empty neighbour, in key order. *)
Definition edgeVoxels (g : grid) : list voxel :=
  omap (fun k => if (0 <? emptyNeighbors g k)%nat then cells g !! k else None)
       (keys g).

(** Lines 518-519 *)
Definition edgeSampleCount (n : Z) : Z := Z.min n 5000.

Definition samplingStep (n : Z) : xint :=
  Math_max (XInt 1)
    (Math_floor_q (div (Fin (inject_Z n)) (Fin (inject_Z (edgeSampleCount n))))).

(** Lines 522-526: [for (let i = 0; i < edgeVoxels.length; i += samplingStep)]. *)
Definition sample_body (edges : list voxel) (acc : list voxel) (i : Z)
    : list voxel :=
  if (i <? Z.of_nat (length edges))%Z then
    match edges !! Z.to_nat i with
    | Some v => acc ++ [v]
    | None => acc
    end
  else acc.

Definition sampledEdges (edges : list voxel) : option (list voxel) :=
  let n := Z.of_nat (length edges) in
  for_by (S (length edges)) n (samplingStep n) 0 (sample_body edges) [].

(** The key of [processed]:
    [`${v.x.toFixed(3)},${v.y.toFixed(3)},${v.z.toFixed(3)}`]. *)
Definition pkey : Type := fixed * fixed * fixed.

Definition keyOf (v : voxel) : pkey :=
  (toFixed3 (x v), toFixed3 (y v), toFixed3 (z v)).

(** Lines 548-551 *)
Definition dist2 (current other : voxel) : float :=
  let dx := (x current - x other)%float in
  let dy := (y current - y other)%float in
  let dz := (z current - z other)%float in
  (dx * dx + dy * dy + dz * dz)%float.

(** [voxelSize * voxelSize * 4] *)
Definition threshold : float := (voxelSize * voxelSize * 4)%float.

(** The variables of the inner loop; [nearestIdx] is -1 until a voxel is
    found. *)
Record search : Type := Search {
  nearestIdx : Z;
  minDist : float
}.

(** Lines 541-556: one round of the inner loop. *)
Definition search_body (sampled : list voxel) (processed : gset pkey)
    (i : Z) (current : voxel) (s : search) (j : Z) : search :=
  if (i =? j)%Z then s
  else
    match sampled !! Z.to_nat j with
    | None => s
    | Some other =>
        if decide (keyOf other ∈ processed) then s
        else
          let dist := dist2 current other in
          if (dist <? minDist s)%float && (dist <? threshold)%float
          then Search j dist
          else s
    end.

(** The variables of the outer loop. *)
Record stitch : Type := Stitch {
  processed : gset pkey;
  vertices : list float
}.

(** Lines 530-568: one round of the outer loop. *)
Definition stitch_body (sampled : list voxel) (st : stitch) (i : Z) : stitch :=
  match sampled !! Z.to_nat i with
  | None => st
  | Some current =>
      if decide (keyOf current ∈ processed st) then st
      else
        let marked := {[ keyOf current ]} ∪ processed st in
        let found :=
          fold_left (search_body sampled marked i current)
                    (seqZ 0 (Z.of_nat (length sampled)))
                    (Search (-1) infinity) in
        if (0 <=? nearestIdx found)%Z then
          match sampled !! Z.to_nat (nearestIdx found) with
          | None => Stitch marked (vertices st)
          | Some nearest =>
              Stitch ({[ keyOf nearest ]} ∪ marked)
                     (vertices st
                        ++ [x current; y current; z current]
                        ++ [x nearest; y nearest; z nearest])
          end
        else Stitch marked (vertices st)
  end.

(** Lines 529-569: [for (let i = 0; i < sampledEdges.length; i++)]. *)
Definition stitchEdges (sampled : list voxel) : stitch :=
  fold_left (stitch_body sampled) (seqZ 0 (Z.of_nat (length sampled)))
            (Stitch ∅ []).

(** Lines 455-575: the positions of the outline geometry; [None] when the
    sampling loop does not terminate. *)
Definition outlineVertices (points : list float) : option (list float) :=
  (fun sampled => vertices (stitchEdges sampled))
    <$> sampledEdges (edgeVoxels (voxelGrid points)).

(** Line 573: the [position] attribute of the geometry,
    [new THREE.Float32BufferAttribute(vertices, 3)], whose array is
    [new Float32Array(vertices)]. *)
Definition positionAttribute (points : list float) : option (list float) :=
  Float32Array <$> outlineVertices points.

(** Line 453 and 577: the component renders nothing without points. *)
Definition PointCloudOutlines (points : option (list float))
    : option (option (list float)) :=
  match points with
  | None => Some None
  | Some ps =>
      if (length ps =? 0)%nat then Some None
      else Some <$> outlineVertices ps
  end.

(** How [lineSegments] reads the position buffer: six numbers a segment,
    three a vertex. *)
Definition vertex : Type := float * float * float.

Fixpoint endpoints (buffer : list float) : list vertex :=
  match buffer with
  | a :: b :: c :: rest => (a, b, c) :: endpoints rest
  | _ => []
  end.

Fixpoint segments (vs : list vertex) : list (vertex * vertex) :=
  match vs with
  | p :: q :: rest => (p, q) :: segments rest
  | _ => []
  end.

Definition position (v : voxel) : vertex := (x v, y v, z v).

(** The key of [processed] of a vertex. *)
Definition vertexKey (p : vertex) : pkey :=
  (toFixed3 p.1.1, toFixed3 p.1.2, toFixed3 p.2).

(** The position buffer of a list of segments, and their ends. *)
Definition segment_buffer (l : list (voxel * voxel)) : list float :=
  flat_map (fun ab => [x ab.1; y ab.1; z ab.1; x ab.2; y ab.2; z ab.2]) l.

Definition ends (l : list (voxel * voxel)) : list voxel :=
  flat_map (fun ab => [ab.1; ab.2]) l.

(** What the inner loop has found: nothing yet, or an unmarked voxel of the
    sample within the threshold. *)
Definition found_ok (sampled : list voxel) (marked : gset pkey)
    (current : voxel) (s : search) : Prop :=
  nearestIdx s = (-1)%Z
  ∨ ∃ other,
      sampled !! Z.to_nat (nearestIdx s) = Some other
      ∧ (0 <= nearestIdx s)%Z
      ∧ (keyOf other ∉ marked)
      ∧ (dist2 current other <? threshold)%float = true.

(** What the outer loop has emitted: segments between voxels of the sample
    within the threshold, whose ends have distinct keys, all marked. *)
Definition stitched (sampled : list voxel) (st : stitch) : Prop :=
  ∃ l : list (voxel * voxel),
    vertices st = segment_buffer l
    ∧ Forall (fun ab => ab.1 ∈ sampled ∧ ab.2 ∈ sampled
                        ∧ (dist2 ab.1 ab.2 <? threshold)%float = true) l
    ∧ NoDup (keyOf <$> ends l)
    ∧ (∀ k, k ∈ keyOf <$> ends l -> k ∈ processed st).

(** The loop of lines 462-481 again, over the array itself, three numbers at
    a time. *)
Fixpoint grid_of (points : list float) (g : grid) : grid :=
  match points with
  | a :: b :: c :: rest =>
      grid_of rest
        (grid_add g (Math_floor (a / voxelSize)%float,
                     Math_floor (b / voxelSize)%float,
                     Math_floor (c / voxelSize)%float) a b c)
  | _ => g
  end.

(** A cloud of [n] points one unit apart on a line, each in a voxel of its
    own with no neighbour. *)
Definition line_cloud (n : Z) : list float :=
  flat_map (fun k => [PrimFloat.of_uint63 (Uint63.of_Z k); 0%float; 0%float])
           (seqZ 0 n).

End Outline.

(** ** Camera relations and the recommendation ([SceneViewerTest]) *)

Module Relations.
Import JS.

(** *** Objects

    An object is the list of its own properties in the order [Object.keys]
    gives them: array indices in ascending order first, then the other keys in
    the order of their creation.  The prototype is not part of it: [obj_get]
    and [obj_set] below are the reads and writes of own properties, which is
    what [o[k]] and [o[k] = v] are for every name but those of
    [Object_prototype_names].  A read [o[k]] of one of these that [o] does
    not own gives the inherited value, and [o["__proto__"] = v] sets the
    prototype and adds no key; where the code can meet them, the statements
    below exclude them by a hypothesis. *)
Definition obj (A : Type) : Type := list (string * A).

(** The properties of [Object.prototype], which every object made by [{}]
    inherits. *)
Definition Object_prototype_names : list string :=
  ["constructor"; "__defineGetter__"; "__defineSetter__"; "hasOwnProperty";
   "__lookupGetter__"; "__lookupSetter__"; "isPrototypeOf";
   "propertyIsEnumerable"; "toString"; "valueOf"; "__proto__";
   "toLocaleString"]%string.

(** [k in {}] *)
Definition inherits (k : string) : bool :=
  bool_decide (k ∈ Object_prototype_names).

Definition digit (c : ascii) : option N :=
  let n := N_of_ascii c in
  if (48 <=? n)%N && (n <=? 57)%N then Some (n - 48)%N else None.

Fixpoint digits (s : string) (acc : N) : option N :=
  match s with
  | EmptyString => Some acc
  | String c s' =>
      match digit c with
      | Some d => digits s' (10 * acc + d)%N
      | None => None
      end
  end.

(** The array index a key spells: a canonical numeric string below 2^32 - 1. *)
Definition array_index (k : string) : option N :=
  match k with
  | EmptyString => None
  | String c EmptyString => digit c
  | String c _ =>
      if decide (c = "0"%char) then None
      else match digits k 0 with
           | Some n => if (n <? 2 ^ 32 - 1)%N then Some n else None
           | None => None
           end
  end.

(** [o[k]] *)
Fixpoint obj_get {A : Type} (o : obj A) (k : string) : option A :=
  match o with
  | [] => None
  | (k', v) :: o' => if decide (k = k') then Some v else obj_get o' k
  end.

(** The place of a new key [k] in the order of the keys. *)
Fixpoint obj_insert {A : Type} (o : obj A) (k : string) (v : A) : obj A :=
  match o with
  | [] => [(k, v)]
  | (k', v') :: o' =>
      match array_index k, array_index k' with
      | Some n, Some n' =>
          if (n <? n')%N then (k, v) :: o else (k', v') :: obj_insert o' k v
      | Some _, None => (k, v) :: o
      | None, _ => (k', v') :: obj_insert o' k v
      end
  end.

(** [o[k] = v] *)
Definition obj_set {A : Type} (o : obj A) (k : string) (v : A) : obj A :=
  if decide (is_Some (obj_get o k))
  then (fun kv => if decide (kv.1 = k) then (k, v) else kv) <$> o
  else obj_insert o k v.

Definition Object_keys {A : Type} (o : obj A) : list string := o.*1.

Definition Object_entries {A : Type} (o : obj A) : list (string * A) := o.

(** *** Vectors *)

Definition Vector3 : Type := float * float * float.

(** Modelled from the spec: "Euclidean distance between camera and subject
    position"; three.js's [Vector3.distanceTo], which is not in the sources. *)
Definition distanceTo (a b : Vector3) : float :=
  let dx := (a.1.1 - b.1.1)%float in
  let dy := (a.1.2 - b.1.2)%float in
  let dz := (a.2 - b.2)%float in
  sqrt (dx * dx + dy * dy + dz * dz)%float.

(** Modelled from the spec: the camera-to-subject direction is the difference
    of the positions, normalized; three.js's [Vector3.sub], [Vector3.length]
    and [Vector3.normalize] (a vector of length 0 is left as it is). *)
Definition sub (a b : Vector3) : Vector3 :=
  ((a.1.1 - b.1.1)%float, (a.1.2 - b.1.2)%float, (a.2 - b.2)%float).

(** Modelled from the spec: the length of a vector; three.js's
    [Vector3.length]. *)
Definition length3 (a : Vector3) : float :=
  sqrt (a.1.1 * a.1.1 + a.1.2 * a.1.2 + a.2 * a.2)%float.

(** Modelled from the spec: the unit vector of a direction; three.js's
    [Vector3.normalize], which divides by [length() || 1]. *)
Definition normalize (a : Vector3) : Vector3 :=
  let l := length3 a in
  let s := if isNaN l || (l =? 0)%float then 1%float else l in
  let r := (1 / s)%float in
  ((a.1.1 * r)%float, (a.1.2 * r)%float, (a.2 * r)%float).

(** Modelled from the spec: the cosine similarity is the dot product with the
    unit direction; three.js's [Vector3.dot]. *)
Definition dot (a b : Vector3) : float :=
  (a.1.1 * b.1.1 + a.1.2 * b.1.2 + a.2 * b.2)%float.

(** Modelled from the spec: the vector product, for the axes of the pinhole
    camera of section 4.1; three.js's [Vector3.cross]. *)
Definition cross (a b : Vector3) : Vector3 :=
  ((a.1.2 * b.2 - a.2 * b.1.2)%float,
   (a.2 * b.1.1 - a.1.1 * b.2)%float,
   (a.1.1 * b.1.2 - a.1.2 * b.1.1)%float).

(** Modelled from the spec: the sum of two vectors; three.js's
    [Vector3.add]. *)
Definition add3 (a b : Vector3) : Vector3 :=
  ((a.1.1 + b.1.1)%float, (a.1.2 + b.1.2)%float, (a.2 + b.2)%float).

(** Modelled from the spec: a vector times a number; three.js's
    [Vector3.multiplyScalar]. *)
Definition scale3 (s : float) (a : Vector3) : Vector3 :=
  ((s * a.1.1)%float, (s * a.1.2)%float, (s * a.2)%float).

(** Modelled from the spec: the opposite vector; three.js's
    [Vector3.negate]. *)
Definition neg3 (a : Vector3) : Vector3 :=
  ((- a.1.1)%float, (- a.1.2)%float, (- a.2)%float).

(** Modelled from the spec: an input that is not "NaN/Infinity": no
    coordinate is NaN or an infinity. *)
Definition finite3 (a : Vector3) : bool :=
  Number_isFinite a.1.1 && Number_isFinite a.1.2 && Number_isFinite a.2.

(** [Math.min(a, b)] and [Math.abs(a)] *)
Definition Math_min (a b : float) : float :=
  if isNaN a || isNaN b then nan
  else if (a <? b)%float then a
  else if (b <? a)%float then b
  else match Prim2SF a with
       | S754_zero true => a
       | _ => b
       end.

Definition Math_abs (a : float) : float := abs a.

(** *** The scene *)

Record Camera : Type := {
  position : Vector3;
  direction : Vector3;
  fov : float;
  aspectRatio : float;
  near : float;
  far : float
}.

Record Person : Type := {
  id : string;
  personPosition : Vector3;
  personDirection : Vector3
}.

(** The [THREE.PerspectiveCamera] the code builds: the constructor's
    arguments, [position.set] and the target of [lookAt]. *)
Record PerspectiveCamera : Type := {
  cam_fov : float;
  cam_aspect : float;
  cam_near : float;
  cam_far : float;
  cam_position : Vector3;
  cam_target : Vector3
}.

(** A plane of a [THREE.Frustum], and the frustum's six planes. *)
Record Plane : Type := {
  normal : Vector3;
  constant : float
}.

Record Frustum : Type := {
  plane0 : Plane; plane1 : Plane; plane2 : Plane;
  plane3 : Plane; plane4 : Plane; plane5 : Plane
}.

Definition planes (f : Frustum) : list Plane :=
  [plane0 f; plane1 f; plane2 f; plane3 f; plane4 f; plane5 f].

(** Modelled from the spec: the signed distance of a point to a clipping
    plane, negative outside; three.js's [Plane.distanceToPoint], which is not
    in the sources. *)
Definition distanceToPoint (pl : Plane) (p : Vector3) : float :=
  (dot (normal pl) p + constant pl)%float.

(** Modelled from the spec: "point lies inside the six clipping planes" and
    "returns false for NaN/Infinity inputs": the point is finite and its
    signed distance to each of the six planes is zero or more.  This stands
    for three.js's [Frustum.containsPoint], which is not in the sources. *)
Definition containsPoint (f : Frustum) (p : Vector3) : bool :=
  finite3 p && forallb (fun pl => (0 <=? distanceToPoint pl p)%float) (planes f).

(** *** The pinhole camera of section 4.1 *)

Section Pinhole.

(** [Math.tan], which is not determined to the last bit, and the test for a
    direction that is "near-vertical", whose bound section 4.1 leaves open. *)
Variable Math_tan : float -> float.
Variable nearVertical : Vector3 -> bool.

(** [Math.PI] *)
Definition Math_PI : float := 3.141592653589793%float.

(** Modelled from the spec: the first axis of the "standard pinhole
    perspective", the unit vector from the position of the camera to the
    point it looks at; three.js's [lookAt], which is not in the sources. *)
Definition forward (cam : PerspectiveCamera) : Vector3 :=
  normalize (sub (cam_target cam) (cam_position cam)).

(** Modelled from the spec: the axis that "up" is "derived from": the second
    one, "defaulting to a secondary axis when direction is near-vertical",
    here the third; the [up] of three.js's [lookAt]. *)
Definition worldUp (f : Vector3) : Vector3 :=
  if nearVertical f then (0, 0, 1)%float else (0, 1, 0)%float.

(** Modelled from the spec: the axis to the right of the camera, the unit
    vector of forward x up; a column of three.js's [Matrix4.lookAt]. *)
Definition rightward (cam : PerspectiveCamera) : Vector3 :=
  normalize (cross (forward cam) (worldUp (forward cam))).

(** Modelled from the spec: "up" as "derived from direction", right x
    forward; a column of three.js's [Matrix4.lookAt]. *)
Definition upward (cam : PerspectiveCamera) : Vector3 :=
  cross (rightward cam) (forward cam).

(** Modelled from the spec: the half height of the frame at depth 1, the
    tangent of half the field of view, which is in degrees; of three.js's
    [updateProjectionMatrix]. *)
Definition halfHeight (cam : PerspectiveCamera) : float :=
  Math_tan (cam_fov cam * Math_PI / 360)%float.

(** Modelled from the spec: the half width of the frame at depth 1, the
    half height times the aspect ratio; of three.js's
    [updateProjectionMatrix]. *)
Definition halfWidth (cam : PerspectiveCamera) : float :=
  (halfHeight cam * cam_aspect cam)%float.

(** Modelled from the spec: a clipping plane, given by its normal [n] and a
    point [q] on it; what three.js's [Plane.setComponents] is given. *)
Definition planeThrough (n q : Vector3) : Plane :=
  {| normal := n; constant := (- dot n q)%float |}.

(** Modelled from the spec: a plane that no point is inside of, for the
    camera with "NaN/Infinity inputs"; three.js's planes of such a camera. *)
Definition nanPlane : Plane :=
  {| normal := (nan, nan, nan); constant := nan |}.

(** Modelled from the spec: the inputs of the camera are not "NaN/Infinity
    inputs"; the arguments of three.js's constructor, [position.set] and
    [lookAt]. *)
Definition finiteCamera (cam : PerspectiveCamera) : bool :=
  Number_isFinite (cam_fov cam) && Number_isFinite (cam_aspect cam)
  && Number_isFinite (cam_near cam) && Number_isFinite (cam_far cam)
  && finite3 (cam_position cam) && finite3 (cam_target cam).

(** Modelled from the spec: the "six clipping planes" of the camera's
    "view-projection transform from position, direction, fov, aspect, near,
    far": right, left, bottom, top, far and near, each with its normal
    pointing into the frustum.  A camera with an input that is NaN or an
    infinity has no frustum: nothing is inside its planes.  This stands for
    three.js's [Frustum.setFromProjectionMatrix] on the matrices of the
    camera, which are not in the sources. *)
Definition pinhole (cam : PerspectiveCamera) : Frustum :=
  if finiteCamera cam then
    let f := forward cam in
    let r := rightward cam in
    let u := upward cam in
    let c := cam_position cam in
    {| plane0 := planeThrough (sub (scale3 (halfWidth cam) f) r) c;
       plane1 := planeThrough (add3 (scale3 (halfWidth cam) f) r) c;
       plane2 := planeThrough (add3 (scale3 (halfHeight cam) f) u) c;
       plane3 := planeThrough (sub (scale3 (halfHeight cam) f) u) c;
       plane4 := planeThrough (neg3 f) (add3 c (scale3 (cam_far cam) f));
       plane5 := planeThrough f (add3 c (scale3 (cam_near cam) f)) |}
  else
    {| plane0 := nanPlane; plane1 := nanPlane; plane2 := nanPlane;
       plane3 := nanPlane; plane4 := nanPlane; plane5 := nanPlane |}.

(** Modelled from the spec: "project the subject position through the
    camera's view-projection transform to normalized device coordinates";
    three.js's [Vector3.project], which is not in the sources. *)
Definition pinhole_project (cam : PerspectiveCamera) (p : Vector3) : Vector3 :=
  let v := sub p (cam_position cam) in
  let depth := dot v (forward cam) in
  ((dot v (rightward cam) / (depth * halfWidth cam))%float,
   (dot v (upward cam) / (depth * halfHeight cam))%float,
   (((cam_far cam + cam_near cam) * depth - 2 * cam_far cam * cam_near cam)
    / ((cam_far cam - cam_near cam) * depth))%float).

End Pinhole.

Inductive ShotType : Type :=
  | CloseUp
  | Medium
  | Wide.

Record Relation : Type := {
  isVisible : bool;
  distance : float;
  centerOffset : float;
  angleScore : float;
  qualityScore : float;
  shotType : ShotType
}.

Section Scoring.

(** The parts of three.js and of [Math] that work on the camera's matrices or
    are not determined to the last bit: the frustum of a camera
    ([updateMatrixWorld], [multiplyMatrices], [setFromProjectionMatrix]), the
    projection of a point to normalized device coordinates
    ([Vector3.project]) and [Math.pow]. *)
Variable frustumOf : PerspectiveCamera -> Frustum.
Variable project : PerspectiveCamera -> Vector3 -> Vector3.
Variable Math_pow : float -> float -> float.

Definition optimalDistance : float := 5.

(** Lines 852-865 *)
Definition cameraOf (camera : Camera) : PerspectiveCamera :=
  {| cam_fov := fov camera;
     cam_aspect := aspectRatio camera;
     cam_near := near camera;
     cam_far := far camera;
     cam_position := position camera;
     cam_target :=
       ((position camera).1.1 + (direction camera).1.1,
        (position camera).1.2 + (direction camera).1.2,
        (position camera).2 + (direction camera).2)%float |}.

(** Lines 851-911: the relation of one camera and one person. *)
Definition relationOf (camera : Camera) (person : Person) : Relation :=
  let cam := cameraOf camera in
  let frustum := frustumOf cam in
  let personPosition := personPosition person in
  let isVisible := containsPoint frustum personPosition in
  let distance := distanceTo (position camera) personPosition in
  let personPosInCamera := project cam personPosition in
  let centerOffset :=
    sqrt (Math_pow personPosInCamera.1.1 2 + Math_pow personPosInCamera.1.2 2)%float in
  let camToPersonDir := normalize (sub personPosition (position camera)) in
  let personDir := personDirection person in
  let angleScore := (dot personDir camToPersonDir * 0.5 + 0.5)%float in
  let distanceScore :=
    (1.0 - Math_min 1.0 (Math_abs (distance - optimalDistance) / optimalDistance))%float in
  let centerScore := (1.0 - Math_min 1.0 centerOffset)%float in
  let qualityScore :=
    (distanceScore * 0.4 + centerScore * 0.3 + angleScore * 0.3)%float in
  let shotType :=
    if (distance <? 3)%float then CloseUp
    else if (distance <? 7)%float then Medium
    else Wide in
  {| isVisible := isVisible;
     distance := distance;
     centerOffset := centerOffset;
     angleScore := angleScore;
     qualityScore := qualityScore;
     shotType := shotType |}.

(** Lines 846-912: the relations of one person, camera by camera. *)
Definition personRelationsOf (cameras : obj Camera) (person : Person)
    : obj Relation :=
  fold_left
    (fun personRelations cameraId =>
       match obj_get cameras cameraId with
       | Some camera => obj_set personRelations cameraId (relationOf camera person)
       | None => personRelations
       end)
    (Object_keys cameras) [].

(** Lines 842-915: the table. *)
Definition relationsOf (cameras : obj Camera) (personsData : list Person)
    : obj (obj Relation) :=
  fold_left
    (fun relations person =>
       obj_set relations (id person) (personRelationsOf cameras person))
    personsData [].

End Scoring.

(** *** The recommendation *)

(** The comparator of line 937 puts [b] before [a]:
    [b[1].qualityScore - a[1].qualityScore > 0]. *)
Definition better (a b : string * Relation) : bool :=
  (0 <? qualityScore b.2 - qualityScore a.2)%float.

(** [Array.prototype.sort] with this comparator.  For a comparator that is
    consistent on the array (here, when no score is NaN) the language fixes
    the result: the entries in the order of the comparator, equal ones in
    their order in the array; this is it, by insertion.  For another comparator the order is left to
    the engine, and nothing below is said of it but that the entries are the
    same. *)
Fixpoint sort_insert (a : string * Relation) (l : list (string * Relation))
    : list (string * Relation) :=
  match l with
  | [] => [a]
  | b :: l' => if better a b then b :: sort_insert a l' else a :: l
  end.

Definition sort (l : list (string * Relation)) : list (string * Relation) :=
  foldr sort_insert [] l.

(** Lines 935-937 *)
Definition visibleCameras (personRelations : obj Relation)
    : list (string * Relation) :=
  sort (filter (fun e => isVisible e.2 = true) (Object_entries personRelations)).


(** The state the page keeps. *)
Record page : Type := {
  cameraRelations : obj (obj Relation);
  recommendedCamera : option string
}.

(** Lines 927-943: [updateRecommendedCamera]; a [return] leaves the state as
    it is. *)
Definition updateRecommendedCamera (relations : obj (obj Relation))
    (st : page) : page :=
  match Object_keys relations with
  | [] => st
  | personId :: _ =>
      match obj_get relations personId with
      | None => st
      | Some personRelations =>
          match visibleCameras personRelations with
          | [] => st
          | top :: _ =>
              {| cameraRelations := cameraRelations st;
                 recommendedCamera := Some top.1 |}
          end
      end
  end.

(** The first person of the table, the one the recommendation is for. *)
Definition primary (relations : obj (obj Relation)) : option (obj Relation) :=
  match Object_keys relations with
  | [] => None
  | personId :: _ => obj_get relations personId
  end.

(** The entries of a person's cameras that see the person. *)
Definition visible (personRelations : obj Relation) : list (string * Relation) :=
  filter (fun e => isVisible e.2 = true) (Object_entries personRelations).

(** *** Sections 4.1 and 4.2, written out

    The six signed distances and the scores of a camera and a person,
    coordinate by coordinate in the operations of the doubles, for the
    statements of the theorems. *)

Section Written.
Variable Math_tan : float -> float.
Variable nearVertical : Vector3 -> bool.


Definition written_divisor (l : float) : float :=
  if (l =? 0)%float || negb (l =? l)%float then 1%float else l.

(** The axes of the camera, the tangent of half its field of view, and that
    times the aspect ratio: forward is the unit vector from the position to
    [position + direction], right is the unit vector of forward x up, and up
    is right x forward. *)
Record Axes : Type := {
  fx : float; fy : float; fz : float;
  rx : float; ry : float; rz : float;
  ux : float; uy : float; uz : float;
  tanHalf : float;
  tanHalfAspect : float
}.

Definition written_axes (camera : Camera) : Axes :=
  let cx := (position camera).1.1 in
  let cy := (position camera).1.2 in
  let cz := (position camera).2 in
  let gx := (cx + (direction camera).1.1 - cx)%float in
  let gy := (cy + (direction camera).1.2 - cy)%float in
  let gz := (cz + (direction camera).2 - cz)%float in
  let gl := sqrt (gx * gx + gy * gy + gz * gz)%float in
  let gs := (1 / written_divisor gl)%float in
  let fx := (gx * gs)%float in
  let fy := (gy * gs)%float in
  let fz := (gz * gs)%float in
  let w := if nearVertical (fx, fy, fz) then (0, 0, 1)%float else (0, 1, 0)%float in
  let hx := (fy * w.2 - fz * w.1.2)%float in
  let hy := (fz * w.1.1 - fx * w.2)%float in
  let hz := (fx * w.1.2 - fy * w.1.1)%float in
  let hl := sqrt (hx * hx + hy * hy + hz * hz)%float in
  let hs := (1 / written_divisor hl)%float in
  let rx := (hx * hs)%float in
  let ry := (hy * hs)%float in
  let rz := (hz * hs)%float in
  let t := Math_tan (fov camera * 3.141592653589793 / 360)%float in
  {| fx := fx; fy := fy; fz := fz;
     rx := rx; ry := ry; rz := rz;
     ux := (ry * fz - rz * fy)%float;
     uy := (rz * fx - rx * fz)%float;
     uz := (rx * fy - ry * fx)%float;
     tanHalf := t;
     tanHalfAspect := (t * aspectRatio camera)%float |}.







(** [min(1, q)], by comparison; NaN for NaN. *)
Definition written_cap (q : float) : float :=
  if (q <? 1)%float then q else if (q =? q)%float then 1%float else nan.

(** The scores of section 4.2: the distance; the offset of the projected
    position from the centre of the frame, (0, 0) in normalized device
    coordinates; the angle score; and the composite score. *)
Record Scores : Type := {
  the_distance : float;
  the_offset : float;
  the_angleScore : float;
  the_qualityScore : float
}.

Definition written_scores (camera : Camera) (person : Person) : Scores :=
  let a := written_axes camera in
  let cx := (position camera).1.1 in
  let cy := (position camera).1.2 in
  let cz := (position camera).2 in
  let px := (personPosition person).1.1 in
  let py := (personPosition person).1.2 in
  let pz := (personPosition person).2 in
  let distance :=
    sqrt ((cx - px) * (cx - px) + (cy - py) * (cy - py) + (cz - pz) * (cz - pz))%float in
  let distanceScore := (1 - written_cap (abs (distance - 5) / 5))%float in
  let vx := (px - cx)%float in
  let vy := (py - cy)%float in
  let vz := (pz - cz)%float in
  let depth := (vx * fx a + vy * fy a + vz * fz a)%float in
  let x := ((vx * rx a + vy * ry a + vz * rz a) / (depth * tanHalfAspect a))%float in
  let y := ((vx * ux a + vy * uy a + vz * uz a) / (depth * tanHalf a))%float in
  let offset := sqrt (x * x + y * y)%float in
  let centerScore := (1 - written_cap offset)%float in
  let vl := sqrt (vx * vx + vy * vy + vz * vz)%float in
  let vs := (1 / written_divisor vl)%float in
  let cosine :=
    ((personDirection person).1.1 * (vx * vs)
     + (personDirection person).1.2 * (vy * vs)
     + (personDirection person).2 * (vz * vs))%float in
  let angleScore := (cosine * 0.5 + 0.5)%float in
  {| the_distance := distance;
     the_offset := offset;
     the_angleScore := angleScore;
     the_qualityScore :=
       (distanceScore * 0.4 + centerScore * 0.3 + angleScore * 0.3)%float |}.

End Written.

(** *** A stand-in for the library in the examples

    A camera that sees the axis-aligned box of half-width [far] around its
    position, and projects by scaling the offset from it. *)
Definition box_plane (n : Vector3) (c : float) : Plane :=
  {| normal := n; constant := c |}.

Definition box_frustum (cam : PerspectiveCamera) : Frustum :=
  let p := cam_position cam in
  let f := cam_far cam in
  {| plane0 := box_plane (1, 0, 0)%float (f - p.1.1)%float;
     plane1 := box_plane (-1, 0, 0)%float (f + p.1.1)%float;
     plane2 := box_plane (0, 1, 0)%float (f - p.1.2)%float;
     plane3 := box_plane (0, -1, 0)%float (f + p.1.2)%float;
     plane4 := box_plane (0, 0, 1)%float (f - p.2)%float;
     plane5 := box_plane (0, 0, -1)%float (f + p.2)%float |}.

Definition box_project (cam : PerspectiveCamera) (p : Vector3) : Vector3 :=
  let d := sub p (cam_position cam) in
  let r := (1 / cam_far cam)%float in
  ((d.1.1 * r)%float, (d.1.2 * r)%float, (d.2 * r)%float).

Definition square_pow (a b : float) : float := (a * a)%float.

(** [Math.tan] at the half angle of the cameras of the examples, whose field
    of view is 60 degrees, and a test for a direction near the vertical. *)
Definition demo_tan (x : float) : float := 0.5773502691896257%float.

Definition demo_nearVertical (f : Vector3) : bool := (0.999 <? abs f.1.2)%float.

Definition demo_camera (px py pz dx dy dz : float) : Camera :=
  {| position := (px, py, pz);
     direction := (dx, dy, dz);
     fov := 60;
     aspectRatio := (16 / 9)%float;
     near := 0.1%float;
     far := 100 |}.

Definition demo_cameras : obj Camera :=
  [("0"%string, demo_camera 0 0 5 0 0 (-1));
   ("1"%string, demo_camera 5 0 0 (-1) 0 0)].

Definition demo_person : Person :=
  {| id := "person_1"; personPosition := (0, 0, 0)%float;
     personDirection := (0, 0, 1)%float |}.


(** A table whose only camera does not see the person, and a page that
    recommends a camera from before. *)
Definition unseen : Relation :=
  {| isVisible := false; distance := 50; centerOffset := 2; angleScore := 0.5;
     qualityScore := 0.15%float; shotType := Wide |}.

Definition unseen_relations : obj (obj Relation) :=
  [("person_1"%string, [("0"%string, unseen)])].

(** Three cameras that see the person, the last two with the same score. *)
Definition scored (q : float) : Relation :=
  {| isVisible := true; distance := 5; centerOffset := 0; angleScore := 0.5;
     qualityScore := q; shotType := Medium |}.

Definition tied_row : obj Relation :=
  [("a"%string, scored 0.5%float); ("b"%string, scored 0.9%float);
   ("c"%string, scored 0.9%float)].

Definition tied_relations : obj (obj Relation) :=
  [("person_1"%string, tied_row)].

Definition stale_page : page :=
  {| cameraRelations := []; recommendedCamera := Some "7"%string |}.

(** Lines 838-924: the effect run when the scene or the persons change. *)
Definition relationsEffect
    (frustumOf : PerspectiveCamera -> Frustum)
    (project : PerspectiveCamera -> Vector3 -> Vector3)
    (Math_pow : float -> float -> float)
    (sceneData : option (obj Camera)) (personsData : list Person)
    (st : page) : page :=
  match sceneData with
  | None => st
  | Some cameras =>
      if (length personsData =? 0)%nat then st
      else
        let relations :=
          relationsOf frustumOf project Math_pow cameras personsData in
        updateRecommendedCamera relations
          {| cameraRelations := relations;
             recommendedCamera := recommendedCamera st |}
  end.

End Relations.

(** ** The tracking client ([TrackingService]) *)

Module Tracking.

(** The events of [eventListeners]. *)
Inductive event : Type :=
  | persons
  | cameras
  | connect
  | disconnect
  | error.

(** The fields of the service the reconnection logic reads and writes, and
    what it does to the outside: the calls of [_triggerEvent], oldest first,
    the delays of the [setTimeout] calls in milliseconds, oldest first, and
    the number of timers set and not yet run. *)
Record TrackingService : Type := Service {
  socket : bool;
  connected : bool;
  retryCount : Z;
  maxRetries : Z;
  retryDelay : Z;
  triggered : list event;
  timeouts : list Q;
  pending : nat
}.

(** Lines 7-21: the constructor. *)
Definition constructor : TrackingService :=
  {| socket := false;
     connected := false;
     retryCount := 0;
     maxRetries := 5;
     retryDelay := 2000;
     triggered := [];
     timeouts := [];
     pending := 0 |}.

(** A method is a change of the service; [m1 ⨾ m2] runs [m1], then [m2]. *)
Definition method : Type := TrackingService -> TrackingService.

Definition seq_method (m1 m2 : method) : method := fun s => m2 (m1 s).

Notation "m1 ⨾ m2" := (seq_method m1 m2) (at level 62, right associativity).

Definition set_socket (b : bool) : method := fun s =>
  Service b (connected s) (retryCount s) (maxRetries s) (retryDelay s)
          (triggered s) (timeouts s) (pending s).

Definition set_connected (b : bool) : method := fun s =>
  Service (socket s) b (retryCount s) (maxRetries s) (retryDelay s)
          (triggered s) (timeouts s) (pending s).

Definition set_retryCount (n : Z) : method := fun s =>
  Service (socket s) (connected s) n (maxRetries s) (retryDelay s)
          (triggered s) (timeouts s) (pending s).

(** Lines 208-218: [_triggerEvent(event)]; the listeners are the callers'
    and do not call back into the service. *)
Definition _triggerEvent (e : event) : method := fun s =>
  Service (socket s) (connected s) (retryCount s) (maxRetries s) (retryDelay s)
          (triggered s ++ [e]) (timeouts s) (pending s).

(** [setTimeout(() => this.connect(), delay)] *)
Definition setTimeout (delay : Q) : method := fun s =>
  Service (socket s) (connected s) (retryCount s) (maxRetries s) (retryDelay s)
          (triggered s) (timeouts s ++ [delay]) (S (pending s)).

(** [this.retryDelay * Math.pow(1.5, this.retryCount - 1)] *)
Definition backoff (s : TrackingService) : Q :=
  inject_Z (retryDelay s) * (3 # 2) ^ (retryCount s - 1).

(** Lines 81-94: [_attemptReconnect()]. *)
Definition _attemptReconnect : method := fun s =>
  if (maxRetries s <=? retryCount s)%Z then s
  else
    let s := set_retryCount (retryCount s + 1) s in
    setTimeout (backoff s) s.

(** Lines 26-75: [connect()]; [throws] tells whether [new WebSocket] does. *)
Definition connect_method (throws : bool) : method := fun s =>
  if socket s && connected s then s
  else if throws then (_triggerEvent error ⨾ _attemptReconnect) s
  else set_socket true s.

(** Lines 99-106: [disconnect()]. *)
Definition disconnect_method : method := fun s =>
  if socket s && connected s
  then (set_socket false ⨾ set_connected false) s
  else s.

(** Lines 38-43, 57-62 and 65-68: the handlers of the socket. *)
Definition onopen : method :=
  set_connected true ⨾ set_retryCount 0 ⨾ _triggerEvent connect.

Definition onclose : method :=
  set_connected false ⨾ _triggerEvent disconnect ⨾ _attemptReconnect.

Definition onerror : method := _triggerEvent error.

(** What happens to the service: a call of a method, an event of a socket, or
    a timer that runs. *)
Inductive input : Type :=
  | CallConnect (throws : bool)
  | CallDisconnect
  | SocketOpen
  | SocketClose
  | SocketError
  | TimerFires (throws : bool).

#[global] Instance input_eq_dec : EqDecision input.
Proof. solve_decision. Defined.

Definition handle (s : TrackingService) (i : input) : TrackingService :=
  match i with
  | CallConnect throws => connect_method throws s
  | CallDisconnect => disconnect_method s
  | SocketOpen => onopen s
  | SocketClose => onclose s
  | SocketError => onerror s
  | TimerFires throws =>
      match pending s with
      | O => s
      | S n =>
          connect_method throws
            (Service (socket s) (connected s) (retryCount s) (maxRetries s)
                     (retryDelay s) (triggered s) (timeouts s) n)
      end
  end.

Definition run (s : TrackingService) (trace : list input) : TrackingService :=
  fold_left handle trace s.

(** The timers set while [trace] runs from [s]. *)
Definition scheduled (s : TrackingService) (trace : list input) : list Q :=
  drop (length (timeouts s)) (timeouts (run s trace)).

(** The delay of the [k]-th retry, [k] from 1: base delay x 1.5^(k-1). *)
Definition retry_delay (k : Z) : Q := 2000 * (3 # 2) ^ (k - 1).

(** What the constructor sets and the methods keep. *)
Definition configured (s : TrackingService) : Prop :=
  maxRetries s = 5%Z ∧ retryDelay s = 2000%Z ∧ (0 <= retryCount s <= 5)%Z.

(** Five closes in a row, each followed by the retry it set. *)
Definition five_failures : list input :=
  [CallConnect false;
   SocketClose; TimerFires false; SocketClose; TimerFires false;
   SocketClose; TimerFires false; SocketClose; TimerFires false;
   SocketClose].


End Tracking.

(** ** Further parts of the sources

    The modules below follow code the parts above call or are called by:
    the loops and the grid of the viewer, the information panel, the handlers
    of the test page for the messages of the tracking server, its PLY reader
    and the box of the scene, and the rest of the [TrackingService] class. *)

(** *** Loop counters *)

Module Loops.
Import JS.

(** The values of a loop counter that only grows: each at least [lo], and
    each above the one before. *)
Fixpoint ascending (lo : Z) (l : list Z) : Prop :=
  match l with
  | [] => True
  | j :: l' => (lo <= j)%Z ∧ ascending (j + 1) l'
  end.

(** The entries of [xs] at the places [l]. *)
Definition picks {A : Type} (xs : list A) (l : list Z) : list A :=
  omap (fun i => xs !! Z.to_nat i) l.

End Loops.

(** *** The voxel grid as a whole *)

Module Voxels.
Import JS Outline.

(** The points [voxelGrid] has counted: the sum of the [count] fields. *)
Definition pointsCounted (g : grid) : Z :=
  map_fold (fun _ v n => (count v + n)%Z) 0%Z (cells g).

(** [g] holds voxels of [cloud]: [Object.keys] lists each voxel once, and
    the point a voxel stores is a point of the cloud. *)
Definition voxels_of (cloud : list Sampler.vec3) (g : grid) : Prop :=
  NoDup (keys g)
  ∧ (∀ k, k ∈ keys g <-> is_Some (cells g !! k))
  ∧ (∀ k v, cells g !! k = Some v -> position v ∈ cloud).

End Voxels.

(** *** The nearest voxel of the stitch *)

Module Nearest.
Import JS Outline.



(** Three voxels on a line, the third between the other two and nearer to
    the first. *)
Definition row_sample : list voxel :=
  [ {| count := 1; x := 0; y := 0; z := 0 |};
    {| count := 1; x := 0.15; y := 0; z := 0 |};
    {| count := 1; x := 0.1; y := 0; z := 0 |} ]%float.

End Nearest.

(** *** The information panel ([getCurrentPersonCameraInfo]) *)

Module Panel.
Import JS Relations.

(** [x.toFixed(d)] for [d] digits: the string read as what it denotes, as
    for [toFixed3]. *)
Definition toFixed (d : Z) (x : float) : fixed :=
  match Prim2SF x with
  | S754_nan => FixNaN
  | S754_infinity s => FixInf s
  | S754_zero _ => FixDec false 0
  | S754_finite s m e =>
      if (0 <=? e)%Z then
        if (10 ^ 21 <=? Z.shiftl (Z.pos m) e)%Z then FixBig s m e
        else FixDec s (Z.shiftl (Z.pos m) e * 10 ^ d)
      else FixDec s ((2 * 10 ^ d * Z.pos m + 2 ^ (- e)) / 2 ^ (1 - e))
  end.

(** What the information panel shows of a relation. *)
Record Info : Type := {
  info_isVisible : bool;
  info_distance : fixed;
  info_qualityScore : fixed;
  info_shotType : ShotType
}.

Definition infoOf (r : Relation) : Info :=
  {| info_isVisible := isVisible r;
     info_distance := toFixed 2 (distance r);
     info_qualityScore := toFixed 0 (qualityScore r * 100)%float;
     info_shotType := shotType r |}.

(** Lines 1061-1084: [getCurrentPersonCameraInfo]; [None] is [null].  The
    state [cameraRelations] is an object from the start. *)
Definition getCurrentPersonCameraInfo (personsData : list Person)
    (cameraRelations : obj (obj Relation)) (activeCamera : string)
    : option Info :=
  match personsData with
  | [] => None
  | person :: _ =>
      if (length (Object_keys cameraRelations) =? 0)%nat then None
      else
        match obj_get cameraRelations (id person) with
        | None => None
        | Some relations =>
            if (length (Object_keys relations) =? 0)%nat then None
            else infoOf <$> obj_get relations activeCamera
        end
  end.

(** The order of two keys in [Object.keys]: an array index before a larger
    one and before any other key. *)
Definition index_le (a b : option N) : Prop :=
  match a, b with
  | Some n, Some m => (n <= m)%N
  | Some _, None => True
  | None, Some _ => False
  | None, None => True
  end.

(** The first key of an object is not behind any other. *)
Definition first_key_least {A : Type} (o : obj A) : Prop :=
  match o with
  | [] => True
  | (k0, _) :: _ => ∀ e, e ∈ o -> index_le (array_index k0) (array_index e.1)
  end.

(** Persons "2" and "1", in this order. *)
Definition person_two : Person :=
  {| id := "2"; personPosition := (0, 0, 0)%float;
     personDirection := (0, 0, 1)%float |}.

Definition person_one : Person :=
  {| id := "1"; personPosition := (1, 0, 0)%float;
     personDirection := (0, 0, 1)%float |}.

Definition numbered_persons : list Person := [person_two; person_one].

End Panel.

(** *** The commands of the tracking client ([sendCommand]) *)

Module Commands.
Import Relations Tracking.

Section Send.

(** The values of a command's parameters, and a string as such a value. *)
Variable value : Type.
Variable str : string -> value.

(** Lines 120-124: [{ type: 'command', command, ...params }]. *)
Definition commandMessage (command : string) (params : obj value) : obj value :=
  fold_left (fun message kv => obj_set message kv.1 kv.2) (Object_entries params)
            [("type"%string, str "command"); ("command"%string, str command)].

(** Lines 113-132: [sendCommand(command, params)]: what it returns, and the
    message the socket has taken, if any.  [throws] tells whether
    [JSON.stringify] or [socket.send] does. *)
Definition sendCommand (command : string) (params : obj value) (throws : bool)
    (s : TrackingService) : bool * option (obj value) :=
  if negb (socket s) || negb (connected s) then (false, None)
  else if throws then (false, None)
  else (true, Some (commandMessage command params)).

(** Lines 137-154 *)
Definition startTracking : bool -> TrackingService -> bool * option (obj value) :=
  sendCommand "start_tracking" [].

Definition stopTracking : bool -> TrackingService -> bool * option (obj value) :=
  sendCommand "stop_tracking" [].

Definition setActiveCamera (cameraId : value)
    : bool -> TrackingService -> bool * option (obj value) :=
  sendCommand "set_active_camera" [("camera_id"%string, cameraId)].

End Send.

(** A service whose connection is open, before any retry. *)
Definition open_service : TrackingService :=
  handle (handle constructor (CallConnect false)) SocketOpen.

End Commands.

(** *** The listeners of the tracking client ([on], [off], [_triggerEvent]) *)

Module Listeners.
Import Relations.

(** How a call ends: it returns, or it throws; the state is the one reached
    either way. *)
Inductive completion (S : Type) : Type :=
  | Normal (s : S)
  | Throw (s : S).
Arguments Normal {S} s.
Arguments Throw {S} s.

Section Events.

(** A listener is a function object, compared by identity ([cb !== callback]);
    [data] is what listeners are called with.  The listeners are the
    callers' and do not call back into the service. *)
Context {callback : Type} `{EqDecision callback}.
Variable data : Type.

(** Whether the call [callback(data)] throws. *)
Variable throws : callback -> data -> bool.

(** The names that are in every object through its prototype
    (["toString"], ["constructor"], ...): [name in this.eventListeners]
    holds for them, and [this.eventListeners[name]] is no array. *)
Variable inherited : string -> bool.

(** Lines 10-16: [this.eventListeners]. *)
Definition eventListeners : obj (list callback) :=
  [("persons"%string, []); ("cameras"%string, []); ("connect"%string, []);
   ("disconnect"%string, []); ("error"%string, [])].

(** Lines 179-188: [on(event, callback)]; with an unknown name it warns and
    changes nothing, with an inherited one [.push] is not a function. *)
Definition on (event : string) (cb : callback) (l : obj (list callback))
    : completion (obj (list callback)) :=
  match obj_get l event with
  | Some cbs => Normal (obj_set l event (cbs ++ [cb]))
  | None => if inherited event then Throw l else Normal l
  end.

(** Lines 195-200: [off(event, callback)]. *)
Definition off (event : string) (cb : callback) (l : obj (list callback))
    : completion (obj (list callback)) :=
  match obj_get l event with
  | Some cbs => Normal (obj_set l event (filter (fun c => c ≠ cb) cbs))
  | None => if inherited event then Throw l else Normal l
  end.

(** Line 187: the function [on] returns, [() => this.off(event, callback)]. *)
Definition unsubscribe (event : string) (cb : callback)
    : obj (list callback) -> completion (obj (list callback)) :=
  off event cb.

(** What a trigger does to the outside: the calls of listeners, oldest
    first, and the number of [console.error] calls. *)
Record log : Type := Log {
  calls : list (callback * data);
  errors : nat
}.

(** [callback(data)] *)
Definition call (d : data) (cb : callback) (lg : log) : completion log :=
  let lg' := Log (calls lg ++ [(cb, d)]) (errors lg) in
  if throws cb d then Throw lg' else Normal lg'.

(** [try { ... } catch (error) { console.error(...) }] *)
Definition try_catch (c : completion log) : completion log :=
  match c with
  | Normal lg => Normal lg
  | Throw lg => Normal (Log (calls lg) (S (errors lg)))
  end.

(** [Array.prototype.forEach]: a round that throws ends the loop. *)
Fixpoint forEach (body : callback -> log -> completion log)
    (cbs : list callback) (lg : log) : completion log :=
  match cbs with
  | [] => Normal lg
  | cb :: rest =>
      match body cb lg with
      | Normal lg' => forEach body rest lg'
      | Throw lg' => Throw lg'
      end
  end.

(** Lines 208-218: [_triggerEvent(event, data)]. *)
Definition _triggerEvent (event : string) (d : data) (l : obj (list callback))
    (lg : log) : completion log :=
  match obj_get l event with
  | Some cbs => forEach (fun cb lg => try_catch (call d cb lg)) cbs lg
  | None => if inherited event then Throw lg else Normal lg
  end.

End Events.

(** Listeners 1, 2 and 3, of which 2 throws on every call, for the
    examples. *)
Definition demo_throws (cb : nat) (d : string) : bool := (cb =? 2)%nat.

Definition demo_inherited (name : string) : bool :=
  bool_decide (name = "toString"%string).

Definition demo_listeners : obj (list nat) :=
  [("persons"%string, [1; 2; 1; 3]%nat); ("cameras"%string, []);
   ("connect"%string, [3]%nat); ("disconnect"%string, []); ("error"%string, [])].

End Listeners.

(** *** The messages of the tracking server ([onmessage], [_handleMessage]) *)

Module Messages.
Import JS Relations Tracking Listeners.

(** What [JSON.parse] returns, and [undefined]. *)
#[local] Unset Elimination Schemes.
Inductive value : Type :=
  | VUndefined
  | VNull
  | VBool (b : bool)
  | VNumber (x : float)
  | VString (s : string)
  | VArray (items : list value)
  | VObject (fields : list (string * value)).
#[local] Set Elimination Schemes.

(** [if (v)]: the values that count as true. *)
Definition truthy (v : value) : bool :=
  match v with
  | VUndefined | VNull => false
  | VBool b => b
  | VNumber x => negb (isNaN x || (x =? 0)%float)
  | VString s => negb (bool_decide (s = EmptyString))
  | VArray _ | VObject _ => true
  end.

(** [data.name] for the names the handler reads ([type], [cameras],
    [timestamp], [persons]), which no prototype provides: a field of an
    object, [undefined] on anything else that is not [null]. *)
Definition field (data : value) (name : string) : value :=
  match data with
  | VObject fields => default VUndefined (obj_get fields name)
  | _ => VUndefined
  end.

(** [v === s] for a string literal [s] *)
Definition is_string (v : value) (s : string) : bool :=
  match v with
  | VString t => bool_decide (t = s)
  | _ => false
  end.

(** Lines 161-172: [_handleMessage(data)], by the events it triggers; a
    property of [null] cannot be read. *)
Definition _handleMessage (data : value) : completion (list (event * value)) :=
  match data with
  | VUndefined | VNull => Throw []
  | _ =>
      if is_string (field data "type") "cameras_info"
      then Normal [(cameras, field data "cameras")]
      else if truthy (field data "timestamp") && truthy (field data "persons")
      then Normal [(persons,
                    VObject [("timestamp"%string, field data "timestamp");
                             ("persons"%string, field data "persons")])]
      else Normal []
  end.

(** The data of the error event of line 52, but for the error itself. *)
Definition parseFailure : value :=
  VObject [("message"%string, VString "解析消息失败")].

(** Lines 46-54: [onmessage]; [parsed] is what [JSON.parse(event.data)]
    returns, [None] when it throws. *)
Definition onmessage (parsed : option value) : list (event * value) :=
  match parsed with
  | None => [(error, parseFailure)]
  | Some data =>
      match _handleMessage data with
      | Normal events => events
      | Throw events => events ++ [(error, parseFailure)]
      end
  end.

(** A frame at time 0 with one person. *)
Definition first_frame : value :=
  VObject [("timestamp"%string, VNumber 0);
           ("persons"%string, VArray [VObject [("id"%string, VString "person_1")]])].

End Messages.

(** *** The histories of the persons ([handlePersons], the simulation) *)

Module History.
Import JS Relations.

Section Trajectories.

(** The time of an entry: [data.timestamp] of a message, or the clock of the
    simulation. *)
Variable stamp : Type.

(** [{ time, position: [...person.position] }] *)
Definition entry : Type := stamp * Vector3.

(** The arrays of the histories live in a store, a list of arrays, and are
    held by reference: [trajectoryHistory] maps the id of a person to the
    place of an array in the store.  The ids are taken not to be names that
    every object has through its prototype (["constructor"]), for which
    [updated[person.id]] is no array. *)
Definition history : Type := obj nat.

Definition read (st : list (list entry)) (a : nat) : list entry := default [] (st !! a).

(** A new array: [[]], or the result of [slice]. *)
Definition alloc (st : list (list entry)) (h : list entry) : nat * list (list entry) :=
  (length st, st ++ [h]).

(** [a.push(e)] changes the array where it is. *)
Definition push (st : list (list entry)) (a : nat) (e : entry) : list (list entry) :=
  <[a := read st a ++ [e]]> st.

(** [l.slice(-n)] *)
Definition slice_last {A : Type} (n : nat) (l : list A) : list A :=
  drop (length l - n) l.

(** Lines 792-804, and 980-988 of the simulation: the history of one person
    takes the position.  This is the update for an id that is not in
    [Object_prototype_names]: for one of those [updated[person.id]] is the
    inherited value and not an array, no array is made, and [push] throws. *)
Definition track (time : stamp) (acc : history * list (list entry)) (person : Person)
    : history * list (list entry) :=
  let created :=
    match obj_get acc.1 (id person) with
    | Some _ => acc
    | None => (obj_set acc.1 (id person) (alloc acc.2 []).1, (alloc acc.2 []).2)
    end in
  match obj_get created.1 (id person) with
  | None => created
  | Some a =>
      let st := push created.2 a (time, personPosition person) in
      if (100 <? length (read st a))%nat then
        (obj_set created.1 (id person) (alloc st (slice_last 100 (read st a))).1,
         (alloc st (slice_last 100 (read st a))).2)
      else (created.1, st)
  end.

(** Lines 788-808: the update of [handlePersons]; [{...prev}] copies the
    references, not the arrays. *)
Definition updateHistory (time : stamp) (persons : list Person)
    (prev : history) (st : list (list entry))
    : history * list (list entry) :=
  fold_left (track time) persons (prev, st).

(** Every array of [h] is in the store, and no two persons share one. *)
Definition separate (h : history) (st : list (list entry)) : Prop :=
  (∀ k a, obj_get h k = Some a -> (a < length st)%nat)
  ∧ (∀ k k' a, obj_get h k = Some a -> obj_get h k' = Some a -> k = k').

(** The history of [k] in [h], empty when there is none. *)
Definition historyOf (h : history) (st : list (list entry)) (k : string) : list entry :=
  match obj_get h k with
  | Some a => read st a
  | None => []
  end.

(** The entries a message adds for [k]. *)
Definition entriesFor (time : stamp) (persons : list Person) (k : string)
    : list entry :=
  (fun p => (time, personPosition p)) <$> filter (fun p => id p = k) persons.

End Trajectories.

(** A person with one entry, at time 0, in the array at place 0. *)
Definition demo_history : history := [("person_1"%string, 0%nat)].

Definition demo_store : list (list (entry Z)) := [[(0%Z, (0, 0, 0)%float)]].

Definition walker : Person :=
  {| id := "person_1"; personPosition := (0.1, 0, 0.05)%float;
     personDirection := (1, 0, 0)%float |}.

End History.

(** *** The order of the doubles *)

Module Doubles.

(** The place of a double that is not NaN in the order of the doubles: the
    sign, then the exponent, then the mantissa. *)
Definition rank (f : spec_float) : Z * Z * Z :=
  match f with
  | S754_nan => (0, 0, 0)
  | S754_zero _ => (0, 0, 0)
  | S754_infinity true => (-2, 0, 0)
  | S754_infinity false => (2, 0, 0)
  | S754_finite true m e => (-1, - e, Z.neg m)
  | S754_finite false m e => (1, e, Z.pos m)
  end%Z.

Definition rank_le (a b : Z * Z * Z) : Prop :=
  (a.1.1 < b.1.1
   ∨ (a.1.1 = b.1.1 ∧ (a.1.2 < b.1.2 ∨ (a.1.2 = b.1.2 ∧ a.2 <= b.2))))%Z.

End Doubles.

(** *** The box of the scene ([calculateSceneBounds]) *)

Module Bounds.
Import JS Sampler Relations.

(** [Math.max(a, b)] *)
Definition Math_max (a b : float) : float :=
  if isNaN a || isNaN b then nan
  else if (a <? b)%float then b
  else if (b <? a)%float then a
  else match Prim2SF a with
       | S754_zero true => b
       | _ => a
       end.

(** [{ min, max }] *)
Record bounds : Type := {
  min : vec3;
  max : vec3
}.

(** Lines 571-576: one point. *)
Definition extend (b : bounds) (p : vec3) : bounds :=
  {| min := (Math_min (min b).1.1 p.1.1, Math_min (min b).1.2 p.1.2,
             Math_min (min b).2 p.2);
     max := (Math_max (max b).1.1 p.1.1, Math_max (max b).1.2 p.1.2,
             Math_max (max b).2 p.2) |}.

(** Lines 565-579: [calculateSceneBounds(points)]; [None] is a missing
    array. *)
Definition calculateSceneBounds (points : option (list vec3)) : bounds :=
  match points with
  | None | Some [] => {| min := (-5, -5, -5)%float; max := (5, 5, 5)%float |}
  | Some pts =>
      fold_left extend pts
        {| min := (infinity, infinity, infinity);
           max := (neg_infinity, neg_infinity, neg_infinity) |}
  end.

(** No coordinate of the point is NaN. *)
Definition numeric (p : vec3) : Prop :=
  isNaN p.1.1 = false ∧ isNaN p.1.2 = false ∧ isNaN p.2 = false.

(** [b] holds the point: on each axis, [min <= p <= max]. *)
Definition holds (b : bounds) (p : vec3) : Prop :=
  ((min b).1.1 <=? p.1.1)%float = true ∧ (p.1.1 <=? (max b).1.1)%float = true
  ∧ ((min b).1.2 <=? p.1.2)%float = true ∧ (p.1.2 <=? (max b).1.2)%float = true
  ∧ ((min b).2 <=? p.2)%float = true ∧ (p.2 <=? (max b).2)%float = true.

(** Each face of the box passes through a point of [pts]. *)
Definition touches (b : bounds) (pts : list vec3) : Prop :=
  (∃ p, p ∈ pts ∧ (min b).1.1 = p.1.1) ∧ (∃ p, p ∈ pts ∧ (max b).1.1 = p.1.1)
  ∧ (∃ p, p ∈ pts ∧ (min b).1.2 = p.1.2) ∧ (∃ p, p ∈ pts ∧ (max b).1.2 = p.1.2)
  ∧ (∃ p, p ∈ pts ∧ (min b).2 = p.2) ∧ (∃ p, p ∈ pts ∧ (max b).2 = p.2).

End Bounds.

(** *** The cameras of a message ([handleCameras]) *)

Module Cameras.
Import JS Relations.

(** A camera of a [cameras_info] message. *)
Record CameraInfo : Type := {
  info_id : string;
  info_position : Vector3;
  info_direction : Vector3;
  info_fov : option float;
  is_active : bool
}.

(** [cam.fov || 60]: a missing, zero or NaN field of view gives 60. *)
Definition fovOr60 (fov : option float) : float :=
  match fov with
  | Some x => if isNaN x || (x =? 0)%float then 60%float else x
  | None => 60%float
  end.

(** Lines 751-759: the camera the page keeps, but for its [label], which
    takes [cam.name] and which no computation reads. *)
Definition cameraOfInfo (cam : CameraInfo) : Camera :=
  {| position := info_position cam;
     direction := info_direction cam;
     fov := fovOr60 (info_fov cam);
     aspectRatio := (16 / 9)%float;
     near := 0.1%float;
     far := 100%float |}.

Section Page.

(** What a scene holds beside its cameras. *)
Variable rest : Type.

Record Scene : Type := {
  scene_cameras : obj Camera;
  scene_rest : rest
}.

(** The state the handler writes. *)
Record viewer : Type := {
  sceneData : option Scene;
  activeCamera : string
}.

(** Lines 745-777: [handleCameras(cameras)].  [captured] is the [sceneData]
    the handler closed over when the effect ran; [None] is a missing array. *)
Definition handleCameras (captured : option Scene)
    (cameras : option (list CameraInfo)) (st : viewer) : viewer :=
  match cameras with
  | None | Some [] => st
  | Some ((first :: _) as cams) =>
      let camerasObj :=
        fold_left (fun o cam => obj_set o (info_id cam) (cameraOfInfo cam)) cams [] in
      {| sceneData :=
           match captured with
           | Some scene =>
               Some {| scene_cameras := camerasObj; scene_rest := scene_rest scene |}
           | None => sceneData st
           end;
         activeCamera :=
           match List.find is_active cams with
           | Some cam => info_id cam
           | None => info_id first
           end |}
  end.

End Page.

(** Two cameras, the second one active and without a field of view. *)
Definition demo_infos : list CameraInfo :=
  [ {| info_id := "0"; info_position := (0, 0, 5)%float;
       info_direction := (0, 0, -1)%float; info_fov := Some 45%float;
       is_active := false |};
    {| info_id := "1"; info_position := (5, 0, 0)%float;
       info_direction := (-1, 0, 0)%float; info_fov := None;
       is_active := true |} ].

End Cameras.

(** *** The PLY reader ([parsePLY]) *)

Module Ply.
Import JS Sampler.

(** [Math.min(a, b)] on integers *)
Definition Math_min (a b : xint) : xint :=
  match a, b with
  | XNaN, _ | _, XNaN => XNaN
  | XInf true, _ | _, XInf true => XInf true
  | XInf false, y => y
  | x, XInf false => x
  | XInt x, XInt y => XInt (Z.min x y)
  end.

(** [s.split(' ')]: the pieces between the spaces, empty ones too. *)
Fixpoint split_from (word : string) (s : string) : list string :=
  match s with
  | EmptyString => [word]
  | String c rest =>
      if decide (c = " "%char) then word :: split_from EmptyString rest
      else split_from (word ++ String c EmptyString)%string rest
  end.

Definition split (s : string) : list string := split_from EmptyString s.

Section Parse.

(** [String.prototype.trim], [parseInt] (of a string, or of [undefined]) and
    [Number] (of a string). *)
Variable trim : string -> string.
Variable parseInt : option string -> xint.
Variable Number : string -> float.

(** Lines 617-626: the scan of the header from line [i]; it gives
    [headerEnd] and [vertexCount]. *)
Fixpoint header (lines : list string) (i : Z) (vertexCount : xint) : Z * xint :=
  match lines with
  | [] => (0%Z, vertexCount)
  | l :: rest =>
      let line := trim l in
      if decide (line = "end_header"%string) then ((i + 1)%Z, vertexCount)
      else
        header rest (i + 1)
               (if String.prefix "element vertex" line
                then parseInt (split line !! 2%nat)
                else vertexCount)
  end.

(** Lines 634-635 *)
Definition maxPoints (vertexCount : xint) : xint := Math_min vertexCount (XInt 100000).

Definition skipStep (vertexCount : xint) : xint :=
  JS.Math_max (XInt 1)
    (Math_floor_q (div (of_xint vertexCount) (of_xint (maxPoints vertexCount)))).

(** Lines 642-646: the point and the colour of a line, when it has six
    numbers. *)
Definition vertex (line : string) : option (vec3 * vec3) :=
  let values := Number <$> split (trim line) in
  if (6 <=? length values)%nat then
    Some ((nth 0 values nan, nth 1 values nan, nth 2 values nan),
          (nth 3 values nan / 255, nth 4 values nan / 255,
           nth 5 values nan / 255)%float)
  else None.

(** Lines 638-647: one round of the loop. *)
Definition read_vertex (lines : list string) (headerEnd : Z) (step : xint)
    (acc : list vec3 * list vec3) (i : Z) : list vec3 * list vec3 :=
  if negb (rem_is_zero i step) then acc
  else
    let lineIdx := (headerEnd + i)%Z in
    if (lineIdx <? Z.of_nat (length lines))%Z then
      match lines !! Z.to_nat lineIdx with
      | Some line =>
          match vertex line with
          | Some (p, c) => (acc.1 ++ [p], acc.2 ++ [c])
          | None => acc
          end
      | None => acc
      end
    else acc.

(** Lines 611-652: [parsePLY], on the lines [plyText.split('\n')] gives;
    [None] when the loop has no end, the vertex count being [Infinity]. *)
Definition parsePLY (lines : list string) : option (list vec3 * list vec3) :=
  let '(headerEnd, vertexCount) := header lines 0 (XInt 0) in
  let step := skipStep vertexCount in
  match vertexCount with
  | XInt n => Some (fold_left (read_vertex lines headerEnd step) (seqZ 0 n) ([], []))
  | XInf false => None
  | XInf true | XNaN => Some ([], [])
  end.

End Parse.

(** Stand-ins for the library, for the examples: they read a numeral of
    decimal digits, which is all the files of the examples hold. *)
Fixpoint decimal (acc : Z) (s : string) : option Z :=
  match s with
  | EmptyString => Some acc
  | String c rest =>
      let d := (Z.of_nat (nat_of_ascii c) - 48)%Z in
      if ((0 <=? d) && (d <=? 9))%Z then decimal (10 * acc + d) rest else None
  end.

Definition demo_trim (s : string) : string := s.

Definition demo_parseInt (s : option string) : xint :=
  match s with
  | Some (String c rest) =>
      match decimal 0 (String c rest) with
      | Some n => XInt n
      | None => XNaN
      end
  | _ => XNaN
  end.

Definition demo_Number (s : string) : float :=
  match decimal 0 s with
  | Some n => PrimFloat.of_uint63 (Uint63.of_Z n)
  | None => nan
  end.

(** A file of 100001 vertices, each line with six numbers. *)
Definition demo_ply : list string :=
  ["element vertex 100001"%string; "end_header"%string]
    ++ replicate (Z.to_nat 100001) "0 0 0 0 0 0"%string.

(** A file of two vertices, of which the second line is short. *)
Definition small_ply : list string :=
  ["ply"%string; "element vertex 2"%string; "end_header"%string;
   "1 2 3 255 0 0"%string; "4 5 6"%string].

End Ply.

(** * Proofs *)

(** ** Facts on JavaScript numbers *)

Module JSFacts.
Import JS.

Lemma Qlt_bool_iff (a b : Q) : Qlt_bool a b = true <-> (a < b)%Q.
Proof.
  unfold Qlt_bool. rewrite negb_true_iff, <- not_true_iff_false, Qle_bool_iff.
  split; [apply Qnot_le_lt | apply Qlt_not_le].
Qed.

Lemma Qlt_bool_inject_Z (a b : Z) :
  Qlt_bool (inject_Z a) (inject_Z b) = (a <? b)%Z.
Proof.
  apply eq_true_iff_eq. rewrite Qlt_bool_iff, Z.ltb_lt, <- Zlt_Qlt. done.
Qed.

Lemma Qis_zero_inject_Z (a : Z) : Qis_zero (inject_Z a) = (a =? 0)%Z.
Proof.
  apply eq_true_iff_eq. unfold Qis_zero. rewrite Qeq_bool_iff, Z.eqb_eq.
  change 0%Q with (inject_Z 0). apply inject_Z_injective.
Qed.

(** The ceiling of a quotient of integers, in integer arithmetic. *)
Lemma Qceiling_div (a b : Z) :
  Qceiling (inject_Z a / inject_Z b) = (- ((- a) / b))%Z.
Proof.
  unfold Qceiling. f_equal. rewrite Zdiv_Qdiv. apply Qfloor_comp.
  rewrite inject_Z_opp. unfold Qdiv. ring.
Qed.

Lemma ceil_div_bounds (a b : Z) :
  (0 < b)%Z -> (a <= b * - ((- a) / b) < a + b)%Z.
Proof.
  intros Hb. pose proof (Z.div_mod (- a) b ltac:(lia)) as Hd.
  pose proof (Z.mod_pos_bound (- a) b Hb). nia.
Qed.

Lemma div_Fin (p q : Q) :
  Qis_zero q = false -> div (Fin p) (Fin q) = Fin (p / q).
Proof. intros H. unfold div. rewrite H. done. Qed.

Lemma div_Fin_Z (p : Q) (m : Z) :
  (m <> 0)%Z -> div (Fin p) (Fin (inject_Z m)) = Fin (p / inject_Z m).
Proof.
  intros Hm. apply div_Fin. rewrite Qis_zero_inject_Z. by apply Z.eqb_neq.
Qed.

Lemma Qlt_div3 (q p : Q) : (q < p / 3)%Q <-> (3 * q < p)%Q.
Proof.
  split; intros H.
  - apply (Qmult_lt_l _ _ 3) in H; [| reflexivity].
    rewrite Qmult_div_r in H by discriminate. exact H.
  - apply Qlt_shift_div_l; [reflexivity |]. by rewrite Qmult_comm.
Qed.

(** [n / 3 > m] and [Math.ceil(n / 3 / m)] for a length [n] and a cap [m] *)
Lemma third_gt (n m : Z) :
  gt (div (Fin (inject_Z n)) (Fin 3)) (Fin (inject_Z m)) = (3 * m <? n)%Z.
Proof.
  rewrite div_Fin by done. cbn [gt].
  apply eq_true_iff_eq.
  rewrite Qlt_bool_iff, Z.ltb_lt, Qlt_div3, (Zlt_Qlt (3 * m) n), inject_Z_mult.
  done.
Qed.

Lemma third_ceil (n m : Z) :
  (m <> 0)%Z ->
  Math_ceil (div (div (Fin (inject_Z n)) (Fin 3)) (Fin (inject_Z m)))
  = XInt (- ((- n) / (3 * m)))%Z.
Proof.
  intros Hm. rewrite div_Fin, div_Fin_Z by done. cbn [Math_ceil]. f_equal.
  rewrite <- Qceiling_div. apply Qceiling_comp.
  rewrite inject_Z_mult. change (inject_Z 3) with 3%Q.
  field. change 0%Q with (inject_Z 0). rewrite inject_Z_injective. done.
Qed.

(** *** Loops with a step *)

Lemma rounds_step (n z i : Z) :
  (1 <= z)%Z -> (i < n)%Z -> rounds n z i = (1 + rounds n z (i + z))%Z.
Proof.
  intros Hz Hi. unfold rounds.
  destruct (Z.ltb_spec i n); [| lia].
  destruct (Z.ltb_spec (i + z) n).
  - replace (n - i + z - 1)%Z with (n - (i + z) + z - 1 + 1 * z)%Z by lia.
    rewrite Z.div_add by lia. lia.
  - rewrite Z.add_0_r. symmetry.
    apply Z.div_unique with (r := (n - i - 1)%Z); lia.
Qed.

Lemma rounds_nonneg (n z i : Z) : (1 <= z)%Z -> (0 <= rounds n z i)%Z.
Proof.
  intros Hz. unfold rounds. destruct (Z.ltb_spec i n); [| lia].
  apply Z.div_pos; lia.
Qed.

Lemma rounds_done (n z i : Z) : (n <= i)%Z -> rounds n z i = 0%Z.
Proof. intros H. unfold rounds. destruct (Z.ltb_spec i n); lia. Qed.

Lemma strided_nil (i z : Z) : strided i z 0 = [].
Proof. done. Qed.

Lemma strided_cons (i z r : Z) :
  (0 <= r)%Z -> strided i z (1 + r) = i :: strided (i + z) z r.
Proof.
  intros Hr. unfold strided. rewrite seqZ_cons by lia. cbn [fmap list_fmap].
  f_equal; [lia |].
  replace (Z.pred (1 + r)) with r by lia.
  change (Z.succ 0) with (1 + 0)%Z.
  rewrite <- (fmap_add_seqZ 1 0 r), <- list_fmap_compose.
  apply list_fmap_ext. intros _ j _. cbn. lia.
Qed.

Lemma length_strided (i z r : Z) : length (strided i z r) = Z.to_nat r.
Proof. unfold strided. by rewrite length_fmap, length_seqZ. Qed.

Lemma strided_bounds (n z i j : Z) :
  (1 <= z)%Z -> j ∈ strided i z (rounds n z i) -> (i <= j < n)%Z.
Proof.
  intros Hz. unfold strided. rewrite list_elem_of_fmap.
  intros (t & -> & Ht). apply elem_of_seqZ in Ht.
  unfold rounds in Ht. destruct (Z.ltb_spec i n); [| lia].
  assert (z * ((n - i + z - 1) / z) <= n - i + z - 1)%Z
    by (apply Z.mul_div_le; lia).
  nia.
Qed.

(** A loop with a positive step runs its rounds and ends. *)
Lemma for_by_strided {A : Type} (body : A -> Z -> A) (n z : Z) :
  (1 <= z)%Z ->
  ∀ (fuel : nat) (i : Z) (acc : A),
    (n - i < Z.of_nat fuel)%Z ->
    for_by fuel n (XInt z) i body acc
    = Some (fold_left body (strided i z (rounds n z i)) acc).
Proof.
  intros Hz fuel. induction fuel as [|fuel IH]; intros i acc Hfuel.
  - cbn. destruct (Z.ltb_spec i n); [lia |]. by rewrite rounds_done.
  - cbn [for_by]. destruct (Z.ltb_spec i n) as [Hlt|Hge].
    + rewrite IH by lia. rewrite (rounds_step n z i) by done.
      rewrite strided_cons by (by apply rounds_nonneg). done.
    + by rewrite rounds_done.
Qed.

(** A loop whose step is zero or negative does not end once it is entered. *)
Lemma for_by_diverges {A : Type} (body : A -> Z -> A) (n z : Z) :
  (z <= 0)%Z ->
  ∀ (fuel : nat) (i : Z) (acc : A),
    (i < n)%Z -> for_by fuel n (XInt z) i body acc = None.
Proof.
  intros Hz fuel. induction fuel as [|fuel IH]; intros i acc Hi; cbn [for_by];
    destruct (Z.ltb_spec i n); try lia; [done |].
  apply IH. lia.
Qed.

End JSFacts.
(** ** The order of the doubles *)

Module DoublesFacts.
Import JS Doubles.

Local Ltac rank_case :=
  eexists; split; [reflexivity |]; split; split; intros; try done; lia.

Lemma SFcompare_rank (f g : spec_float) :
  f ≠ S754_nan -> g ≠ S754_nan ->
  ∃ c, SFcompare f g = Some c
       ∧ (c ≠ Gt <-> rank_le (rank f) (rank g))
       ∧ (c ≠ Lt <-> rank_le (rank g) (rank f)).
Proof.
  intros Hf Hg. unfold rank_le.
  destruct f as [s1|s1| |s1 m1 e1], g as [s2|s2| |s2 m2 e2]; try done;
    try destruct s1; try destruct s2; cbn; try rank_case.
  - destruct (Z.compare_spec e1 e2) as [->|Hlt|Hgt]; [| rank_case | rank_case].
    rewrite Pos.compare_cont_spec. cbn [Pos.switch_Eq].
    destruct (Pos.compare_spec m1 m2) as [->|Hm|Hm]; cbn; rank_case.
  - destruct (Z.compare_spec e1 e2) as [->|Hlt|Hgt]; [| rank_case | rank_case].
    rewrite Pos.compare_cont_spec. cbn [Pos.switch_Eq].
    destruct (Pos.compare_spec m1 m2) as [->|Hm|Hm]; cbn; rank_case.
Qed.

Lemma isNaN_rank (x : float) : isNaN x = false -> Prim2SF x ≠ S754_nan.
Proof. unfold isNaN. by destruct (Prim2SF x). Qed.

Lemma leb_rank (x y : float) :
  isNaN x = false -> isNaN y = false ->
  (x <=? y)%float = true <-> rank_le (rank (Prim2SF x)) (rank (Prim2SF y)).
Proof.
  intros Hx%isNaN_rank Hy%isNaN_rank. rewrite FloatAxioms.leb_spec. unfold SFleb.
  destruct (SFcompare_rank _ _ Hx Hy) as (c & -> & Hc & _). rewrite <- Hc.
  destruct c; done.
Qed.

Lemma ltb_rank (x y : float) :
  isNaN x = false -> isNaN y = false ->
  (x <? y)%float = false <-> rank_le (rank (Prim2SF y)) (rank (Prim2SF x)).
Proof.
  intros Hx%isNaN_rank Hy%isNaN_rank. rewrite FloatAxioms.ltb_spec. unfold SFltb.
  destruct (SFcompare_rank _ _ Hx Hy) as (c & -> & _ & Hc). rewrite <- Hc.
  destruct c; done.
Qed.

Lemma rank_le_total (a b : Z * Z * Z) : rank_le a b ∨ rank_le b a.
Proof. unfold rank_le. lia. Qed.

Lemma rank_le_trans (a b c : Z * Z * Z) : rank_le a b -> rank_le b c -> rank_le a c.
Proof. unfold rank_le. lia. Qed.

Lemma rank_le_refl (a : Z * Z * Z) : rank_le a a.
Proof. unfold rank_le. lia. Qed.

(** A comparison with NaN is false. *)
Lemma ltb_numbers (x y : float) :
  (x <? y)%float = true -> isNaN x = false ∧ isNaN y = false.
Proof.
  rewrite FloatAxioms.ltb_spec. unfold SFltb, isNaN.
  destruct (Prim2SF x) as [| | |[] ? ?], (Prim2SF y) as [| | |[] ? ?]; try done.
Qed.

Lemma ltb_nan_l (x y : float) : isNaN x = true -> (x <? y)%float = false.
Proof.
  intros Hx. destruct (x <? y)%float eqn:H; [| done].
  apply ltb_numbers in H as [H _]. congruence.
Qed.

Lemma ltb_nan_r (x y : float) : isNaN y = true -> (x <? y)%float = false.
Proof.
  intros Hy. destruct (x <? y)%float eqn:H; [| done].
  apply ltb_numbers in H as [_ H]. congruence.
Qed.

(** [<] on doubles is transitive. *)
Lemma ltb_trans (x y z : float) :
  (x <? y)%float = true -> (y <? z)%float = true -> (x <? z)%float = true.
Proof.
  intros Hxy Hyz.
  destruct (ltb_numbers _ _ Hxy) as [Hx Hy], (ltb_numbers _ _ Hyz) as [_ Hz].
  apply not_false_iff_true. apply not_false_iff_true in Hxy, Hyz.
  rewrite ltb_rank in * by done. unfold rank_le in *. lia.
Qed.

End DoublesFacts.

(** ** The sign of a difference of doubles *)

Module SubFacts.
Import JS.

Local Open Scope Z_scope.

(** The digits of a mantissa. *)
Lemma digits2_pos_bounds (m : positive) :
  2 ^ (Z.pos (digits2_pos m) - 1) <= Z.pos m < 2 ^ Z.pos (digits2_pos m).
Proof.
  induction m as [m IH|m IH|]; cbn [digits2_pos].
  - rewrite Pos2Z.inj_succ. replace (Z.succ (Z.pos (digits2_pos m)) - 1)
      with (Z.succ (Z.pos (digits2_pos m) - 1)) by lia.
    rewrite !Z.pow_succ_r by lia. lia.
  - rewrite Pos2Z.inj_succ. replace (Z.succ (Z.pos (digits2_pos m)) - 1)
      with (Z.succ (Z.pos (digits2_pos m) - 1)) by lia.
    rewrite !Z.pow_succ_r by lia. lia.
  - cbn. lia.
Qed.

(** A shift to the right halves the mantissa. *)
Lemma shr_1_m (mrs : shr_record) :
  0 <= shr_m mrs -> shr_m (shr_1 mrs) = shr_m mrs / 2.
Proof.
  destruct mrs as [m r s]. cbn [shr_m shr_1]. intros Hm.
  destruct m as [|[p|p|]|p]; cbn [shr_m]; try lia;
    Z.to_euclidean_division_equations; lia.
Qed.

Lemma iter_shr_1_m (p : positive) :
  ∀ mrs, 0 <= shr_m mrs ->
         shr_m (SpecFloat.iter_pos shr_1 p mrs) = shr_m mrs / 2 ^ Z.pos p.
Proof.
  induction p as [p IH|p IH|]; intros mrs Hm; cbn [SpecFloat.iter_pos].
  - assert (H1 : 0 <= shr_m (shr_1 mrs))
      by (rewrite shr_1_m by done; apply Z.div_pos; lia).
    assert (H2 : 0 <= shr_m (SpecFloat.iter_pos shr_1 p (shr_1 mrs)))
      by (rewrite IH by done; apply Z.div_pos; lia).
    rewrite IH, IH, shr_1_m by done.
    rewrite !Z.div_div by lia. f_equal.
    assert (2 ^ Z.pos p~1 = 2 * 2 ^ Z.pos p * 2 ^ Z.pos p) as ->; [| lia].
    rewrite <- Z.pow_succ_r, <- Z.pow_add_r by lia. f_equal. lia.
  - assert (H2 : 0 <= shr_m (SpecFloat.iter_pos shr_1 p mrs))
      by (rewrite IH by done; apply Z.div_pos; lia).
    rewrite IH, IH by done.
    rewrite !Z.div_div by lia. f_equal.
    rewrite <- Z.pow_add_r by lia. f_equal. lia.
  - by rewrite shr_1_m.
Qed.

Lemma shr_record_of_loc_m (m : Z) (l : location) : shr_m (shr_record_of_loc m l) = m.
Proof. by destruct l as [|[]]. Qed.

(** A positive mantissa stays positive through the shift that brings it to
    the precision: fewer bits go than it has. *)
Lemma shr_fexp_pos (m e : Z) (l : location) :
  0 < m -> -1074 <= e ->
  0 < shr_m (shr_fexp prec emax m e l).1 ∧ -1074 <= (shr_fexp prec emax m e l).2.
Proof.
  intros Hm He. unfold shr_fexp, shr.
  destruct m as [|p|p]; [lia | | lia]. cbn [Zdigits2].
  pose proof (digits2_pos_bounds p) as [Hlo Hhi].
  set (d := Z.pos (digits2_pos p)) in *.
  destruct (fexp prec emax (d + e) - e) as [|n|n] eqn:Hn; cbn [fst snd].
  - by rewrite shr_record_of_loc_m.
  - rewrite iter_shr_1_m by (rewrite shr_record_of_loc_m; lia).
    rewrite shr_record_of_loc_m.
    unfold fexp, SpecFloat.emin, prec, emax in *.
    assert (Hd : Z.pos n = d - 53) by lia.
    split; [| lia].
    apply Z.div_str_pos. split; [apply Z.pow_pos_nonneg; lia |].
    etrans; [| exact Hlo]. apply Z.pow_le_mono_r; lia.
  - by rewrite shr_record_of_loc_m.
Qed.

Lemma round_nearest_even_ge (m : Z) (l : location) : m <= round_nearest_even m l.
Proof. destruct l as [|[]]; cbn; try lia. destruct (Z.even m); lia. Qed.

(** The shape of a rounded number: its sign is the one given. *)
Lemma binary_round_aux_sign (sx : bool) (mx ex : Z) (lx : location) :
  match binary_round_aux prec emax sx mx ex lx with
  | S754_zero s | S754_infinity s | S754_finite s _ _ => s = sx
  | S754_nan => True
  end.
Proof.
  unfold binary_round_aux.
  destruct (shr_fexp prec emax mx ex lx) as [mrs' e'].
  destruct (shr_fexp prec emax _ e' loc_Exact) as [mrs'' e''].
  destruct (shr_m mrs''); [done | | done]. by destruct (_ <=? _).
Qed.

(** A positive number does not round to zero. *)
Lemma binary_round_aux_pos (sx : bool) (mx ex : Z) (lx : location) :
  0 < mx -> -1074 <= ex ->
  match binary_round_aux prec emax sx mx ex lx with
  | S754_infinity s | S754_finite s _ _ => s = sx
  | _ => False
  end.
Proof.
  intros Hm He. unfold binary_round_aux.
  pose proof (shr_fexp_pos mx ex lx Hm He) as [H1 H1e].
  destruct (shr_fexp prec emax mx ex lx) as [mrs' e']. cbn [fst snd] in *.
  pose proof (round_nearest_even_ge (shr_m mrs') (loc_of_shr_record mrs')) as Hr.
  pose proof (shr_fexp_pos (round_nearest_even (shr_m mrs') (loc_of_shr_record mrs'))
                e' loc_Exact ltac:(lia) H1e) as [H2 _].
  destruct (shr_fexp prec emax _ e' loc_Exact) as [mrs'' e'']. cbn [fst] in *.
  destruct (shr_m mrs''); [lia | | lia]. by destruct (_ <=? _).
Qed.

Lemma binary_round_pos (sx : bool) (m : positive) (e : Z) :
  -1074 <= e ->
  match binary_round prec emax sx m e with
  | S754_infinity s | S754_finite s _ _ => s = sx
  | _ => False
  end.
Proof.
  intros He. unfold binary_round.
  destruct (shl_align m e _) as [mz ez] eqn:Hshl.
  apply binary_round_aux_pos; [lia |].
  unfold shl_align in Hshl.
  destruct (_ - e) eqn:Hd; injection Hshl as <- <-; try lia.
  unfold fexp, SpecFloat.emin, prec, emax in *. lia.
Qed.

Lemma binary_round_sign (sx : bool) (m : positive) (e : Z) :
  match binary_round prec emax sx m e with
  | S754_zero s | S754_infinity s | S754_finite s _ _ => s = sx
  | S754_nan => True
  end.
Proof.
  unfold binary_round. destruct (shl_align m e _) as [mz ez].
  apply binary_round_aux_sign.
Qed.

Lemma binary_normalize_positive (m e : Z) :
  -1074 <= e ->
  SFltb (S754_zero false) (binary_normalize prec emax m e false) = (0 <? m).
Proof.
  intros He. unfold binary_normalize. destruct m as [|p|p].
  - done.
  - pose proof (binary_round_pos false p e He) as H.
    destruct (binary_round prec emax false p e) as [| s | | s m' e']; try done;
      by subst s.
  - pose proof (binary_round_sign true p e) as H.
    destruct (binary_round prec emax true p e) as [s | s | | s m' e']; try done;
      by subst s.
Qed.

(** The mantissas of two numbers brought to the smaller exponent compare as
    the numbers do. *)
Lemma shl_align_value (m : positive) (e ez : Z) :
  ez <= e -> Z.pos (shl_align m e ez).1 = Z.pos m * 2 ^ (e - ez).
Proof.
  intros He. unfold shl_align. destruct (ez - e) as [|d|d] eqn:Hd; cbn [fst].
  - replace (e - ez) with 0 by lia. cbn. lia.
  - lia.
  - replace (e - ez) with (Z.pos d) by lia.
    clear. induction d as [|d IH] using Pos.peano_ind.
    + cbn. lia.
    + rewrite Pos.iter_succ, Pos2Z.inj_xO, IH, Pos2Z.inj_succ, Z.pow_succ_r by lia.
      lia.
Qed.

Lemma canonical_digits (m : positive) (e : Z) :
  bounded prec emax m e = true ->
  -1074 <= e ∧ Z.pos (digits2_pos m) <= 53 ∧ (-1074 < e -> Z.pos (digits2_pos m) = 53).
Proof.
  unfold bounded, canonical_mantissa, fexp, SpecFloat.emin, prec, emax.
  intros [Hc _]%andb_true_iff. apply Z.eqb_eq in Hc. lia.
Qed.

Lemma aligned_compare (mx my : positive) (ex ey : Z) :
  bounded prec emax mx ex = true -> bounded prec emax my ey = true ->
  (Z.pos (shl_align mx ex (Z.min ex ey)).1 ?= Z.pos (shl_align my ey (Z.min ex ey)).1)
  = match ex ?= ey with
    | Lt => Lt
    | Gt => Gt
    | Eq => Pos.compare_cont Eq mx my
    end.
Proof.
  intros Hx%canonical_digits Hy%canonical_digits.
  destruct Hx as (Hex & Hdx & Hnx), Hy as (Hey & Hdy & Hny).
  rewrite !shl_align_value by lia.
  pose proof (digits2_pos_bounds mx) as [Hxlo Hxhi].
  pose proof (digits2_pos_bounds my) as [Hylo Hyhi].
  assert (Hpow : ∀ d, d <= 53 -> 2 ^ d <= 2 ^ 53)
    by (intros; apply Z.pow_le_mono_r; lia).
  destruct (Z.compare_spec ex ey) as [->|Hlt|Hgt].
  - rewrite Z.min_id, Z.sub_diag. cbn [Z.pow]. rewrite !Z.mul_1_r.
    rewrite Pos.compare_cont_spec. cbn. by destruct (mx ?= my)%positive.
  - rewrite Z.min_l by lia. rewrite Z.sub_diag. cbn [Z.pow]. rewrite Z.mul_1_r.
    apply Z.compare_lt_iff.
    rewrite (Hny ltac:(lia)) in Hylo. cbn in Hylo.
    assert (2 <= 2 ^ (ey - ex)) by (change 2 with (2 ^ 1) at 1; apply Z.pow_le_mono_r; lia).
    specialize (Hpow _ Hdx). nia.
  - rewrite Z.min_r by lia. rewrite Z.sub_diag. cbn [Z.pow]. rewrite Z.mul_1_r.
    apply Z.compare_gt_iff.
    rewrite (Hnx ltac:(lia)) in Hxlo. cbn in Hxlo.
    assert (2 <= 2 ^ (ex - ey)) by (change 2 with (2 ^ 1) at 1; apply Z.pow_le_mono_r; lia).
    specialize (Hpow _ Hdy). nia.
Qed.

(** The sign of a difference of two finite numbers. *)
Lemma SFsub_positive (x y : spec_float) :
  valid_binary prec emax x = true -> valid_binary prec emax y = true ->
  match x, y with
  | S754_nan, _ | _, S754_nan => True
  | _, _ => SFltb (S754_zero false) (SFsub prec emax y x) = SFltb x y
  end.
Proof.
  intros Hx Hy.
  destruct x as [sx|sx| |sx mx ex], y as [sy|sy| |sy my ey]; try done;
    try (destruct sx; reflexivity); try (destruct sy; reflexivity);
    try (destruct sx, sy; reflexivity).
  - cbn [SFsub valid_binary] in *.
    pose proof (canonical_digits _ _ Hx) as (Hex & _ & _).
    pose proof (canonical_digits _ _ Hy) as (Hey & _ & _).
    rewrite binary_normalize_positive by lia.
    pose proof (aligned_compare mx my ex ey Hx Hy) as Hcmp.
    rewrite (Z.min_comm ey ex).
    set (dx := Z.pos (shl_align mx ex (Z.min ex ey)).1) in *.
    set (dy := Z.pos (shl_align my ey (Z.min ex ey)).1) in *.
    assert (0 < dx) by (unfold dx; lia). assert (0 < dy) by (unfold dy; lia).
    assert (Hord :
      match (match ex ?= ey with
             | Lt => Lt
             | Gt => Gt
             | Eq => Pos.compare_cont Eq mx my
             end) with
      | Lt => dx < dy
      | Eq => dx = dy
      | Gt => dy < dx
      end).
    { rewrite <- Hcmp. destruct (Z.compare_spec dx dy); lia. }
    clear Hcmp. unfold SFltb, SFcompare. revert Hord.
    destruct (ex ?= ey), (Pos.compare_cont Eq mx my), sx, sy;
      cbn [cond_Zopp CompOpp]; intros Hord;
      (apply Z.ltb_lt || apply Z.ltb_nlt); lia.
Qed.

Local Close Scope Z_scope.

(** For doubles that are not NaN, [y - x > 0] exactly when [x < y]: a
    difference of two numbers does not round to zero. *)
Lemma sub_positive (x y : float) :
  isNaN x = false -> isNaN y = false ->
  (0 <? y - x)%float = (x <? y)%float.
Proof.
  unfold isNaN. intros Hx Hy.
  rewrite !FloatAxioms.ltb_spec, FloatAxioms.sub_spec.
  pose proof (SFsub_positive (Prim2SF x) (Prim2SF y)
                (FloatAxioms.Prim2SF_valid x) (FloatAxioms.Prim2SF_valid y)) as H.
  change (Prim2SF 0) with (S754_zero false).
  destruct (Prim2SF x) as [| | |], (Prim2SF y) as [| | |]; done.
Qed.

End SubFacts.

(** ** The tests on doubles, by comparison *)

Module TestFacts.
Import JS.

Lemma SFcompare_refl (f : spec_float) :
  f ≠ S754_nan -> SFcompare f f = Some Eq.
Proof.
  destruct f as [s|s| |s m e]; try done; try (by destruct s).
  intros _. cbn [SFcompare]. rewrite Z.compare_refl, Pos.compare_cont_refl.
  by destruct s.
Qed.

(** [x == x] fails for NaN only. *)
Lemma isNaN_eqb (x : float) : isNaN x = negb (x =? x)%float.
Proof.
  rewrite FloatAxioms.eqb_spec. unfold isNaN, SFeqb.
  destruct (Prim2SF x) as [s|s| |s m e] eqn:E; try done; try (by destruct s).
  by rewrite SFcompare_refl.
Qed.




(** [Math.fround] at work: a number that binary32 holds, one that it
    rounds, the largest binary32 number and the first double that rounds to
    [Infinity], the smallest one and the last double that rounds to 0, and
    the values that are not finite numbers. *)
Lemma Math_fround_examples :
  Math_fround 0.5 = 0.5%float
  ∧ Math_fround 0.1 = 0.10000000149011612%float
  ∧ Math_fround (-0.3) = (-0.30000001192092896)%float
  ∧ Math_fround 16777217 = 16777216%float
  ∧ Math_fround 3.4028234663852886e38 = 3.4028234663852886e38%float
  ∧ Math_fround 3.4028235677973366e38 = infinity
  ∧ Math_fround 1.401298464324817e-45 = 1.401298464324817e-45%float
  ∧ Math_fround 7.006492321624085e-46 = 0%float
  ∧ Math_fround infinity = infinity
  ∧ isNaN (Math_fround nan) = true.
Proof. by vm_compute. Qed.

(** The sum of an integer-valued double and 1 or -1, around 2^53. *)
Lemma to_double_examples :
  to_double (41 + 1) = 42%Z
  ∧ to_double (2 ^ 53 - 1 + 1) = (2 ^ 53)%Z
  ∧ to_double (2 ^ 53 + 1) = (2 ^ 53)%Z
  ∧ to_double (2 ^ 53 + 2 + 1) = (2 ^ 53 + 4)%Z
  ∧ to_double (2 ^ 53 + 2 - 1) = (2 ^ 53)%Z
  ∧ to_double (2 ^ 54 + 1) = (2 ^ 54)%Z
  ∧ to_double (- 2 ^ 53 - 1) = (- 2 ^ 53)%Z
  ∧ to_double (- (2 ^ 53 + 2) - 1) = (- (2 ^ 53 + 4))%Z.
Proof. by vm_compute. Qed.

End TestFacts.


(** ** The sampler *)

Module SamplerFacts.
Import JS JSFacts Sampler.

Lemma thirds_nonneg (a : list float) : (0 <= thirds a)%Z.
Proof. unfold thirds. apply Z.div_pos; lia. Qed.

(** *** The first pass only ever appends whole points *)

Lemma keep_points points colors st idx :
  sampledPointsArray (keep points colors st idx)
  = sampledPointsArray st
      ++ [get points idx; get points (idx + 1)%Z; get points (idx + 2)%Z].
Proof.
  unfold keep. by destruct colors as [cs|]; [destruct (_ <=? _)%nat |].
Qed.

Lemma pass1_body_points points colors interval st i :
  sampledPointsArray (pass1_body points colors interval st i) = sampledPointsArray st
  ∨ ∃ a b c, sampledPointsArray (pass1_body points colors interval st i)
             = sampledPointsArray st ++ [a; b; c].
Proof.
  unfold pass1_body.
  destruct (_ <? _)%Z; [| by left].
  destruct (_ || _); [| by left].
  right. rewrite keep_points. eauto.
Qed.

Lemma first_pass_whole points colors interval (l : list Z) st :
  ∃ k : nat,
    length (sampledPointsArray (fold_left (pass1_body points colors interval) l st))
    = (length (sampledPointsArray st) + 3 * k)%nat.
Proof.
  revert st. induction l as [|i l IH]; intros st; cbn [fold_left].
  - exists 0%nat. lia.
  - destruct (IH (pass1_body points colors interval st i)) as [k Hk].
    destruct (pass1_body_points points colors interval st i) as [E|(a & b & c & E)];
      rewrite Hk, E.
    + by exists k.
    + exists (S k). rewrite length_app. cbn. lia.
Qed.

(** With a step that is a number and not zero, point 0 is kept. *)
Lemma first_pass_keeps_first points colors interval :
  (3 <= length points)%nat ->
  rem_is_zero 0 interval = true ->
  (3 <= length (sampledPointsArray (first_pass points colors interval)))%nat.
Proof.
  intros Hlen Hrem. unfold first_pass, thirds.
  assert (Hit : (0 < (Z.of_nat (length points) + 2) / 3)%Z).
  { apply Z.div_str_pos. lia. }
  rewrite (seqZ_cons 0) by done.
  cbn [fold_left].
  destruct (first_pass_whole points colors interval
              (seqZ (Z.succ 0) (Z.pred ((Z.of_nat (length points) + 2) / 3)))
              (pass1_body points colors interval pass1_init 0)) as [k ->].
  unfold pass1_body.
  replace (0 * 3 + 2 <? Z.of_nat (length points))%Z with true
    by (symmetry; apply Z.ltb_lt; lia).
  rewrite Hrem. cbn [orb]. rewrite keep_points, length_app. cbn. lia.
Qed.

(** *** The interval *)

Lemma base_interval_ok (x : float) :
  isNaN x = false ->
  rem_is_zero 0 (Math_max (XInt 1) (Math_floor x)) = true.
Proof.
  unfold isNaN, Math_floor. destruct (Prim2SF x) as [s|s| |s m e]; try done.
  - by destruct s.
  - intros _. cbn [Math_max rem_is_zero].
    by destruct (Z.eqb_spec (1 `max` Z.shiftl (if s then Z.neg m else Z.pos m) e) 0);
      [lia |].
Qed.

Lemma sampling_interval_ok points density maxPoints :
  (1 <= maxPoints)%Z -> (1 <= length points)%nat ->
  isNaN (1 / density)%float = false ->
  rem_is_zero 0 (sampling_interval points density maxPoints) = true.
Proof.
  intros Hm Hn Hd. unfold sampling_interval.
  destruct (gt _ _); [| by apply base_interval_ok].
  unfold totalPoints. rewrite third_ceil by lia. cbn [rem_is_zero].
  pose proof (ceil_div_bounds (Z.of_nat (length points)) (3 * maxPoints) ltac:(lia)) as Hz.
  destruct (Z.eqb_spec (- ((- Z.of_nat (length points)) / (3 * maxPoints))) 0) as [E|NE];
    [rewrite E in Hz; lia |].
  by rewrite Z.rem_0_l.
Qed.

(** *** The second pass *)

Lemma pass2_length sp sc (l : list Z) acc :
  (∀ i, i ∈ l -> (0 <= i)%Z ∧ (i * 3 + 2 < Z.of_nat (length sp))%Z) ->
  length (fold_left (pass2_body sp sc) l acc).1
  = (length acc.1 + 3 * length l)%nat.
Proof.
  revert acc. induction l as [|i l IH]; intros acc Hl; cbn [fold_left length].
  - lia.
  - rewrite IH by (intros j Hj; apply Hl; by right).
    unfold pass2_body. destruct (Hl i ltac:(by left)) as [_ Hi].
    destruct (Z.ltb_spec (i * 3 + 2) (Z.of_nat (length sp))); [| lia].
    cbn. rewrite length_app. cbn. lia.
Qed.

Lemma rounds_cap (k m : Z) :
  (1 <= m)%Z -> (m < k)%Z ->
  let z := (- ((- (3 * k)) / (3 * m)))%Z in
  (1 <= z)%Z ∧ (1 <= rounds k z 0 <= m)%Z.
Proof.
  intros Hm Hk z.
  pose proof (ceil_div_bounds (3 * k) (3 * m) ltac:(lia)) as Hz. fold z in Hz.
  assert (1 <= z)%Z by nia.
  split; [done |]. unfold rounds.
  destruct (Z.ltb_spec 0 k); [| lia].
  rewrite Z.sub_0_r. split.
  - apply Z.div_le_lower_bound; lia.
  - apply Z.lt_succ_r, Z.div_lt_upper_bound; nia.
Qed.

(** C1, as the code has it: with a cap of at least 1 the sampler returns, its
    output is a whole number of points, at most [maxPoints] of them, and at
    least one when the input holds a point and [1 / density] is a number. *)
Theorem sampler_output_bounded points colors density maxPoints :
  (1 <= maxPoints)%Z ->
  ∃ (sampledPoints : list float) (sampledColors : option (list float)) (count : nat),
    samplePoints points colors density maxPoints = Some (sampledPoints, sampledColors)
    ∧ length sampledPoints = (3 * count)%nat
    ∧ (Z.of_nat count <= maxPoints)%Z
    ∧ ((3 <= length points)%nat -> isNaN (1 / density)%float = false ->
       (0 < count)%nat).
Proof.
  intros Hm. unfold samplePoints.
  set (interval := sampling_interval points density maxPoints).
  destruct (first_pass_whole points colors interval
              (seqZ 0 (thirds points)) pass1_init) as [k Hk].
  fold (first_pass points colors interval) in Hk. cbn in Hk.
  assert (Hfirst : (3 <= length points)%nat -> isNaN (1 / density)%float = false ->
                   (0 < k)%nat).
  { intros Hn Hd.
    assert (Hrem : rem_is_zero 0 interval = true)
      by (apply sampling_interval_ok; [done | lia | done]).
    pose proof (first_pass_keeps_first points colors interval Hn Hrem). lia. }
  set (st := first_pass points colors interval) in *.
  rewrite third_gt.
  destruct (Z.ltb_spec (3 * maxPoints) (Z.of_nat (length (sampledPointsArray st))))
    as [Hover|Hfits].
  - rewrite third_ceil by lia.
    assert (Hth : thirds (sampledPointsArray st) = Z.of_nat k).
    { unfold thirds. rewrite Hk.
      replace (Z.of_nat (k + (k + (k + 0))) + 2)%Z with (2 + Z.of_nat k * 3)%Z by lia.
      rewrite Z.div_add by lia. done. }
    rewrite Hth.
    replace (Z.of_nat (length (sampledPointsArray st))) with (3 * Z.of_nat k)%Z in * by lia.
    destruct (rounds_cap (Z.of_nat k) maxPoints Hm ltac:(lia)) as [Hz Hr].
    set (z := (- ((- (3 * Z.of_nat k)) / (3 * maxPoints)))%Z) in *.
    rewrite for_by_strided by lia.
    set (l := strided 0 z (rounds (Z.of_nat k) z 0)).
    set (fin := fold_left _ l _).
    assert (Hlen : length fin.1 = (3 * length l)%nat).
    { unfold fin. rewrite pass2_length; [done |].
      intros i Hi. apply strided_bounds in Hi; [| done]. lia. }
    exists fin.1, fin.2, (length l). split; [by destruct fin |].
    split; [done |]. unfold l. rewrite length_strided. split; lia.
  - eexists _, _, k. split; [done |]. split; [lia |]. split; [lia | done].
Qed.

(** *** One outcome per run *)

Section Determinism.
Variables (points : list float) (colors : option (list float))
          (density : float) (maxPoints : Z).

Local Abbreviation step := (step points colors density maxPoints).

Lemma step_deterministic : deterministic step.
Proof.
  intros s s1 s2 H1 H2.
  inversion H1; subst; inversion H2; subst; try done; congruence.
Qed.

Lemma Return_nf (s : sample) : nf step (Return s).
Proof. intros [s' H]. inversion H. Qed.

Lemma rtc_step_unique (a : state) (s1 s2 : sample) :
  rtc step a (Return s1) -> rtc step a (Return s2) -> s1 = s2.
Proof.
  intros H1. remember (Return s1) as b eqn:Hb.
  induction H1 as [a|a a' b Hstep Hrest IH]; intros H2; subst.
  - apply rtc_nf in H2; [congruence | apply Return_nf].
  - destruct (rtc_inv _ _ H2) as [E|(a'' & Hstep' & Hrest')].
    + subst. destruct (Return_nf s2). by exists a'.
    + rewrite (step_deterministic _ _ _ Hstep Hstep') in IH. by apply IH.
Qed.

(** The first loop, round by round. *)
Lemma rtc_loop1 (n : nat) (i : Z) (st : pass1) :
  (i + Z.of_nat n <= thirds points)%Z ->
  rtc step (Loop1 i st)
      (Loop1 (i + Z.of_nat n)
             (fold_left (pass1_body points colors
                           (sampling_interval points density maxPoints))
                        (seqZ i (Z.of_nat n)) st)).
Proof.
  revert i st. induction n as [|n IH]; intros i st Hn.
  - rewrite Z.add_0_r. apply rtc_refl.
  - rewrite seqZ_cons by lia. cbn [fold_left].
    eapply rtc_l; [apply step_round1; lia |].
    replace (Z.pred (Z.of_nat (S n))) with (Z.of_nat n) by lia.
    replace (i + Z.of_nat (S n))%Z with (i + 1 + Z.of_nat n)%Z by lia.
    replace (Z.succ i) with (i + 1)%Z by lia.
    apply IH. lia.
Qed.

(** The second loop, round by round. *)
Lemma rtc_loop2 (fuel : nat) (r : xint) (i : Z) (sp sc : list float) acc res :
  for_by fuel (thirds sp) r i (pass2_body sp sc) acc = Some res ->
  rtc step (Loop2 r i sp sc acc) (Return res).
Proof.
  revert i acc. induction fuel as [|fuel IH]; intros i acc; cbn [for_by];
    destruct (Z.ltb_spec i (thirds sp)) as [Hlt|Hge]; intros Hrun; simplify_eq.
  - apply rtc_once, step_return2. lia.
  - destruct r as [|[|]|z]; simplify_eq.
    + by apply rtc_once, step_round2_nan.
    + by apply rtc_once, step_round2_inf.
    + eapply rtc_l; [by apply step_round2 |]. by apply IH.
  - apply rtc_once, step_return2. lia.
Qed.

(** What [samplePoints] computes is the outcome of a run. *)
Lemma samplePoints_runs (s : sample) :
  samplePoints points colors density maxPoints = Some s ->
  runs points colors density maxPoints s.
Proof.
  unfold samplePoints, runs. intros Hs.
  pose proof (thirds_nonneg points) as Hn.
  eapply rtc_trans.
  { pose proof (rtc_loop1 (Z.to_nat (thirds points)) 0 pass1_init ltac:(lia)) as H.
    rewrite Z2Nat.id, Z.add_0_l in H by done. exact H. }
  fold (first_pass points colors (sampling_interval points density maxPoints)).
  set (st := first_pass _ _ _) in *.
  destruct (gt _ _) eqn:Hgt.
  - eapply rtc_l; [apply step_resample; [lia | exact Hgt] |].
    by eapply rtc_loop2.
  - simplify_eq. apply rtc_once, step_return1; [lia | exact Hgt].
Qed.

End Determinism.

(** C8: two runs of the sampler on the same points, colours, density and cap
    return the same point sequence and the same colour sequence. *)
Theorem sampler_deterministic points colors density maxPoints (s1 s2 : sample) :
  runs points colors density maxPoints s1 ->
  runs points colors density maxPoints s2 ->
  s1 = s2.
Proof. apply rtc_step_unique. Qed.

(** *** The first pass and section 4.4 *)

Lemma Qis_zero_comp (p q : Q) : (p == q)%Q -> Qis_zero p = Qis_zero q.
Proof. intros H. unfold Qis_zero. by rewrite H. Qed.

Lemma Qlt_bool_comp (p p' q q' : Q) :
  (p == p')%Q -> (q == q')%Q -> Qlt_bool p q = Qlt_bool p' q'.
Proof. intros Hp Hq. unfold Qlt_bool. by rewrite Hp, Hq. Qed.

Lemma div_xeq (a a' b : xnum) : xeq a a' -> xeq (div a b) (div a' b).
Proof.
  destruct a as [|s|p], a' as [|s'|p']; cbn; try done.
  - intros ->. by destruct b.
  - intros Hp. destruct b as [|t|q]; cbn; try done.
    rewrite (Qis_zero_comp p p' Hp). unfold Qis_neg.
    rewrite (Qlt_bool_comp p p' 0 0 Hp ltac:(reflexivity)).
    destruct (Qis_zero q); [by destruct (Qis_zero p') |].
    cbn. by rewrite Hp.
Qed.

Lemma gt_xeq (a a' b : xnum) : xeq a a' -> gt a b = gt a' b.
Proof.
  destruct a as [|s|p], a' as [|s'|p']; cbn; try done.
  - by intros ->.
  - intros Hp. destruct b as [|t|q]; try done.
    by apply Qlt_bool_comp.
Qed.

Lemma Math_ceil_xeq (a a' : xnum) : xeq a a' -> Math_ceil a = Math_ceil a'.
Proof.
  destruct a as [|s|p], a' as [|s'|p']; cbn; try done.
  - by intros ->.
  - intros Hp. f_equal. by apply Qceiling_comp.
Qed.

Lemma length_flat (cloud : list vec3) : length (flat cloud) = (3 * length cloud)%nat.
Proof.
  unfold flat. induction cloud as [|p cloud IH]; cbn; [done |]. rewrite IH. lia.
Qed.

Lemma thirds_flat (cloud : list vec3) : thirds (flat cloud) = Z.of_nat (length cloud).
Proof.
  unfold thirds. rewrite length_flat.
  replace (Z.of_nat (3 * length cloud) + 2)%Z
    with (2 + Z.of_nat (length cloud) * 3)%Z by lia.
  by rewrite Z.div_add by lia.
Qed.

Lemma totalPoints_flat (cloud : list vec3) :
  xeq (totalPoints (flat cloud)) (Fin (inject_Z (Z.of_nat (length cloud)))).
Proof.
  unfold totalPoints. rewrite div_Fin by done. cbn. rewrite length_flat.
  rewrite Nat2Z.inj_mul, inject_Z_mult. change (inject_Z (Z.of_nat 3)) with 3%Q.
  field.
Qed.

Lemma get_cons3 (a b c : float) (l : list float) (i : Z) :
  (0 <= i)%Z -> get (a :: b :: c :: l) (3 + i) = get l i.
Proof.
  intros Hi. unfold get.
  destruct (Z.ltb_spec (3 + i) 0), (Z.ltb_spec i 0); try lia.
  replace (Z.to_nat (3 + i)) with (S (S (S (Z.to_nat i)))) by lia. done.
Qed.

Lemma triple_flat (cloud : list vec3) (i : nat) (p : vec3) :
  cloud !! i = Some p -> triple (flat cloud) (Z.of_nat i * 3) = p.
Proof.
  revert i. induction cloud as [|q cloud IH]; intros i Hi; [done |].
  destruct i as [|i].
  - cbn in Hi. simplify_eq. by destruct p as [[a b] c].
  - cbn in Hi. destruct q as [[a b] c]. cbn [flat flat_map app fst snd].
    fold (flat cloud). unfold triple.
    replace (Z.of_nat (S i) * 3)%Z with (3 + Z.of_nat i * 3)%Z by lia.
    replace (3 + Z.of_nat i * 3 + 1)%Z with (3 + (Z.of_nat i * 3 + 1))%Z by lia.
    replace (3 + Z.of_nat i * 3 + 2)%Z with (3 + (Z.of_nat i * 3 + 2))%Z by lia.
    rewrite !get_cons3 by lia. by apply IH.
Qed.

Lemma length_annotate cloud colors :
  colours_match cloud colors -> length (annotate cloud colors) = length cloud.
Proof.
  destruct colors as [cs|]; cbn; intros H.
  - rewrite length_zip_with. lia.
  - by rewrite length_fmap.
Qed.

Lemma lookup_annotate cloud colors (j : nat) (p : cpoint) :
  annotate cloud colors !! j = Some p ->
  cloud !! j = Some p.1
  ∧ match colors with
    | Some cs => ∃ c, cs !! j = Some c ∧ p.2 = Some c
    | None => p.2 = None
    end.
Proof.
  destruct colors as [cs|]; cbn.
  - rewrite lookup_zip_with_Some. intros (q & c & -> & Hq & Hc). eauto.
  - rewrite list_lookup_fmap. destruct (cloud !! j); cbn; intros; by simplify_eq.
Qed.

Lemma keep_walk cloud colors st (j : nat) (p : cpoint) (last : option cpoint) :
  colours_match cloud colors ->
  annotate cloud colors !! j = Some p ->
  holds_last colors st last ->
  let st' := keep (flat cloud) (flat <$> colors) st (Z.of_nat j * 3) in
  sampledPointsArray st' = sampledPointsArray st ++ flat [p.1]
  ∧ sampledColorsArray st' = sampledColorsArray st ++ flat (omap snd [p])
  ∧ holds_last colors st' (Some p).
Proof.
  intros Hcol Hj (Hlp & Hlc & Hnone).
  destruct (lookup_annotate _ _ _ _ Hj) as [Hp Hc].
  cbn zeta. unfold keep, holds_last. rewrite (triple_flat _ _ _ Hp).
  destruct colors as [cs|]; cbn [fmap option_fmap option_map].
  - destruct Hc as (c & Hc & Hp2). rewrite !length_flat.
    destruct (Nat.leb_spec (3 * length cloud) (3 * length cs)); [| cbn in Hcol; lia].
    rewrite (triple_flat _ _ _ Hc). cbn. rewrite Hp2. done.
  - cbn. rewrite Hc, (Hnone eq_refl). by rewrite app_nil_r.
Qed.

Lemma isImportant_walk cloud colors st (j : nat) (p : cpoint) (last : option cpoint) :
  annotate cloud colors !! j = Some p ->
  holds_last colors st last ->
  isImportant (flat cloud) (flat <$> colors) st (Z.of_nat j * 3) = important last p.
Proof.
  intros Hj (Hlp & Hlc & _).
  destruct (lookup_annotate _ _ _ _ Hj) as [Hp Hc].
  unfold isImportant, important. rewrite Hlp, Hlc.
  destruct last as [l|]; [| done].
  cbn [fmap option_fmap option_map mbind option_bind].
  rewrite (triple_flat _ _ _ Hp). f_equal.
  destruct colors as [cs|]; cbn [fmap option_fmap option_map].
  - destruct Hc as (c & Hc & ->). destruct (l.2) as [lc|]; [| done].
    by rewrite (triple_flat _ _ _ Hc).
  - by rewrite Hc.
Qed.

Lemma first_pass_walk cloud colors interval :
  colours_match cloud colors ->
  ∀ (rest : list cpoint) (j : nat) (st : pass1) (last : option cpoint),
    drop j (annotate cloud colors) = rest ->
    holds_last colors st last ->
    let st' := fold_left (pass1_body (flat cloud) (flat <$> colors) interval)
                         (seqZ (Z.of_nat j) (Z.of_nat (length rest))) st in
    let kept := walk interval (Z.of_nat j) last rest in
    sampledPointsArray st' = sampledPointsArray st ++ flat (kept.*1)
    ∧ sampledColorsArray st' = sampledColorsArray st ++ flat (omap snd kept).
Proof.
  intros Hcol rest. induction rest as [|p rest IH]; intros j st last Hdrop Hlast.
  { cbn. by rewrite !app_nil_r. }
  assert (Hj : annotate cloud colors !! j = Some p).
  { rewrite <- (Nat.add_0_r j), <- lookup_drop, Hdrop. done. }
  assert (Hrest : drop (S j) (annotate cloud colors) = rest).
  { replace (S j) with (j + 1)%nat by lia. by rewrite <- drop_drop, Hdrop. }
  assert (Hjlt : (j < length cloud)%nat).
  { destruct (lookup_annotate _ _ _ _ Hj) as [Hp _]. by eapply lookup_lt_Some. }
  cbn zeta. rewrite seqZ_cons by (cbn [length]; lia).
  cbn [fold_left walk].
  replace (Z.pred (Z.of_nat (length (p :: rest)))) with (Z.of_nat (length rest))
    by (cbn [length]; lia).
  replace (Z.succ (Z.of_nat j)) with (Z.of_nat (S j)) by lia.
  replace (Z.of_nat j + 1)%Z with (Z.of_nat (S j)) by lia.
  assert (Hbody :
    pass1_body (flat cloud) (flat <$> colors) interval st (Z.of_nat j)
    = if rem_is_zero (Z.of_nat j) interval || important last p
      then keep (flat cloud) (flat <$> colors) st (Z.of_nat j * 3)
      else st).
  { unfold pass1_body.
    destruct (Z.ltb_spec (Z.of_nat j * 3 + 2) (Z.of_nat (length (flat cloud))))
      as [_|Hge]; [| rewrite length_flat in Hge; lia].
    by rewrite (isImportant_walk _ _ _ _ _ _ Hj Hlast). }
  rewrite Hbody.
  destruct (rem_is_zero (Z.of_nat j) interval || important last p).
  - destruct (keep_walk _ _ _ _ _ _ Hcol Hj Hlast) as (Hpts & Hcols & Hlast').
    destruct (IH (S j) _ (Some p) Hrest Hlast') as [IHp IHc].
    rewrite IHp, IHc, Hpts, Hcols. cbn [fmap list_fmap omap list_omap].
    split.
    + by rewrite <- app_assoc.
    + rewrite <- app_assoc. f_equal. by destruct (p.2).
  - by apply IH.
Qed.

(** *** Section 4.4 in exact arithmetic *)

(** [Math.floor] of a finite double is the floor of the number it denotes. *)
Lemma floor_value (s : bool) (m : positive) (e : Z) :
  Z.shiftl (if s then Z.neg m else Z.pos m) e = Qfloor (spec_value s m e).
Proof.
  unfold spec_value. destruct (Z.leb_spec 0 e) as [He|He].
  - rewrite Qfloor_Z. by apply Z.shiftl_mul_pow2.
  - cbn [Qfloor]. rewrite Pos2Z.inj_pow, Z2Pos.id by lia.
    rewrite <- Z.shiftr_div_pow2 by lia. rewrite <- Z.shiftr_opp_r. f_equal; lia.
Qed.

Lemma Math_max_base (density : float) :
  Math_max (XInt 1) (Math_floor (1 / density)%float) = spec_base density.
Proof.
  unfold Math_floor, spec_base.
  destruct (Prim2SF (1 / density)%float) as [s|[]| |s m e]; try done.
  cbn [Math_max]. by rewrite floor_value.
Qed.

Lemma spec_base_positive (density : float) (z : Z) :
  spec_base density = XInt z -> (1 <= z)%Z.
Proof.
  unfold spec_base.
  destruct (Prim2SF (1 / density)%float) as [s|[]| |s m e]; intros; simplify_eq; lia.
Qed.

Lemma Qlt_bool_dec (a b : Q) :
  Qlt_bool a b = if Qlt_le_dec a b then true else false.
Proof.
  destruct (Qlt_le_dec a b) as [H|H].
  - by apply Qlt_bool_iff.
  - apply not_true_iff_false. rewrite Qlt_bool_iff. by apply Qle_not_lt.
Qed.

Lemma Math_ceil_quotient (a b : Z) :
  Math_ceil (div (Fin (inject_Z a)) (Fin (inject_Z b))) = spec_ceil a b.
Proof.
  unfold div, spec_ceil, Qis_neg.
  rewrite !Qis_zero_inject_Z. change 0%Q with (inject_Z 0).
  rewrite Qlt_bool_inject_Z.
  destruct (b =? 0)%Z; [by destruct (a =? 0)%Z | done].
Qed.

(** Steps 1 and 2: the interval of the code is the stride of the text. *)
Lemma sampling_interval_stride (cloud : list vec3) density maxPoints :
  sampling_interval (flat cloud) density maxPoints
  = spec_stride (Z.of_nat (length cloud)) density maxPoints.
Proof.
  unfold sampling_interval, spec_stride.
  pose proof (totalPoints_flat cloud) as Ht.
  rewrite (gt_xeq _ _ _ (div_xeq _ _ _ Ht)).
  rewrite (Math_ceil_xeq _ _ (div_xeq _ _ _ Ht)).
  rewrite Math_max_base, Math_ceil_quotient.
  destruct (spec_base density) as [|[]|z] eqn:Hbase; cbn [of_xint div gt]; try done.
  - exfalso. unfold spec_base in Hbase.
    by destruct (Prim2SF (1 / density)%float) as [s|[]| |s m e].
  - rewrite Qlt_bool_dec. by destruct (Qlt_le_dec _ _).
  - apply spec_base_positive in Hbase.
    rewrite Qis_zero_inject_Z. destruct (Z.eqb_spec z 0) as [|_]; [lia |].
    cbn [gt]. rewrite Qlt_bool_dec. by destruct (Qlt_le_dec _ _).
Qed.

(** Step 3: the remainder is zero for the multiples. *)
Lemma rem_is_zero_multiple (index : Z) (stride : xint) :
  rem_is_zero index stride = spec_multiple index stride.
Proof.
  destruct stride as [|s|z]; cbn [rem_is_zero spec_multiple].
  - done.
  - apply eq_true_iff_eq. by rewrite Z.eqb_eq, bool_decide_eq_true.
  - destruct (Z.eqb_spec z 0) as [|Hz]; [done |]. cbn [negb andb].
    apply eq_true_iff_eq. rewrite !Z.eqb_eq.
    by rewrite Z.rem_divide, Z.mod_divide.
Qed.

Lemma important_spec (last : option cpoint) (p : cpoint) :
  important last p = spec_important 0.01 0.1 last p.
Proof. done. Qed.

Lemma walk_spec (stride : xint) (pts : list cpoint) :
  ∀ (index : Z) (last : option cpoint),
    walk stride index last pts = spec_walk 0.01 0.1 stride index last pts.
Proof.
  induction pts as [|p pts IH]; intros index last; cbn [walk spec_walk]; [done |].
  by rewrite rem_is_zero_multiple, important_spec, !IH.
Qed.

(** C5: on a cloud whose colours are absent or one per point, the interval
    of the first pass is the stride of steps 1 and 2,
    [max(1, floor(1/density))] raised to [ceil(totalPoints/maxPoints)] when
    [totalPoints/stride > maxPoints], and the pass keeps, in the original
    order, the points that step 3 keeps: point [i] when [i % stride == 0],
    or its displacement from the last kept point exceeds 0.01, or, with
    colours, the colour delta from the last kept point's colour exceeds
    0.1. *)
Theorem first_pass_refines_spec cloud colors density maxPoints :
  colours_match cloud colors ->
  let interval := sampling_interval (flat cloud) density maxPoints in
  let st := first_pass (flat cloud) (flat <$> colors) interval in
  let stride := spec_stride (Z.of_nat (length cloud)) density maxPoints in
  let kept := spec_walk 0.01 0.1 stride 0 None (annotate cloud colors) in
  interval = stride
  ∧ sampledPointsArray st = flat (kept.*1)
  ∧ sampledColorsArray st = flat (omap snd kept).
Proof.
  intros Hcol. cbn zeta. split; [apply sampling_interval_stride |].
  unfold first_pass.
  rewrite <- sampling_interval_stride, <- walk_spec, thirds_flat,
    <- (length_annotate _ _ Hcol).
  apply (first_pass_walk cloud colors _ Hcol (annotate cloud colors) 0 pass1_init None).
  - done.
  - done.
Qed.

(** *** The theorems at work *)

Lemma sampler_output_bounded_witness :
  (1 <= 2)%Z
  ∧ ∃ (sampledPoints : list float) (sampledColors : option (list float)) (count : nat),
      samplePoints (flat demo_cloud) None 0.25 2 = Some (sampledPoints, sampledColors)
      ∧ length sampledPoints = (3 * count)%nat
      ∧ (Z.of_nat count <= 2)%Z
      ∧ ((3 <= length (flat demo_cloud))%nat -> isNaN (1 / 0.25)%float = false ->
         (0 < count)%nat).
Proof.
  split; [lia |]. apply (sampler_output_bounded (flat demo_cloud) None 0.25 2). lia.
Defined.

(** With a cap of 0 the sampler returns one point, which is more than the
    cap: the division by the cap gives [Infinity] as the step of both loops,
    and each keeps its first point. *)
Lemma sampler_cap_zero :
  samplePoints (flat [(1, 2, 3)%float]) None 0.1 0 = Some ([1; 2; 3]%float, None)
  ∧ ~ (Z.of_nat (length [1; 2; 3]%float) <= 3 * 0)%Z.
Proof. split; [by vm_compute | cbn; lia]. Qed.

(** Without a number as density nothing is kept. *)
Lemma sampler_density_nan :
  samplePoints (flat demo_cloud) None nan 5 = Some ([], None).
Proof. by vm_compute. Qed.

(** With a negative cap the second loop does not end. *)
Lemma sampler_cap_negative :
  samplePoints (flat demo_cloud) None 0.25 (-1) = None.
Proof. by vm_compute. Qed.

(** The cloud of the examples at density 0.25: the stride is 4, raised to 5
    by a cap of 2; at stride 4 the pass keeps the points 0, 4 and 8 for
    their index, the point 2 for its displacement and the point 3 for its
    colour. *)
Lemma first_pass_refines_spec_witness :
  let st :=
    first_pass (flat demo_cloud) (flat <$> Some demo_colors)
      (sampling_interval (flat demo_cloud) 0.25 100) in
  colours_match demo_cloud (Some demo_colors)
  ∧ sampling_interval (flat demo_cloud) 0.25 100 = spec_stride 9 0.25 100
  ∧ spec_stride 9 0.25 100 = XInt 4
  ∧ spec_stride 9 0.25 2 = XInt 5
  ∧ spec_walk 0.01 0.1 (XInt 4) 0 None (annotate demo_cloud (Some demo_colors))
    = [((0, 0, 0), Some (1, 0, 0)); ((1, 0, 0), Some (1, 0, 0));
       ((1, 0, 0), Some (0, 1, 0)); ((1.005, 0, 0), Some (0, 1, 0));
       ((1.005, 0, 0), Some (0, 1, 0))]%float
  ∧ sampledPointsArray st
    = [0; 0; 0; 1; 0; 0; 1; 0; 0; 1.005; 0; 0; 1.005; 0; 0]%float
  ∧ sampledColorsArray st
    = [1; 0; 0; 1; 0; 0; 0; 1; 0; 0; 1; 0; 0; 1; 0]%float.
Proof.
  cbv zeta.
  assert (Hcol : colours_match demo_cloud (Some demo_colors)) by (cbn; lia).
  destruct (first_pass_refines_spec demo_cloud (Some demo_colors) 0.25 100 Hcol)
    as (Hstride & Hpoints & Hcolours).
  split; [exact Hcol |]. split; [exact Hstride |].
  split; [by vm_compute |]. split; [by vm_compute |]. split; [by vm_compute |].
  split.
  - rewrite Hpoints. by vm_compute.
  - rewrite Hcolours. by vm_compute.
Defined.

Lemma sampler_deterministic_witness :
  runs (flat demo_cloud) None 0.25 2
       ([0; 0; 0; 1.005; 0; 0]%float, None)
  ∧ runs (flat demo_cloud) None 0.25 2
         ([0; 0; 0; 1.005; 0; 0]%float, None)
  ∧ ([0; 0; 0; 1.005; 0; 0]%float, None : option (list float))
    = ([0; 0; 0; 1.005; 0; 0]%float, None).
Proof.
  assert (H : runs (flat demo_cloud) None 0.25 2 ([0; 0; 0; 1.005; 0; 0]%float, None)).
  { apply samplePoints_runs. by vm_compute. }
  split; [exact H |]. split; [exact H |].
  exact (sampler_deterministic (flat demo_cloud) None 0.25 2 _ _ H H).
Defined.

End SamplerFacts.

(** ** The outline extractor *)

Module OutlineFacts.
Import JS JSFacts Outline.

(** *** The sampling of the edge voxels *)

Lemma samplingStep_pos (n : Z) :
  (0 < n)%Z -> samplingStep n = XInt (Z.max 1 (n / Z.min n 5000)).
Proof.
  intros Hn. unfold samplingStep, edgeSampleCount.
  rewrite div_Fin_Z by lia. cbn [Math_floor_q Math_max].
  by rewrite <- Zdiv_Qdiv.
Qed.

Lemma sample_body_length edges (l : list Z) acc :
  (∀ i, i ∈ l -> (0 <= i < Z.of_nat (length edges))%Z) ->
  length (fold_left (sample_body edges) l acc) = (length acc + length l)%nat.
Proof.
  revert acc. induction l as [|i l IH]; intros acc Hl; cbn [fold_left length].
  - lia.
  - rewrite IH by (intros j Hj; apply Hl; by right).
    destruct (Hl i ltac:(by left)) as [Hi0 Hi].
    unfold sample_body. destruct (Z.ltb_spec i (Z.of_nat (length edges))); [| lia].
    destruct (lookup_lt_is_Some_2 edges (Z.to_nat i) ltac:(lia)) as [v ->].
    rewrite length_app. cbn. lia.
Qed.

Lemma sample_body_subset edges (l : list Z) acc :
  acc ⊆ edges -> fold_left (sample_body edges) l acc ⊆ edges.
Proof.
  revert acc. induction l as [|i l IH]; intros acc Hacc; cbn [fold_left]; [done |].
  apply IH. unfold sample_body. destruct (_ <? _)%Z; [| done].
  destruct (edges !! Z.to_nat i) as [v|] eqn:Hv; [| done].
  intros w Hw. apply elem_of_app in Hw as [Hw|Hw]; [by apply Hacc |].
  apply list_elem_of_singleton in Hw as ->. by eapply list_elem_of_lookup_2.
Qed.

(** The sampling loop ends, and keeps [ceil(n / step)] of the [n] edge
    voxels, where [step] is [floor(n / min(n, 5000))]. *)
Lemma sampledEdges_count (edges : list voxel) :
  let n := Z.of_nat (length edges) in
  let step := Z.max 1 (n / Z.min n 5000) in
  ∃ sampled,
    sampledEdges edges = Some sampled
    ∧ sampled ⊆ edges
    ∧ Z.of_nat (length sampled) = rounds n step 0.
Proof.
  cbn zeta. unfold sampledEdges.
  destruct (decide (length edges = 0%nat)) as [E|NE].
  - rewrite E. exists []. split; [by vm_compute |].
    split; [apply list_subseteq_nil | by vm_compute].
  - rewrite samplingStep_pos by lia.
    set (n := Z.of_nat (length edges)). set (step := Z.max 1 _).
    rewrite for_by_strided by lia.
    eexists. split; [done |]. split.
    + apply sample_body_subset, list_subseteq_nil.
    + rewrite sample_body_length, length_strided.
      * pose proof (rounds_nonneg n step 0 ltac:(lia)). cbn [length]. lia.
      * intros i Hi. apply strided_bounds in Hi; [lia | lia].
Qed.

(** Between 5001 and 9999 edge voxels the step is 1 and all are kept. *)
Lemma sampledEdges_over_cap (edges : list voxel) :
  (5000 < Z.of_nat (length edges) < 10000)%Z ->
  ∃ sampled, sampledEdges edges = Some sampled ∧ length sampled = length edges.
Proof.
  intros Hn. destruct (sampledEdges_count edges) as (sampled & Hs & _ & Hlen).
  exists sampled. split; [done |].
  replace (Z.min (Z.of_nat (length edges)) 5000) with 5000%Z in Hlen by lia.
  replace (Z.of_nat (length edges) / 5000)%Z with 1%Z in Hlen.
  - unfold rounds in Hlen. cbn [Z.max] in Hlen.
    destruct (Z.ltb_spec 0 (Z.of_nat (length edges))); [| lia].
    rewrite Z.div_1_r in Hlen. lia.
  - apply Z.div_unique with (r := (Z.of_nat (length edges) - 5000)%Z); lia.
Qed.

(** *** The stitch *)

Lemma endpoints_segment_buffer (l : list (voxel * voxel)) :
  endpoints (segment_buffer l) = position <$> ends l.
Proof.
  induction l as [|[a b] l IH]; [done |].
  cbn. f_equal. f_equal. exact IH.
Qed.

Lemma segments_ends (l : list (voxel * voxel)) :
  segments (position <$> ends l) = (fun ab => (position ab.1, position ab.2)) <$> l.
Proof.
  induction l as [|[a b] l IH]; [done |]. cbn. f_equal. exact IH.
Qed.

Lemma segment_buffer_snoc (l : list (voxel * voxel)) (a b : voxel) :
  segment_buffer (l ++ [(a, b)])
  = segment_buffer l ++ [x a; y a; z a] ++ [x b; y b; z b].
Proof. unfold segment_buffer. rewrite flat_map_app. cbn. done. Qed.

Lemma ends_snoc (l : list (voxel * voxel)) (a b : voxel) :
  ends (l ++ [(a, b)]) = ends l ++ [a; b].
Proof. unfold ends. rewrite flat_map_app. done. Qed.

Lemma search_body_ok (sampled : list voxel) (marked : gset pkey) (i : Z)
    (current : voxel) (s : search) (j : Z) :
  (0 <= j)%Z ->
  found_ok sampled marked current s ->
  found_ok sampled marked current (search_body sampled marked i current s j).
Proof.
  intros Hj Hs. unfold search_body.
  destruct (i =? j)%Z; [done |].
  destruct (sampled !! Z.to_nat j) as [other|] eqn:Hother; [| done].
  destruct (decide (keyOf other ∈ marked)) as [|Hfree]; [done |].
  destruct (dist2 current other <? minDist s)%float; [| done].
  destruct (dist2 current other <? threshold)%float eqn:Hnear; [| done].
  right. exists other. done.
Qed.

Lemma search_ok (sampled : list voxel) (marked : gset pkey) (i : Z)
    (current : voxel) (l : list Z) (s : search) :
  (∀ j, j ∈ l -> (0 <= j)%Z) ->
  found_ok sampled marked current s ->
  found_ok sampled marked current
           (fold_left (search_body sampled marked i current) l s).
Proof.
  revert s. induction l as [|j l IH]; intros s Hl Hs; cbn [fold_left]; [done |].
  apply IH; [intros k Hk; apply Hl; by right |].
  apply search_body_ok; [apply Hl; by left | done].
Qed.

Lemma stitched_mark (sampled : list voxel) (st : stitch) (marked : gset pkey) :
  processed st ⊆ marked ->
  stitched sampled st -> stitched sampled (Stitch marked (vertices st)).
Proof.
  intros Hsub (l & Hv & Hl & Hnd & Hin). exists l. cbn.
  split; [done |]. split; [done |]. split; [done |].
  intros k Hk. apply Hsub, Hin, Hk.
Qed.

Lemma stitch_body_ok (sampled : list voxel) (st : stitch) (i : Z) :
  stitched sampled st -> stitched sampled (stitch_body sampled st i).
Proof.
  intros Hst. unfold stitch_body.
  destruct (sampled !! Z.to_nat i) as [current|] eqn:Hcur; [| done].
  destruct (decide (keyOf current ∈ processed st)) as [|Hfresh]; [done |].
  set (marked := {[ keyOf current ]} ∪ processed st).
  set (found := fold_left _ _ _).
  assert (Hfound : found_ok sampled marked current found).
  { apply search_ok; [intros j Hj; apply elem_of_seqZ in Hj; lia | by left]. }
  destruct (Z.leb_spec 0 (nearestIdx found)) as [Hpos|Hneg];
    [| apply stitched_mark; [intros k Hk; by apply elem_of_union_r | done]].
  destruct Hfound as [Hnone|(other & Hother & _ & Hfree & Hnear)]; [lia |].
  rewrite Hother.
  assert (Hcm : keyOf current ∈ marked) by (apply elem_of_union_l; by apply elem_of_singleton).
  assert (Hpm : processed st ⊆ marked) by (intros k Hk; by apply elem_of_union_r).
  clearbody marked found.
  destruct Hst as (l & Hv & Hl & Hnd & Hin).
  exists (l ++ [(current, other)]). cbn [vertices processed].
  split; [by rewrite segment_buffer_snoc, Hv |].
  split.
  { apply Forall_app. split; [done |]. apply Forall_singleton. cbn.
    split; [by eapply list_elem_of_lookup_2 |].
    split; [by eapply list_elem_of_lookup_2 | done]. }
  rewrite ends_snoc, fmap_app. cbn [fmap list_fmap].
  split.
  - apply list.NoDup_app. split; [done |]. split.
    + intros k Hk Hk'. apply Hin in Hk.
      apply elem_of_cons in Hk' as [->|Hk']; [done |].
      apply list_elem_of_singleton in Hk' as ->. by apply Hfree, Hpm.
    + apply list.NoDup_cons. split; [| apply NoDup_singleton].
      intros Heq. apply list_elem_of_singleton in Heq. apply Hfree. by rewrite <- Heq.
  - intros k Hk. apply elem_of_app in Hk as [Hk|Hk].
    + apply elem_of_union_r, Hpm, Hin, Hk.
    + apply elem_of_cons in Hk as [->|Hk]; [by apply elem_of_union_r |].
      apply list_elem_of_singleton in Hk as ->.
      by apply elem_of_union_l, elem_of_singleton.
Qed.

Lemma stitchEdges_ok (sampled : list voxel) : stitched sampled (stitchEdges sampled).
Proof.
  unfold stitchEdges.
  generalize (seqZ 0 (Z.of_nat (length sampled))) as l.
  assert (H0 : stitched sampled (Stitch ∅ [])).
  { exists []. cbn. split; [done |]. split; [done |].
    split; [apply NoDup_nil_2 | set_solver]. }
  revert H0. generalize (Stitch ∅ []) as st. intros st Hst l. revert st Hst.
  induction l as [|i l IH]; intros st Hst; cbn [fold_left]; [done |].
  apply IH. by apply stitch_body_ok.
Qed.


(** C10: in the buffer of the extractor no vertex is an end twice, not even
    up to the three decimals of the keys of [processed]; and every end is
    marked when the stitch is over. *)
Theorem outline_endpoints_used_once (points : list float) :
  ∃ (sampled : list voxel) (buffer : list float),
    sampledEdges (edgeVoxels (voxelGrid points)) = Some sampled
    ∧ outlineVertices points = Some buffer
    ∧ NoDup (vertexKey <$> endpoints buffer)
    ∧ NoDup (endpoints buffer)
    ∧ Forall (fun p => vertexKey p ∈ processed (stitchEdges sampled)
                       ∧ ∃ v, v ∈ sampled ∧ p = position v)
             (endpoints buffer).
Proof.
  destruct (sampledEdges_count (edgeVoxels (voxelGrid points)))
    as (sampled & Hs & _ & _).
  exists sampled, (vertices (stitchEdges sampled)).
  split; [done |]. split; [unfold outlineVertices; by rewrite Hs |].
  destruct (stitchEdges_ok sampled) as (l & Hv & Hl & Hnd & Hin).
  rewrite Hv, endpoints_segment_buffer.
  assert (Hkeys : vertexKey <$> (position <$> ends l) = keyOf <$> ends l).
  { rewrite <- list_fmap_compose. by apply list_fmap_ext. }
  rewrite Hkeys. split; [done |].
  split; [eapply NoDup_fmap_1; by rewrite Hkeys |].
  apply Forall_fmap, list.Forall_forall. intros v Hv'. cbn. split.
  - apply Hin. change (vertexKey (position v)) with (keyOf v).
    by apply list_elem_of_fmap_2.
  - exists v. split; [| done].
    unfold ends in Hv'. apply list_elem_of_In, in_flat_map in Hv'.
    destruct Hv' as ([a b] & Hab & Hv').
    rewrite list.Forall_forall in Hl. apply list_elem_of_In in Hab.
    destruct (Hl _ Hab) as (Ha & Hb & _).
    cbn in Hv'. destruct Hv' as [<-|[<-|[]]]; done.
Qed.

(** *** The cap on the sample *)

Lemma sampledEdges_over_cap_witness :
  (5000 < Z.of_nat (length (replicate (Z.to_nat 5001) (Voxel 1 0 0 0))) < 10000)%Z
  ∧ ∃ sampled,
      sampledEdges (replicate (Z.to_nat 5001) (Voxel 1 0 0 0)) = Some sampled
      ∧ length sampled = length (replicate (Z.to_nat 5001) (Voxel 1 0 0 0)).
Proof.
  assert (H : (5000 < Z.of_nat (length (replicate (Z.to_nat 5001) (Voxel 1 0 0 0))) < 10000)%Z)
    by (rewrite length_replicate; lia).
  split; [exact H |]. exact (sampledEdges_over_cap _ H).
Defined.

Lemma get_app_length (pre rest : list float) (i : Z) :
  (0 <= i)%Z ->
  get (pre ++ rest) (Z.of_nat (length pre) + i) = get rest i.
Proof.
  intros Hi. unfold get.
  destruct (Z.ltb_spec (Z.of_nat (length pre) + i) 0), (Z.ltb_spec i 0); try lia.
  replace (Z.to_nat (Z.of_nat (length pre) + i)) with (length pre + Z.to_nat i)%nat
    by lia.
  by rewrite app_nth2_plus.
Qed.

(** The loop over the indices walks the array three numbers at a time. *)
Lemma voxelGrid_walk (points : list float) : voxelGrid points = grid_of points grid_empty.
Proof.
  unfold voxelGrid. generalize grid_empty as g.
  assert (Hgen : ∀ (k : nat) (rest pre : list float) (g : grid),
            (length rest <= k)%nat ->
            points = pre ++ rest ->
            fold_left (voxelize_body points)
                      (strided (Z.of_nat (length pre)) 3
                         (rounds (Z.of_nat (length points)) 3 (Z.of_nat (length pre))))
                      g
            = grid_of rest g).
  { induction k as [|k IH]; intros rest pre g Hk Hpts.
    - destruct rest; [| cbn in Hk; lia]. rewrite app_nil_r in Hpts. subst pre.
      by rewrite rounds_done by lia.
    - assert (Hn : length points = (length pre + length rest)%nat)
        by (by rewrite Hpts, length_app).
      destruct rest as [|a [|b [|c rest]]]; cbn [length] in *.
      + by rewrite rounds_done by lia.
      + rewrite rounds_step, (rounds_done _ _ (_ + 3)) by lia.
        rewrite strided_cons by lia. cbn [fold_left grid_of].
        unfold voxelize_body.
        by destruct (Z.ltb_spec (Z.of_nat (length pre) + 2) (Z.of_nat (length points)));
          [lia |].
      + rewrite rounds_step, (rounds_done _ _ (_ + 3)) by lia.
        rewrite strided_cons by lia. cbn [fold_left grid_of].
        unfold voxelize_body.
        by destruct (Z.ltb_spec (Z.of_nat (length pre) + 2) (Z.of_nat (length points)));
          [lia |].
      + rewrite rounds_step by lia.
        rewrite strided_cons by (apply rounds_nonneg; lia).
        cbn [fold_left grid_of].
        specialize (IH rest (pre ++ [a; b; c])).
        rewrite length_app in IH. cbn [length] in IH.
        replace (Z.of_nat (length pre) + 3)%Z with (Z.of_nat (length pre + 3)) by lia.
        rewrite IH; [| lia | by rewrite <- app_assoc].
        f_equal. unfold voxelize_body.
        destruct (Z.ltb_spec (Z.of_nat (length pre) + 2) (Z.of_nat (length points)));
          [| lia].
        rewrite Hpts.
        rewrite <- (Z.add_0_r (Z.of_nat (length pre))) at 1 2 3 4.
        rewrite <- !Z.add_assoc, !get_app_length by lia. done. }
  intros g. apply (Hgen (length points) points [] g); [lia | done].
Qed.

(** The line of 5001 points has 5001 edge voxels. *)
Lemma line_edges :
  Z.of_nat (length (edgeVoxels (grid_of (line_cloud 5001) grid_empty))) = 5001%Z.
Proof. vm_cast_no_check (eq_refl 5001%Z). Qed.

Lemma samplingStep_over_cap : samplingStep 5001 = XInt 1.
Proof. by vm_compute. Qed.

(** C6 at work: a cloud of 5001 points one unit apart has 5001 edge voxels;
    the step of the sampling is [floor(5001 / 5000)] = 1, and the sample
    holds all 5001 of them, one more than the cap. *)
Theorem edge_sample_exceeds_cap :
  ∃ sampled : list voxel,
    sampledEdges (edgeVoxels (voxelGrid (line_cloud 5001))) = Some sampled
    ∧ Z.of_nat (length (edgeVoxels (voxelGrid (line_cloud 5001)))) = 5001%Z
    ∧ samplingStep 5001 = XInt 1
    ∧ Z.of_nat (length sampled) = 5001%Z.
Proof.
  rewrite voxelGrid_walk. pose proof line_edges as Hn.
  destruct (sampledEdges_over_cap (edgeVoxels (grid_of (line_cloud 5001) grid_empty)))
    as (sampled & Hs & Hlen); [rewrite Hn; lia |].
  exists sampled.
  exact (conj Hs (conj Hn (conj samplingStep_over_cap
                                (eq_trans (f_equal Z.of_nat Hlen) Hn)))).
Qed.

End OutlineFacts.

(** ** Camera relations and the recommendation *)

Module RelationsFacts.
Import JS Relations.

(** *** Objects *)

Lemma obj_get_insert {A : Type} (o : obj A) (k k' : string) (v : A) :
  obj_get o k = None ->
  obj_get (obj_insert o k v) k' = if decide (k' = k) then Some v else obj_get o k'.
Proof.
  induction o as [|[k0 v0] o IH]; intros Hnone; cbn [obj_insert obj_get].
  - done.
  - cbn [obj_get] in Hnone. destruct (decide (k = k0)) as [|Hk0]; [done |].
    specialize (IH Hnone).
    destruct (array_index k) as [n|], (array_index k0) as [n0|];
      [destruct (n <? n0)%N | | |]; cbn [obj_get]; rewrite ?IH;
      repeat case_decide; by simplify_eq.
Qed.

Lemma obj_get_replace {A : Type} (o : obj A) (k k' : string) (v : A) :
  obj_get ((fun kv => if decide (kv.1 = k) then (k, v) else kv) <$> o) k'
  = if decide (k' = k) then (fun _ => v) <$> obj_get o k else obj_get o k'.
Proof.
  induction o as [|[k0 v0] o IH]; cbn [fmap list_fmap obj_get fst].
  - by case_decide.
  - destruct (decide (k0 = k)) as [->|Hk0]; cbn [obj_get]; rewrite ?IH;
      repeat case_decide; by simplify_eq.
Qed.

(** [o[k] = v] and then [o[k']] *)
Lemma obj_get_set {A : Type} (o : obj A) (k k' : string) (v : A) :
  obj_get (obj_set o k v) k' = if decide (k' = k) then Some v else obj_get o k'.
Proof.
  unfold obj_set. destruct (decide (is_Some (obj_get o k))) as [Hs|Hn].
  - rewrite obj_get_replace. destruct Hs as [w ->]. by case_decide.
  - apply obj_get_insert. by apply eq_None_not_Some.
Qed.

Lemma obj_get_keys {A : Type} (o : obj A) (k : string) :
  k ∈ Object_keys o <-> is_Some (obj_get o k).
Proof.
  unfold Object_keys. induction o as [|[k0 v0] o IH]; cbn [fmap list_fmap obj_get fst].
  - split; [by intros ?%elem_of_nil | by intros []].
  - rewrite elem_of_cons, IH. destruct (decide (k = k0)) as [->|Hne].
    + split; [by eexists | by left].
    + split; [by intros [?|?] | by right].
Qed.

Lemma obj_get_entries {A : Type} (o : obj A) (k : string) (v : A) :
  obj_get o k = Some v -> (k, v) ∈ Object_entries o.
Proof.
  unfold Object_entries. induction o as [|[k0 v0] o IH]; cbn [obj_get]; [done |].
  destruct (decide (k = k0)) as [->|]; intros H; simplify_eq.
  - by left.
  - right. by apply IH.
Qed.

(** *** The table *)

Section Table.
Variable frustumOf : PerspectiveCamera -> Frustum.
Variable project : PerspectiveCamera -> Vector3 -> Vector3.
Variable Math_pow : float -> float -> float.

Local Abbreviation relationOf := (relationOf frustumOf project Math_pow).
Local Abbreviation personRelationsOf := (personRelationsOf frustumOf project Math_pow).
Local Abbreviation relationsOf := (relationsOf frustumOf project Math_pow).

Lemma personRelations_fold (cameras : obj Camera) (person : Person)
    (ks : list string) (acc : obj Relation) (k : string) :
  obj_get
    (fold_left
       (fun personRelations cameraId =>
          match obj_get cameras cameraId with
          | Some camera => obj_set personRelations cameraId (relationOf camera person)
          | None => personRelations
          end) ks acc) k
  = if decide (k ∈ ks)
    then match obj_get cameras k with
         | Some camera => Some (relationOf camera person)
         | None => obj_get acc k
         end
    else obj_get acc k.
Proof.
  revert acc. induction ks as [|k0 ks IH]; intros acc; cbn [fold_left].
  - case_decide as H; [by apply elem_of_nil in H | done].
  - rewrite IH. clear IH.
    destruct (decide (k = k0)) as [->|Hne].
    + rewrite (decide_True (P := k0 ∈ k0 :: ks)) by (by left).
      destruct (obj_get cameras k0) as [camera0|] eqn:Hk0.
      * rewrite obj_get_set, (decide_True (P := k0 = k0)) by done. by case_decide.
      * by case_decide.
    + assert (Hacc :
        obj_get match obj_get cameras k0 with
                | Some camera => obj_set acc k0 (relationOf camera person)
                | None => acc
                end k = obj_get acc k).
      { destruct (obj_get cameras k0); [| done].
        rewrite obj_get_set. by case_decide. }
      rewrite Hacc.
      destruct (decide (k ∈ ks)) as [Hin|Hout].
      * by rewrite (decide_True (P := k ∈ k0 :: ks)) by (by right).
      * rewrite (decide_False (P := k ∈ k0 :: ks)); [done |].
        by intros [?|?]%elem_of_cons.
Qed.

(** The relation the table holds for a camera is the one computed from it. *)
Lemma personRelations_get (cameras : obj Camera) (person : Person) (k : string) :
  obj_get (personRelationsOf cameras person) k
  = (fun camera => relationOf camera person) <$> obj_get cameras k.
Proof.
  unfold Relations.personRelationsOf. rewrite personRelations_fold.
  destruct (obj_get cameras k) as [camera|] eqn:Hk; case_decide as H; try done.
  exfalso. apply H, obj_get_keys. by rewrite Hk.
Qed.

Lemma relations_fold_other (cameras : obj Camera) (ps : list Person)
    (acc : obj (obj Relation)) (k : string) :
  k ∉ id <$> ps ->
  obj_get
    (fold_left (fun relations person =>
                  obj_set relations (id person) (personRelationsOf cameras person))
               ps acc) k
  = obj_get acc k.
Proof.
  revert acc. induction ps as [|q ps IH]; intros acc Hk; cbn [fold_left]; [done |].
  cbn [fmap list_fmap] in Hk. apply not_elem_of_cons in Hk as [Hq Hk].
  rewrite IH by done. rewrite obj_get_set. by case_decide.
Qed.

(** The row the table holds for a person, when no two persons share an id. *)
Lemma relations_get (cameras : obj Camera) (personsData : list Person)
    (person : Person) :
  NoDup (id <$> personsData) ->
  person ∈ personsData ->
  obj_get (relationsOf cameras personsData) (id person)
  = Some (personRelationsOf cameras person).
Proof.
  unfold Relations.relationsOf. generalize ([] : obj (obj Relation)) as acc.
  induction personsData as [|q ps IH]; intros acc Hnd Hin; cbn [fold_left].
  - by apply elem_of_nil in Hin.
  - cbn [fmap list_fmap] in Hnd. apply list.NoDup_cons in Hnd as [Hq Hnd].
    apply elem_of_cons in Hin as [->|Hin].
    + rewrite relations_fold_other by done. rewrite obj_get_set. by case_decide.
    + by apply IH.
Qed.

End Table.
(** *** Visibility and the scores *)

Section Camera.
Variable Math_tan : float -> float.
Variable nearVertical : Vector3 -> bool.

Local Abbreviation axes := (written_axes Math_tan nearVertical).

(** [length() || 1] *)
Lemma normalize_divisor (a : Vector3) :
  normalize a
  = let r := (1 / written_divisor (length3 a))%float in
    ((a.1.1 * r)%float, (a.1.2 * r)%float, (a.2 * r)%float).
Proof.
  unfold normalize, written_divisor. by rewrite TestFacts.isNaN_eqb, orb_comm.
Qed.

Lemma forward_written (camera : Camera) :
  forward (cameraOf camera)
  = (fx (axes camera), fy (axes camera), fz (axes camera)).
Proof. unfold forward. by rewrite normalize_divisor. Qed.

Lemma rightward_written (camera : Camera) :
  rightward nearVertical (cameraOf camera)
  = (rx (axes camera), ry (axes camera), rz (axes camera)).
Proof.
  unfold rightward. rewrite normalize_divisor, forward_written. reflexivity.
Qed.

Lemma upward_written (camera : Camera) :
  upward nearVertical (cameraOf camera)
  = (ux (axes camera), uy (axes camera), uz (axes camera)).
Proof.
  unfold upward. rewrite rightward_written, forward_written. reflexivity.
Qed.







(** [Math.min(1, q)] *)
Lemma Math_min_one (q : float) : Math_min 1 q = written_cap q.
Proof.
  unfold Math_min, written_cap. change (isNaN 1) with false. cbn [orb].
  rewrite TestFacts.isNaN_eqb.
  destruct (q =? q)%float eqn:Hq; cbn [negb].
  - assert (Hn : isNaN q = false) by (by rewrite TestFacts.isNaN_eqb, Hq).
    pose proof (DoublesFacts.ltb_rank 1 q eq_refl Hn) as H1.
    pose proof (DoublesFacts.ltb_rank q 1 Hn eq_refl) as H2.
    destruct (1 <? q)%float eqn:E1.
    + destruct (q <? 1)%float eqn:E2; [| done].
      pose proof (DoublesFacts.ltb_trans _ _ _ E1 E2) as Habs. by vm_compute in Habs.
    + destruct (q <? 1)%float eqn:E2; [done |].
      assert (H1' := proj1 H1 eq_refl). assert (H2' := proj1 H2 eq_refl).
      change (Prim2SF 1) with (S754_finite false 4503599627370496 (-52)) in *.
      rewrite <- (FloatAxioms.SF2Prim_Prim2SF q).
      unfold isNaN in Hn. unfold Doubles.rank_le in *.
      destruct (Prim2SF q) as [s|[]| |[] m e]; cbn in H1', H2'; try done; try lia.
      assert (e = (-52)%Z) as -> by lia.
      assert (m = 4503599627370496%positive) as -> by lia.
      reflexivity.
  - rewrite DoublesFacts.ltb_nan_l; [done |]. by rewrite TestFacts.isNaN_eqb, Hq.
Qed.

(** The scores of [relationOf], written out. *)
Lemma relationOf_written (frustumOf : PerspectiveCamera -> Frustum)
    (Math_pow : float -> float -> float) (camera : Camera) (person : Person) :
  (∀ x, Math_pow x 2%float = (x * x)%float) ->
  let relation :=
    relationOf frustumOf (pinhole_project Math_tan nearVertical) Math_pow
      camera person in
  let scores := written_scores Math_tan nearVertical camera person in
  distance relation = the_distance scores
  ∧ centerOffset relation = the_offset scores
  ∧ angleScore relation = the_angleScore scores
  ∧ qualityScore relation = the_qualityScore scores.
Proof.
  intros Hpow. cbn zeta.
  unfold relationOf, written_scores.
  cbn [distance centerOffset angleScore qualityScore
       the_distance the_offset the_angleScore the_qualityScore].
  rewrite !Hpow, !Math_min_one, normalize_divisor.
  unfold pinhole_project, halfWidth, halfHeight.
  rewrite upward_written, rightward_written, forward_written.
  repeat split.
Qed.

End Camera.


(** C4: in the table, the quality score of a camera and a person is
    [distanceScore * 0.4 + centerScore * 0.3 + angleScore * 0.3], where
    [distanceScore = 1 - min(1, |distance - 5| / 5)] on the distance of the
    two positions, [centerScore = 1 - min(1, offset)] on the distance of the
    projected position from the centre of the frame in normalized device
    coordinates, and [angleScore = dot * 0.5 + 0.5] on the facing direction
    and the unit direction from the camera to the person; [Math.pow(x, 2)]
    is taken to be [x * x]. *)
Theorem quality_score_formula
    (Math_tan : float -> float) (nearVertical : Vector3 -> bool)
    (frustumOf : PerspectiveCamera -> Frustum)
    (Math_pow : float -> float -> float)
    (cameras : obj Camera) (personsData : list Person)
    (person : Person) (cameraId : string) (camera : Camera) :
  (∀ x, Math_pow x 2%float = (x * x)%float) ->
  NoDup (id <$> personsData) ->
  person ∈ personsData ->
  obj_get cameras cameraId = Some camera ->
  id person ≠ "__proto__"%string ->
  cameraId ≠ "__proto__"%string ->
  ∃ personRelations relation,
    obj_get (relationsOf frustumOf (pinhole_project Math_tan nearVertical) Math_pow
               cameras personsData) (id person)
    = Some personRelations
    ∧ obj_get personRelations cameraId = Some relation
    ∧ let scores := written_scores Math_tan nearVertical camera person in
      distance relation = the_distance scores
      ∧ centerOffset relation = the_offset scores
      ∧ angleScore relation = the_angleScore scores
      ∧ qualityScore relation = the_qualityScore scores.
Proof.
  intros Hpow Hnd Hin Hcam _ _.
  exists (personRelationsOf frustumOf (pinhole_project Math_tan nearVertical)
            Math_pow cameras person),
         (relationOf frustumOf (pinhole_project Math_tan nearVertical)
            Math_pow camera person).
  split; [by apply relations_get |].
  split; [by rewrite personRelations_get, Hcam |].
  by apply relationOf_written.
Qed.

(** *** The recommendation *)

Lemma sort_insert_elem (a e : string * Relation) (l : list (string * Relation)) :
  e ∈ sort_insert a l <-> e = a ∨ e ∈ l.
Proof.
  induction l as [|b l IH]; cbn [sort_insert].
  - rewrite list_elem_of_singleton, elem_of_nil. tauto.
  - destruct (better a b); rewrite !elem_of_cons, ?IH; tauto.
Qed.

Lemma sort_elem (e : string * Relation) (l : list (string * Relation)) :
  e ∈ sort l <-> e ∈ l.
Proof.
  unfold sort. induction l as [|a l IH]; cbn [foldr]; [done |].
  by rewrite sort_insert_elem, elem_of_cons, IH.
Qed.

(** A score that is a number: [q == q] fails for NaN only. *)
Lemma number_isNaN (q : float) : (q =? q)%float = true <-> isNaN q = false.
Proof. rewrite TestFacts.isNaN_eqb. by destruct (q =? q)%float. Qed.

(** On scores that are numbers the comparator is the order of the scores. *)
Lemma better_ltb (a b : string * Relation) :
  isNaN (qualityScore a.2) = false -> isNaN (qualityScore b.2) = false ->
  better a b = (qualityScore a.2 <? qualityScore b.2)%float.
Proof. apply SubFacts.sub_positive. Qed.

(** The first entry after the sort of entries whose scores are numbers is
    one that none of them has a greater score than. *)
Lemma sort_head_in (l : list (string * Relation)) :
  Forall (λ e, isNaN (qualityScore e.2) = false) l ->
  match sort l with
  | [] => l = []
  | top :: _ =>
      top ∈ l ∧ ∀ e, e ∈ l -> (qualityScore top.2 <? qualityScore e.2)%float = false
  end.
Proof.
  induction 1 as [|a l Ha Hl IH]; [done |].
  unfold sort in *. cbn [foldr].
  destruct (foldr sort_insert [] l) as [|top rest] eqn:Hsort; cbn [sort_insert].
  - subst l. split; [by left |].
    intros e He. apply list_elem_of_singleton in He as ->.
    apply DoublesFacts.ltb_rank; [done | done | apply DoublesFacts.rank_le_refl].
  - destruct IH as [Htop Hmax].
    assert (Htn : isNaN (qualityScore top.2) = false).
    { exact (proj1 (list.Forall_forall _ _) Hl top Htop). }
    rewrite better_ltb by done.
    destruct (qualityScore a.2 <? qualityScore top.2)%float eqn:Hat.
    + split; [by right |]. intros e [->|He]%elem_of_cons; [| by apply Hmax].
      apply not_true_is_false. intros Hta.
      pose proof (DoublesFacts.ltb_trans _ _ _ Hat Hta) as Haa.
      apply not_false_iff_true in Haa. apply Haa.
      apply DoublesFacts.ltb_rank; [done | done | apply DoublesFacts.rank_le_refl].
    + split; [by left |]. intros e [->|He]%elem_of_cons.
      * apply DoublesFacts.ltb_rank; [done | done | apply DoublesFacts.rank_le_refl].
      * assert (Hen : isNaN (qualityScore e.2) = false).
        { exact (proj1 (list.Forall_forall _ _) Hl e He). }
        specialize (Hmax e He).
        apply DoublesFacts.ltb_rank in Hat; [| done | done].
        apply DoublesFacts.ltb_rank in Hmax; [| done | done].
        apply DoublesFacts.ltb_rank; [done | done |].
        by eapply DoublesFacts.rank_le_trans.
Qed.

Lemma primary_inv (relations : obj (obj Relation)) (personRelations : obj Relation) :
  primary relations = Some personRelations ->
  ∃ personId rest,
    Object_keys relations = personId :: rest
    ∧ obj_get relations personId = Some personRelations.
Proof.
  unfold primary. destruct (Object_keys relations) as [|personId rest]; [done |].
  intros H. by exists personId, rest.
Qed.

Lemma primary_none (relations : obj (obj Relation)) (st : page) :
  primary relations = None -> updateRecommendedCamera relations st = st.
Proof.
  unfold primary, updateRecommendedCamera.
  destruct (Object_keys relations) as [|personId rest]; [done |]. by intros ->.
Qed.

(** C2, as the code has it: with an empty table, and when no camera sees the
    first person of the table, the page is left as it was; otherwise, when
    the scores of the cameras that see that person are numbers, the page
    recommends one of these cameras, and none of them has a greater score. *)
Theorem recommendation_best_visible (relations : obj (obj Relation)) (st : page) :
  (∀ personRelations e,
     primary relations = Some personRelations ->
     e ∈ Object_entries personRelations -> isVisible e.2 = true ->
     (qualityScore e.2 =? qualityScore e.2)%float = true) ->
  match primary relations with
  | None => updateRecommendedCamera relations st = st
  | Some personRelations =>
      ((∀ e, e ∈ Object_entries personRelations -> isVisible e.2 = false)
       -> updateRecommendedCamera relations st = st)
      ∧ ((∃ e, e ∈ Object_entries personRelations ∧ isVisible e.2 = true)
         -> ∃ cameraId relation,
              recommendedCamera (updateRecommendedCamera relations st)
              = Some cameraId
              ∧ cameraRelations (updateRecommendedCamera relations st)
                = cameraRelations st
              ∧ (cameraId, relation) ∈ Object_entries personRelations
              ∧ isVisible relation = true
              ∧ ∀ e, e ∈ Object_entries personRelations -> isVisible e.2 = true ->
                     (qualityScore relation <? qualityScore e.2)%float = false)
  end.
Proof.
  intros Hnum.
  destruct (primary relations) as [personRelations|] eqn:Hprim;
    [| by apply primary_none].
  specialize (Hnum personRelations).
  apply primary_inv in Hprim as (personId & rest & Hkeys & Hget).
  unfold updateRecommendedCamera. rewrite Hkeys, Hget.
  unfold visibleCameras.
  set (seen := filter (λ e, isVisible e.2 = true) (Object_entries personRelations)).
  assert (Hseen : ∀ e, e ∈ seen <-> isVisible e.2 = true ∧ e ∈ Object_entries personRelations).
  { intros e. unfold seen. by rewrite list_elem_of_filter. }
  assert (Hall : Forall (λ e, isNaN (qualityScore e.2) = false) seen).
  { apply list.Forall_forall. intros e [Hv He]%Hseen. apply number_isNaN.
    by apply Hnum. }
  pose proof (sort_head_in seen Hall) as Hhead.
  split.
  - intros Hnone. destruct (sort seen) as [|top sorted]; [done |].
    destruct Hhead as [[Hv He]%Hseen _]. rewrite (Hnone top He) in Hv. done.
  - intros (e0 & He0 & Hv0).
    destruct (sort seen) as [|[cameraId relation] sorted].
    + assert (H0 : e0 ∈ seen) by (by apply Hseen). rewrite Hhead in H0.
      by apply elem_of_nil in H0.
    + destruct Hhead as [[Hv He]%Hseen Hmax].
      exists cameraId, relation. cbn [recommendedCamera cameraRelations fst].
      split; [done |]. split; [done |]. split; [done |]. split; [done |].
      intros e He' Hv'. apply (Hmax e). by apply Hseen.
Qed.

(** The scores of the two cameras of the examples: the camera in front of the
    person, which the person faces, has the cosine -1 and the angle score 0;
    the camera at the person's side has the greater score. *)
Lemma demo_scores :
  (λ kr, (kr.1, isVisible kr.2, qualityScore kr.2, angleScore kr.2, shotType kr.2))
    <$> Object_entries
          (personRelationsOf (pinhole demo_tan demo_nearVertical)
             (pinhole_project demo_tan demo_nearVertical) square_pow
             demo_cameras demo_person)
  = [("0"%string, true, 0.7, 0, Medium)%float;
     ("1"%string, true, 0.85, 0.5, Medium)%float].
Proof. by vm_compute. Qed.

Lemma recommendation_best_visible_witness :
  let relations :=
    relationsOf (pinhole demo_tan demo_nearVertical)
      (pinhole_project demo_tan demo_nearVertical) square_pow
      demo_cameras [demo_person] in
  (∀ personRelations e,
     primary relations = Some personRelations ->
     e ∈ Object_entries personRelations -> isVisible e.2 = true ->
     (qualityScore e.2 =? qualityScore e.2)%float = true)
  ∧ match primary relations with
    | None => updateRecommendedCamera relations stale_page = stale_page
    | Some personRelations =>
        ((∀ e, e ∈ Object_entries personRelations -> isVisible e.2 = false)
         -> updateRecommendedCamera relations stale_page = stale_page)
        ∧ ((∃ e, e ∈ Object_entries personRelations ∧ isVisible e.2 = true)
           -> ∃ cameraId relation,
                recommendedCamera (updateRecommendedCamera relations stale_page)
                = Some cameraId
                ∧ cameraRelations (updateRecommendedCamera relations stale_page)
                  = cameraRelations stale_page
                ∧ (cameraId, relation) ∈ Object_entries personRelations
                ∧ isVisible relation = true
                ∧ ∀ e, e ∈ Object_entries personRelations -> isVisible e.2 = true ->
                       (qualityScore relation <? qualityScore e.2)%float = false)
    end
  ∧ recommendedCamera (updateRecommendedCamera relations stale_page)
    = Some "1"%string.
Proof.
  cbv zeta.
  assert (Hnum :
    ∀ personRelations e,
      primary (relationsOf (pinhole demo_tan demo_nearVertical)
                 (pinhole_project demo_tan demo_nearVertical) square_pow
                 demo_cameras [demo_person]) = Some personRelations ->
      e ∈ Object_entries personRelations -> isVisible e.2 = true ->
      (qualityScore e.2 =? qualityScore e.2)%float = true).
  { intros personRelations e Hprim. vm_compute in Hprim.
    injection Hprim as <-. unfold Object_entries.
    intros [->|[->|[]%elem_of_nil]%elem_of_cons]%elem_of_cons _; reflexivity. }
  split; [exact Hnum |].
  split; [exact (recommendation_best_visible _ stale_page Hnum) | by vm_compute].
Defined.

(** With no camera that sees the person the recommendation is not reset: the
    page keeps the camera recommended before, here one the table does not
    even hold. *)
Lemma recommendation_kept_when_unseen :
  visible [("0"%string, unseen)] = []
  ∧ updateRecommendedCamera unseen_relations stale_page = stale_page
  ∧ recommendedCamera (updateRecommendedCamera unseen_relations stale_page)
    = Some "7"%string
  ∧ obj_get [("0"%string, unseen)] "7" = None.
Proof. by vm_compute. Qed.


Lemma quality_score_formula_witness :
  let camera := demo_camera 0 0 5 0 0 (-1) in
  let scores := written_scores demo_tan demo_nearVertical camera demo_person in
  (∀ x, square_pow x 2%float = (x * x)%float)
  ∧ NoDup (id <$> [demo_person])
  ∧ demo_person ∈ [demo_person]
  ∧ obj_get demo_cameras "0" = Some camera
  ∧ id demo_person ≠ "__proto__"%string
  ∧ "0"%string ≠ "__proto__"%string
  ∧ (the_distance scores, the_offset scores, the_angleScore scores,
     the_qualityScore scores) = (5, 0, 0, 0.7)%float
  ∧ ∃ personRelations relation,
      obj_get (relationsOf box_frustum (pinhole_project demo_tan demo_nearVertical)
                 square_pow demo_cameras [demo_person]) (id demo_person)
      = Some personRelations
      ∧ obj_get personRelations "0" = Some relation
      ∧ distance relation = the_distance scores
      ∧ centerOffset relation = the_offset scores
      ∧ angleScore relation = the_angleScore scores
      ∧ qualityScore relation = the_qualityScore scores.
Proof.
  cbv zeta.
  assert (Hpow : ∀ x, square_pow x 2%float = (x * x)%float) by reflexivity.
  assert (Hnd : NoDup (id <$> [demo_person])) by apply NoDup_singleton.
  assert (Hin : demo_person ∈ [demo_person]) by apply list_elem_of_here.
  assert (Hcam : obj_get demo_cameras "0" = Some (demo_camera 0 0 5 0 0 (-1)))
    by reflexivity.
  assert (Hp : id demo_person ≠ "__proto__"%string) by done.
  assert (Hc : "0"%string ≠ "__proto__"%string) by done.
  do 6 (split; [done |]). split; [by vm_compute |].
  exact (quality_score_formula demo_tan demo_nearVertical box_frustum square_pow
           demo_cameras [demo_person] demo_person "0" _ Hpow Hnd Hin Hcam Hp Hc).
Defined.


End RelationsFacts.

(** ** The tracking client *)

Module TrackingFacts.
Import Tracking.










(** The delays of the five retries, in milliseconds. *)
Lemma retry_delays :
  Qred <$> timeouts (run constructor five_failures)
  = [2000; 3000; 4500; 6750; 10125]%Q.
Proof. by vm_compute. Qed.

End TrackingFacts.

(** ** Loop counters *)

Module LoopsFacts.
Import JS JSFacts Loops.

Lemma ascending_weaken (lo lo' : Z) (l : list Z) :
  (lo' <= lo)%Z -> ascending lo l -> ascending lo' l.
Proof. destruct l; cbn; [done |]. intros ? [? ?]. split; [lia | done]. Qed.

Lemma ascending_bound (lo : Z) (l : list Z) (j : Z) :
  ascending lo l -> j ∈ l -> (lo <= j)%Z.
Proof.
  revert lo. induction l as [|i l IH]; intros lo; cbn; [by intros _ ?%elem_of_nil |].
  intros [Hi Hl] [->|Hj]%elem_of_cons; [done |].
  specialize (IH _ Hl Hj). lia.
Qed.

(** The entries of [xs] at increasing places are a sublist of [xs]. *)
Lemma sublist_picks {A : Type} (xs : list A) (l : list Z) :
  ∀ k : nat, ascending (Z.of_nat k) l -> sublist (picks xs l) (drop k xs).
Proof.
  unfold picks. induction l as [|i l IH]; intros k Hk; cbn [omap list_omap].
  { apply sublist_nil_l. }
  destruct Hk as [Hi Hl].
  assert (Htail : sublist (omap (fun i => xs !! Z.to_nat i) l) (drop (S (Z.to_nat i)) xs)).
  { apply IH. eapply ascending_weaken; [| exact Hl]. lia. }
  destruct (xs !! Z.to_nat i) as [a|] eqn:Ha.
  - replace (drop k xs)
      with (take (Z.to_nat i - k) (drop k xs) ++ a :: drop (S (Z.to_nat i)) xs).
    + apply sublist_inserts_l. by apply sublist_skip.
    + rewrite <- (take_drop (Z.to_nat i - k) (drop k xs)) at 2. f_equal.
      rewrite drop_drop. replace (k + (Z.to_nat i - k))%nat with (Z.to_nat i) by lia.
      by apply drop_S in Ha.
  - etrans; [exact Htail |].
    replace (S (Z.to_nat i)) with (k + (S (Z.to_nat i) - k))%nat by lia.
    rewrite <- drop_drop. apply sublist_drop.
Qed.

(** A loop that returns has run its body at increasing values of the
    counter, the first of them the initial one. *)
Lemma for_by_indices {A : Type} (body : A -> Z -> A) (n : Z) (step : xint) :
  ∀ (fuel : nat) (i : Z) (acc res : A),
    for_by fuel n step i body acc = Some res ->
    ∃ l : list Z,
      res = fold_left body l acc
      ∧ ascending i l
      ∧ (∀ j, j ∈ l -> (j < n)%Z)
      ∧ ((i < n)%Z -> ∃ l', l = i :: l').
Proof.
  induction fuel as [|fuel IH]; intros i acc res; cbn [for_by].
  - destruct (Z.ltb_spec i n); [done |]. intros [= <-].
    exists []. split; [done |]. split; [done |].
    split; [by intros j ?%elem_of_nil | lia].
  - destruct (Z.ltb_spec i n) as [Hi|Hi].
    + destruct step as [|[]|z].
      * intros [= <-]. exists [i]. split; [done |].
        split; [by cbn |].
        split; [intros j ->%list_elem_of_singleton; lia | eauto].
      * done.
      * intros [= <-]. exists [i]. split; [done |].
        split; [by cbn |].
        split; [intros j ->%list_elem_of_singleton; lia | eauto].
      * destruct (Z.le_gt_cases z 0) as [Hz|Hz].
        { destruct (Z.ltb_spec (i + z) n) as [Hlt|Hge].
          - by rewrite for_by_diverges.
          - lia. }
        intros (l & -> & Hasc & Hrange & _)%IH.
        exists (i :: l). split; [done |]. split.
        { cbn. split; [lia |]. eapply ascending_weaken; [| exact Hasc]. lia. }
        split; [| eauto].
        intros j [->|Hj]%elem_of_cons; [lia |]. by apply Hrange.
    + intros [= <-]. exists []. split; [done |]. split; [done |].
      split; [by intros j ?%elem_of_nil | lia].
Qed.

End LoopsFacts.

(** ** The sampler: what is kept *)

Module SamplerOrder.
Import JS JSFacts Sampler SamplerFacts Loops LoopsFacts.

(** The walk keeps points of the cloud, in their order. *)
Lemma walk_sublist (stride : xint) (pts : list cpoint) :
  ∀ (index : Z) (last : option cpoint), sublist (walk stride index last pts) pts.
Proof.
  induction pts as [|p pts IH]; intros index last; cbn [walk]; [done |].
  destruct (_ || _).
  - by apply sublist_skip.
  - by apply sublist_cons.
Qed.

(** In a cloud with colours every point has one, and in a cloud without
    none has. *)
Lemma annotate_colours cloud colors :
  Forall (fun p : cpoint => is_Some p.2 <-> is_Some colors) (annotate cloud colors).
Proof.
  apply Forall_forall. intros p Hp. apply list_elem_of_In in Hp.
  apply list_elem_of_lookup in Hp as [j Hj].
  destruct (lookup_annotate _ _ _ _ Hj) as [_ Hc].
  destruct colors as [cs|].
  - destruct Hc as (c & _ & ->). split; eauto.
  - rewrite Hc. split; intros [? ?]; done.
Qed.

Lemma omap_snd_coloured (kept : list cpoint) :
  Forall (fun p : cpoint => is_Some p.2) kept ->
  ∀ i p, kept !! i = Some p -> omap snd kept !! i = p.2.
Proof.
  induction 1 as [|q kept [c Hq] _ IH]; intros i p Hi; [done |].
  cbn [omap list_omap]. rewrite Hq. destruct i as [|i]; cbn in *.
  - by simplify_eq.
  - by apply IH.
Qed.

Lemma omap_snd_plain (kept : list cpoint) :
  Forall (fun p : cpoint => p.2 = None) kept -> omap snd kept = [].
Proof. induction 1 as [|q kept Hq _ IH]; [done |]. cbn. by rewrite Hq. Qed.

Lemma picks_cons {A : Type} (xs : list A) (i : Z) (l : list Z) (a : A) :
  xs !! Z.to_nat i = Some a -> picks xs (i :: l) = a :: picks xs l.
Proof. unfold picks. cbn. by intros ->. Qed.

(** The second loop copies the points at the values of its counter, with
    their colours. *)
Lemma pass2_picks (kept : list cpoint) (l : list Z) :
  (∀ j, j ∈ l -> (0 <= j < Z.of_nat (length kept))%Z) ->
  ∀ (pts : list float) (cols : option (list float)),
    (is_Some cols -> Forall (fun p : cpoint => is_Some p.2) kept) ->
    fold_left (pass2_body (flat (kept.*1)) (flat (omap snd kept))) l (pts, cols)
    = (pts ++ flat ((picks kept l).*1),
       (fun fc => fc ++ flat (omap snd (picks kept l))) <$> cols).
Proof.
  induction l as [|i l IH]; intros Hl pts cols Hcols; cbn [fold_left].
  { cbn. rewrite app_nil_r. destruct cols; cbn; [by rewrite app_nil_r | done]. }
  destruct (Hl i ltac:(by left)) as [Hi0 Hi].
  destruct (lookup_lt_is_Some_2 kept (Z.to_nat i) ltac:(lia)) as [p Hp].
  assert (Hbody :
    pass2_body (flat (kept.*1)) (flat (omap snd kept)) (pts, cols) i
    = (pts ++ flat [p.1], (fun fc => fc ++ flat (omap snd [p])) <$> cols)).
  { unfold pass2_body. cbv zeta. rewrite length_flat, length_fmap. unfold cpoint in *.
    replace (_ <? _)%Z with true by (symmetry; apply Z.ltb_lt; lia).
    cbn [fst snd]. f_equal.
    - f_equal.
      assert (Ht : triple (flat (kept.*1)) (Z.of_nat (Z.to_nat i) * 3) = p.1).
      { apply triple_flat. rewrite list_lookup_fmap. unfold cpoint in *. by rewrite Hp. }
      rewrite Z2Nat.id in Ht by lia. unfold triple in Ht.
      destruct p as [[[a b] c] pc]. cbn in *. by simplify_eq.
    - destruct cols as [fc|]; [| done]. cbn. f_equal. f_equal.
      pose proof (omap_snd_coloured kept (Hcols ltac:(eauto)) _ _ Hp) as Hc.
      destruct (Forall_lookup_1 _ _ _ _ (Hcols ltac:(eauto)) Hp) as [c Hpc].
      rewrite Hpc in Hc |- *. cbn.
      assert (Ht : triple (flat (omap snd kept)) (Z.of_nat (Z.to_nat i) * 3) = c)
        by (by apply triple_flat).
      rewrite Z2Nat.id in Ht by lia. unfold triple in Ht.
      destruct c as [[a b] d]. cbn in *. by simplify_eq. }
  rewrite Hbody, IH.
  - rewrite (picks_cons _ _ _ _ Hp). cbn [fmap list_fmap].
    f_equal.
    + rewrite <- app_assoc. f_equal.
    + destruct cols as [fc|]; [| done]. cbn. f_equal. rewrite <- app_assoc. f_equal.
      destruct (p.2); done.
  - intros j Hj. apply Hl. by right.
  - intros [fc Hfc]. apply Hcols. destruct cols; [eauto | done].
Qed.


Lemma first_pass_kept cloud colors density maxPoints :
  colours_match cloud colors ->
  let st := first_pass (flat cloud) (flat <$> colors)
                       (sampling_interval (flat cloud) density maxPoints) in
  ∃ kept : list cpoint,
    sublist kept (annotate cloud colors)
    ∧ sampledPointsArray st = flat (kept.*1)
    ∧ sampledColorsArray st = flat (omap snd kept).
Proof.
  intros Hcol. cbn zeta.
  exists (walk (sampling_interval (flat cloud) density maxPoints) 0 None
                    (annotate cloud colors)).
  split; [apply walk_sublist |].
  unfold first_pass. rewrite thirds_flat, <- (length_annotate _ _ Hcol).
  by apply (first_pass_walk cloud colors _ Hcol (annotate cloud colors) 0 pass1_init None).
Qed.

Lemma length_colours (kept : list cpoint) (colors : option (list vec3)) :
  Forall (fun p : cpoint => is_Some p.2 <-> is_Some colors) kept ->
  (0 <? length (flat (omap snd kept)))%nat
  = match colors, kept with
    | Some _, _ :: _ => true
    | _, _ => false
    end.
Proof.
  intros Hall. destruct colors as [cs|].
  - destruct Hall as [|p kept [_ Hp] _]; [done |].
    destruct (Hp ltac:(eauto)) as [c Hc]. cbn. by rewrite Hc.
  - rewrite omap_snd_plain; [by destruct kept |].
    eapply list.Forall_impl; [exact Hall |]. cbn. intros p [Hp _].
    destruct (p.2); [| done]. by destruct (Hp ltac:(eauto)).
Qed.

Lemma samplePoints_kept cloud colors density maxPoints sp sc :
  colours_match cloud colors ->
  samplePoints (flat cloud) (flat <$> colors) density maxPoints = Some (sp, sc) ->
  ∃ kept : list cpoint,
    sublist kept (annotate cloud colors)
    ∧ sp = flat (kept.*1)
    ∧ sc = match colors, kept with
           | Some _, _ :: _ => Some (flat (omap snd kept))
           | _, _ => None
           end.
Proof.
  intros Hcol. unfold samplePoints.
  destruct (first_pass_kept cloud colors density maxPoints Hcol)
    as (kept1 & Hsub1 & -> & ->).
  assert (Hall1 : Forall (fun p : cpoint => is_Some p.2 <-> is_Some colors) kept1).
  { apply list.Forall_forall. intros p Hp.
    pose proof (annotate_colours cloud colors) as Hall.
    rewrite list.Forall_forall in Hall. apply Hall. by eapply elem_of_sublist. }
  rewrite (length_colours _ _ Hall1).
  destruct (gt _ _).
  - intros (l & Hres & Hasc & Hrange & Hfirst)%for_by_indices.
    rewrite thirds_flat, length_fmap in Hrange, Hfirst.
    assert (Hl : ∀ j, j ∈ l -> (0 <= j < Z.of_nat (length kept1))%Z).
    { intros j Hj. split; [by eapply ascending_bound | by apply Hrange]. }
    rewrite (pass2_picks kept1 l Hl) in Hres.
    2:{ intros Hsome. eapply list.Forall_impl; [exact Hall1 |]. cbn. intros p [_ Hp].
        apply Hp. destruct colors; [eauto |]. by destruct kept1, Hsome. }
    exists (picks kept1 l). split.
    { etrans; [| exact Hsub1]. by apply (sublist_picks kept1 l 0). }
    simplify_eq. split; [reflexivity |].
    destruct colors as [cs|]; [| done].
    destruct kept1 as [|p kept1].
    { destruct l as [|j l]; [done |]. specialize (Hl j ltac:(by left)). cbn in Hl. lia. }
    destruct (Hfirst ltac:(cbn [length]; lia)) as [l' ->].
    by rewrite (picks_cons (p :: kept1) 0 l' p).
  - intros [= <- <-]. exists kept1. split; [done |]. split; [done |].
    by destruct colors, kept1.
Qed.

(** X1: the buffers returned hold a selection of the cloud's points in their
    order, each coordinate rounded to the nearest binary32 number, and the
    colour buffer, when there is one, holds the colours of the same points
    in the same order, rounded likewise: the sampler does not move or repeat
    a point. *)
Theorem sample_keeps_order cloud colors density maxPoints sp sc :
  colours_match cloud colors ->
  samplePoints (flat cloud) (flat <$> colors) density maxPoints = Some (sp, sc) ->
  ∃ kept : list cpoint,
    sublist kept (annotate cloud colors)
    ∧ returned (sp, sc)
      = (Math_fround <$> flat (kept.*1),
         match colors, kept with
         | Some _, _ :: _ => Some (Math_fround <$> flat (omap snd kept))
         | _, _ => None
         end).
Proof.
  intros Hcol Hres.
  destruct (samplePoints_kept _ _ _ _ _ _ Hcol Hres) as (kept & Hsub & -> & ->).
  exists kept. split; [done |]. unfold returned, Float32Array. cbn [fst snd].
  f_equal. by destruct colors, kept.
Qed.

Lemma sample_keeps_order_witness :
  colours_match demo_cloud (Some demo_colors)
  ∧ samplePoints (flat [(0.1, 0, 0); (0.1, 0, 0); (1, 0, 0.3)]%float)
      (flat <$> Some demo_colors) 0.5 100
    = Some ([0.1; 0; 0; 1; 0; 0.3]%float, Some [1; 0; 0; 1; 0; 0]%float)
  ∧ ∃ kept : list cpoint,
      sublist kept (annotate [(0.1, 0, 0); (0.1, 0, 0); (1, 0, 0.3)]%float
                      (Some demo_colors))
      ∧ ([0.10000000149011612; 0; 0; 1; 0; 0.30000001192092896]%float,
         Some [1; 0; 0; 1; 0; 0]%float)
        = (Math_fround <$> flat (kept.*1),
           match Some demo_colors, kept with
           | Some _, _ :: _ => Some (Math_fround <$> flat (omap snd kept))
           | _, _ => None
           end).
Proof.
  split; [cbn; lia |].
  assert (Hres :
    samplePoints (flat [(0.1, 0, 0); (0.1, 0, 0); (1, 0, 0.3)]%float)
      (flat <$> Some demo_colors) 0.5 100
    = Some ([0.1; 0; 0; 1; 0; 0.3]%float, Some [1; 0; 0; 1; 0; 0]%float))
    by (by vm_compute).
  split; [exact Hres |].
  exact (sample_keeps_order [(0.1, 0, 0); (0.1, 0, 0); (1, 0, 0.3)]%float
           (Some demo_colors) 0.5 100 _ _ ltac:(cbn; lia) Hres).
Defined.

(** *** Colours shorter than the points

    With fewer colour components than coordinates no colour is copied and
    none is compared: the sample is the one of the cloud without colours. *)

Lemma pass1_body_short points cs interval st i :
  (length cs < length points)%nat ->
  lastColor st = None ->
  pass1_body points (Some cs) interval st i = pass1_body points None interval st i
  ∧ lastColor (pass1_body points None interval st i) = None.
Proof.
  intros Hshort Hlast. unfold pass1_body, isImportant, keep. rewrite Hlast.
  destruct (Nat.leb_spec (length points) (length cs)); [lia |].
  destruct (_ <? _)%Z; [| done].
  destruct (lastPoint st); by destruct (_ || _).
Qed.

Lemma first_pass_short points cs interval (l : list Z) st :
  (length cs < length points)%nat ->
  lastColor st = None ->
  fold_left (pass1_body points (Some cs) interval) l st
  = fold_left (pass1_body points None interval) l st.
Proof.
  intros Hshort. revert st. induction l as [|i l IH]; intros st Hlast; [done |].
  cbn [fold_left].
  destruct (pass1_body_short points cs interval st i Hshort Hlast) as [-> Hlast'].
  by apply IH.
Qed.

(** X2: a colour array shorter than the point array is not used: no colour is
    copied, no colour difference makes a point important, and the sample is
    the one of the cloud without colours. *)
Theorem short_colours_ignored points cs density maxPoints :
  (length cs < length points)%nat ->
  samplePoints points (Some cs) density maxPoints
  = samplePoints points None density maxPoints.
Proof.
  intros Hshort. unfold samplePoints, first_pass.
  by rewrite (first_pass_short points cs _ _ pass1_init Hshort).
Qed.

Lemma short_colours_ignored_witness :
  (length [1; 0; 0]%float < length (flat demo_cloud))%nat
  ∧ samplePoints (flat demo_cloud) (Some [1; 0; 0]%float) 0.25 2
    = samplePoints (flat demo_cloud) None 0.25 2.
Proof.
  split; [cbn; lia |]. apply short_colours_ignored. cbn. lia.
Defined.

End SamplerOrder.

(** ** The outline extractor: the grid and the sample *)

Module VoxelsFacts.
Import JS JSFacts Sampler Outline OutlineFacts Loops LoopsFacts Voxels.

(** *** The sample of the edge voxels *)

(** The sampling loop copies the edge voxels at the values of its counter. *)
Lemma sample_body_picks (edges : list voxel) (l : list Z) :
  (∀ j, j ∈ l -> (0 <= j < Z.of_nat (length edges))%Z) ->
  ∀ acc, fold_left (sample_body edges) l acc = acc ++ picks edges l.
Proof.
  unfold picks. induction l as [|i l IH]; intros Hl acc; cbn [fold_left omap list_omap].
  { by rewrite app_nil_r. }
  destruct (Hl i ltac:(by left)) as [Hi0 Hi].
  rewrite IH by (intros j Hj; apply Hl; by right).
  unfold sample_body. destruct (Z.ltb_spec i (Z.of_nat (length edges))); [| lia].
  destruct (edges !! Z.to_nat i); [by rewrite <- app_assoc | done].
Qed.

Lemma picks_seqZ {A : Type} (xs pre : list A) :
  picks (pre ++ xs) (seqZ (Z.of_nat (length pre)) (Z.of_nat (length xs))) = xs.
Proof.
  unfold picks. revert pre. induction xs as [|a xs IH]; intros pre; [done |].
  rewrite seqZ_cons by (cbn [length]; lia). cbn [omap list_omap].
  rewrite Nat2Z.id, list_lookup_middle by done. f_equal.
  replace (Z.succ (Z.of_nat (length pre))) with (Z.of_nat (length (pre ++ [a])))
    by (rewrite length_app; cbn; lia).
  replace (Z.pred (Z.of_nat (length (a :: xs)))) with (Z.of_nat (length xs))
    by (cbn [length]; lia).
  rewrite (cons_middle a pre xs), app_assoc. apply IH.
Qed.

Lemma strided_unit (n : Z) : strided 0 1 n = seqZ 0 n.
Proof.
  unfold strided. rewrite <- (list_fmap_id (seqZ 0 n)) at 2.
  apply list_fmap_ext. intros _ j _. cbn. lia.
Qed.

Lemma rounds_below_twice (n q : Z) :
  (5000 < n)%Z -> q = (n / 5000)%Z -> (rounds n q 0 < 10000)%Z.
Proof.
  intros Hn ->. unfold rounds. destruct (Z.ltb_spec 0 n); [| lia].
  pose proof (Z.div_mod n 5000 ltac:(lia)) as Hdiv.
  pose proof (Z.mod_pos_bound n 5000 ltac:(lia)) as Hmod.
  assert (1 <= n / 5000)%Z by (apply Z.div_le_lower_bound; lia).
  apply Z.div_lt_upper_bound; nia.
Qed.

Lemma edge_sample_bounds_aux (edges : list voxel) :
  ∃ sampled : list voxel, sampledEdges edges = Some sampled ∧ sublist sampled edges.
Proof.
  destruct (sampledEdges_count edges) as (sampled & Hs & _ & _).
  exists sampled. split; [done |].
  unfold sampledEdges in Hs.
  apply for_by_indices in Hs as (l & Hres & Hasc & Hrange & _).
  rewrite sample_body_picks in Hres.
  - rewrite Hres. by apply (sublist_picks edges l 0).
  - intros j Hj. split; [by eapply ascending_bound | by apply Hrange].
Qed.

(** X3: the sample holds the edge voxels in their order, all of them up to 5000
    and fewer than 10000 of them whatever their number. *)
Theorem edge_sample_below_twice_cap (edges : list voxel) :
  ∃ sampled : list voxel,
    sampledEdges edges = Some sampled
    ∧ sublist sampled edges
    ∧ (Z.of_nat (length sampled) < 10000)%Z
    ∧ ((Z.of_nat (length edges) <= 5000)%Z -> sampled = edges).
Proof.
  destruct (sampledEdges_count edges) as (sampled & Hs & _ & Hlen).
  exists sampled. split; [done |].
  pose proof Hs as Hs'. unfold sampledEdges in Hs'.
  apply for_by_indices in Hs' as (l & Hres & Hasc & Hrange & _).
  assert (Hl : ∀ j, j ∈ l -> (0 <= j < Z.of_nat (length edges))%Z).
  { intros j Hj. split; [by eapply ascending_bound | by apply Hrange]. }
  rewrite (sample_body_picks edges l Hl) in Hres. cbn [app] in Hres.
  split; [rewrite Hres; by apply (sublist_picks edges l 0) |].
  cbn zeta in Hlen.
  destruct (Z.le_gt_cases (Z.of_nat (length edges)) 5000) as [Hsmall|Hbig].
  - assert (Hstep : Z.max 1 (Z.of_nat (length edges)
                             / Z.min (Z.of_nat (length edges)) 5000) = 1%Z).
    { rewrite Z.min_l by lia.
      destruct (Z.eq_dec (Z.of_nat (length edges)) 0%Z) as [->|Hne]; [done |].
      rewrite Z.div_same by done. done. }
    rewrite Hstep in Hlen.
    assert (Hr : rounds (Z.of_nat (length edges)) 1 0 = Z.of_nat (length edges)).
    { unfold rounds. destruct (Z.ltb_spec 0 (Z.of_nat (length edges))); [| lia].
      rewrite Z.div_1_r. lia. }
    rewrite Hr in Hlen. split; [lia |]. intros _.
    destruct (Nat.eq_dec (length edges) 0) as [H0|Hpos].
    { destruct edges; [| done]. destruct sampled; [done | cbn in Hlen; lia]. }
    unfold sampledEdges in Hs. rewrite samplingStep_pos in Hs by lia.
    rewrite Hstep, for_by_strided in Hs by lia.
    rewrite Hr, strided_unit in Hs.
    rewrite sample_body_picks in Hs.
    + cbn [app] in Hs. pose proof (picks_seqZ edges []) as Hall.
      cbn [app length] in Hall. change (Z.of_nat 0) with 0%Z in Hall.
      rewrite Hall in Hs. by simplify_eq.
    + intros j Hj. apply elem_of_seqZ in Hj. lia.
  - split; [| lia].
    rewrite Z.min_r, Z.max_r in Hlen by
      (try lia; assert (1 <= Z.of_nat (length edges) / 5000)%Z
         by (apply Z.div_le_lower_bound; lia); lia).
    pose proof (rounds_below_twice (Z.of_nat (length edges)) _ Hbig eq_refl). lia.
Qed.


(** *** The voxel grid *)

Lemma grid_add_voxels (cloud : list vec3) (g : grid) (k : vkey) (p : vec3) :
  p ∈ cloud -> voxels_of cloud g -> voxels_of cloud (grid_add g k p.1.1 p.1.2 p.2).
Proof.
  intros Hp (Hnd & Hdom & Hrep). unfold grid_add, voxels_of.
  destruct (cells g !! k) as [v|] eqn:Hk; cbn [cells keys].
  - split; [done |]. split.
    + intros k'. rewrite Hdom. destruct (decide (k' = k)) as [->|Hne].
      * rewrite Hk, lookup_insert_eq. split; eauto.
      * by rewrite lookup_insert_ne.
    + intros k' v'. destruct (decide (k' = k)) as [->|Hne].
      * rewrite lookup_insert_eq. intros [= <-]. by apply (Hrep k v).
      * rewrite lookup_insert_ne by done. apply Hrep.
  - assert (Hfresh : k ∉ keys g).
    { rewrite Hdom, Hk. by intros [? ?]. }
    split.
    { apply list.NoDup_app. split; [done |]. split; [| apply NoDup_singleton].
      intros k' Hk' ->%list_elem_of_singleton. done. }
    split.
    + intros k'. rewrite elem_of_app, list_elem_of_singleton, Hdom.
      destruct (decide (k' = k)) as [->|Hne].
      * rewrite lookup_insert_eq. split; eauto.
      * rewrite lookup_insert_ne by done. split; [by intros [?|?] | eauto].
    + intros k' v'. destruct (decide (k' = k)) as [->|Hne].
      * rewrite lookup_insert_eq. intros [= <-]. by destruct p as [[a b] c].
      * rewrite lookup_insert_ne by done. apply Hrep.
Qed.

Lemma pointsCounted_insert (m : gmap vkey voxel) (k : vkey) (v : voxel) :
  m !! k = None ->
  map_fold (fun _ v n => (count v + n)%Z) 0%Z (<[k := v]> m)
  = (count v + map_fold (fun _ v n => (count v + n)%Z) 0%Z m)%Z.
Proof.
  intros Hk. apply (map_fold_insert_L (fun _ v n => (count v + n)%Z)); [| done].
  intros. lia.
Qed.

Lemma grid_add_counted (g : grid) (k : vkey) (a b c : float) :
  pointsCounted (grid_add g k a b c) = (pointsCounted g + 1)%Z.
Proof.
  unfold pointsCounted, grid_add.
  destruct (cells g !! k) as [v|] eqn:Hk; cbn [cells].
  - rewrite <- (insert_delete_id (cells g) k v Hk) at 2.
    rewrite <- insert_delete_eq.
    rewrite !pointsCounted_insert by apply lookup_delete_eq. cbn. lia.
  - rewrite pointsCounted_insert by done. cbn. lia.
Qed.

Lemma grid_add_keys (g : grid) (k : vkey) (a b c : float) :
  (length (keys (grid_add g k a b c)) <= S (length (keys g)))%nat.
Proof.
  unfold grid_add. destruct (cells g !! k); cbn [keys]; [lia |].
  rewrite length_app. cbn. lia.
Qed.

Lemma grid_of_flat (cloud : list vec3) (seen : list vec3) :
  ∀ g : grid,
    seen ⊆ cloud -> voxels_of cloud g ->
    voxels_of cloud (grid_of (flat seen) g)
    ∧ pointsCounted (grid_of (flat seen) g)
      = (pointsCounted g + Z.of_nat (length seen))%Z
    ∧ (length (keys (grid_of (flat seen) g)) <= length (keys g) + length seen)%nat.
Proof.
  induction seen as [|p seen IH]; intros g Hsub Hg.
  { cbn. split; [done |]. split; lia. }
  destruct p as [[a b] c]. cbn [flat flat_map app fst snd grid_of].
  fold (flat seen).
  set (k := (Math_floor (a / voxelSize), Math_floor (b / voxelSize),
             Math_floor (c / voxelSize))).
  destruct (IH (grid_add g k a b c)) as (Hv & Hc & Hk).
  - intros q Hq. apply Hsub. by right.
  - apply (grid_add_voxels cloud g k (a, b, c)); [| done]. apply Hsub. by left.
  - split; [done |]. rewrite Hc, grid_add_counted.
    pose proof (grid_add_keys g k a b c). cbn [length]. split; lia.
Qed.

Lemma voxelGrid_flat (cloud : list vec3) :
  let g := voxelGrid (flat cloud) in
  voxels_of cloud g
  ∧ pointsCounted g = Z.of_nat (length cloud)
  ∧ (length (keys g) <= length cloud)%nat.
Proof.
  cbn zeta. rewrite voxelGrid_walk.
  destruct (grid_of_flat cloud cloud grid_empty) as (Hv & Hc & Hk).
  - done.
  - split; [apply NoDup_nil_2 |]. split.
    + intros k. cbn. rewrite lookup_empty. split; [by intros ?%elem_of_nil |].
      by intros [? ?].
    + intros k v. cbn. by rewrite lookup_empty.
  - split; [done |]. split; [| done]. rewrite Hc. unfold pointsCounted. cbn.
    by rewrite map_fold_empty.
Qed.

(** X4: every point of the cloud is counted in one voxel, and [Object.keys]
    lists each voxel once: there are no more voxels than points. *)
Theorem voxel_counts_add_up (cloud : list vec3) :
  let g := voxelGrid (flat cloud) in
  pointsCounted g = Z.of_nat (length cloud)
  ∧ NoDup (keys g)
  ∧ (∀ k, k ∈ keys g <-> is_Some (cells g !! k))
  ∧ (length (keys g) <= length cloud)%nat.
Proof.
  destruct (voxelGrid_flat cloud) as ((Hnd & Hdom & _) & Hc & Hk). done.
Qed.

Lemma edgeVoxels_cells (g : grid) (v : voxel) :
  v ∈ edgeVoxels g -> ∃ k, cells g !! k = Some v.
Proof.
  unfold edgeVoxels. rewrite list_elem_of_omap. intros (k & _ & Hk).
  exists k. by destruct (0 <? _)%nat.
Qed.

Lemma edgeVoxels_length (g : grid) : (length (edgeVoxels g) <= length (keys g))%nat.
Proof.
  unfold edgeVoxels. induction (keys g) as [|k ks IH]; cbn [omap list_omap length]; [done |].
  destruct (if (0 <? _)%nat then _ else _); cbn [length]; lia.
Qed.

Lemma ends_sampled (sampled : list voxel) (l : list (voxel * voxel)) (v : voxel) :
  Forall (fun ab => ab.1 ∈ sampled ∧ ab.2 ∈ sampled
                    ∧ (dist2 ab.1 ab.2 <? threshold)%float = true) l ->
  v ∈ ends l -> v ∈ sampled.
Proof.
  intros Hl Hv. unfold ends in Hv. apply list_elem_of_In, in_flat_map in Hv.
  destruct Hv as ([a b] & Hab & Hv).
  rewrite list.Forall_forall in Hl. apply list_elem_of_In in Hab.
  destruct (Hl _ Hab) as (Ha & Hb & _).
  cbn in Hv. destruct Hv as [<-|[<-|[]]]; done.
Qed.

Lemma outlineVertices_cloud (cloud : list vec3) :
  ∃ buffer : list float,
    outlineVertices (flat cloud) = Some buffer
    ∧ Forall (fun p => p ∈ cloud) (endpoints buffer).
Proof.
  destruct (sampledEdges_count (edgeVoxels (voxelGrid (flat cloud))))
    as (sampled & Hs & Hsub & _).
  exists (vertices (stitchEdges sampled)).
  split; [unfold outlineVertices; by rewrite Hs |].
  destruct (stitchEdges_ok sampled) as (l & Hv & Hl & _ & _).
  destruct (voxelGrid_flat cloud) as ((_ & _ & Hrep) & _ & _).
  rewrite Hv, endpoints_segment_buffer.
  apply Forall_fmap, list.Forall_forall. intros v Hin. cbn.
  apply (ends_sampled sampled l v Hl), Hsub, edgeVoxels_cells in Hin as [k Hk].
  by apply (Hrep k v).
Qed.

(** The vertices of a buffer stored as binary32 numbers. *)
Lemma endpoints_fround (n : nat) :
  ∀ buffer : list float,
    (length buffer <= n)%nat ->
    endpoints (Math_fround <$> buffer)
    = (fun p : vertex => (Math_fround p.1.1, Math_fround p.1.2, Math_fround p.2))
        <$> endpoints buffer.
Proof.
  induction n as [n IH] using lt_wf_ind. intros [|a [|b [|c rest]]] Hn; try done.
  cbn [fmap list_fmap endpoints fst snd]. f_equal.
  apply (IH (length rest)); cbn [length] in *; lia.
Qed.

(** X5: every vertex of the [position] attribute of the outline is a point
    of the cloud with its coordinates rounded to the nearest binary32
    numbers. *)
Theorem outline_vertices_from_cloud (cloud : list vec3) :
  ∃ buffer : list float,
    positionAttribute (flat cloud) = Some buffer
    ∧ Forall (fun v : vertex =>
                ∃ p, p ∈ cloud
                     ∧ v = (Math_fround p.1.1, Math_fround p.1.2, Math_fround p.2))
             (endpoints buffer).
Proof.
  destruct (outlineVertices_cloud cloud) as (buffer & Hbuffer & Hall).
  exists (Float32Array buffer). unfold positionAttribute. rewrite Hbuffer.
  split; [done |]. unfold Float32Array.
  rewrite (endpoints_fround (length buffer)) by done.
  apply Forall_fmap. eapply list.Forall_impl; [exact Hall |].
  intros p Hp. by exists p.
Qed.

Lemma length_ends (l : list (voxel * voxel)) : length (ends l) = (2 * length l)%nat.
Proof. unfold ends. induction l as [|ab l IH]; cbn in *; lia. Qed.

Lemma length_segment_buffer (l : list (voxel * voxel)) :
  length (segment_buffer l) = (6 * length l)%nat.
Proof. unfold segment_buffer. induction l as [|ab l IH]; cbn in *; lia. Qed.

(** X6: a voxel ends at most one segment, so there are at most half as many
    segments as voxels, and as points: a cloud inside one voxel has no
    outline. *)
Theorem outline_segment_count (cloud : list vec3) :
  ∃ buffer : list float,
    outlineVertices (flat cloud) = Some buffer
    ∧ length buffer = (6 * length (segments (endpoints buffer)))%nat
    ∧ (2 * length (segments (endpoints buffer))
       <= length (keys (voxelGrid (flat cloud))))%nat
    ∧ (length (keys (voxelGrid (flat cloud))) <= length cloud)%nat.
Proof.
  destruct (edge_sample_bounds_aux (edgeVoxels (voxelGrid (flat cloud))))
    as (sampled & Hs & Hsub).
  exists (vertices (stitchEdges sampled)).
  split; [unfold outlineVertices; by rewrite Hs |].
  destruct (stitchEdges_ok sampled) as (l & Hv & Hl & Hnd & _).
  destruct (voxelGrid_flat cloud) as (_ & _ & Hk).
  rewrite Hv, endpoints_segment_buffer, segments_ends, length_fmap,
    length_segment_buffer.
  split; [done |]. split; [| done].
  assert (Hends : (length (ends l) <= length sampled)%nat).
  { apply submseteq_length, NoDup_submseteq.
    - by eapply NoDup_fmap_1.
    - intros v Hin. by apply (ends_sampled sampled l v Hl). }
  rewrite length_ends in Hends.
  pose proof (sublist_length _ _ Hsub).
  pose proof (edgeVoxels_length (voxelGrid (flat cloud))). lia.
Qed.

End VoxelsFacts.

(** ** The stitch: the nearest voxel *)

Module NearestFacts.
Import JS Outline OutlineFacts Doubles DoublesFacts Nearest.







(** The segment of the example goes to the third voxel. *)
Lemma row_sample_segment :
  vertices (stitch_body row_sample (Stitch ∅ []) 0) = [0; 0; 0; 0.1; 0; 0]%float.
Proof. by vm_compute. Qed.

End NearestFacts.

(** ** The ranking of the cameras *)

Module RankingFacts.
Import JS Relations RelationsFacts.

Lemma sort_insert_perm (a : string * Relation) (l : list (string * Relation)) :
  sort_insert a l ≡ₚ a :: l.
Proof.
  induction l as [|b l IH]; cbn [sort_insert]; [done |].
  destruct (better a b); [| done].
  rewrite IH. apply Permutation_swap.
Qed.

Lemma sort_perm (l : list (string * Relation)) : sort l ≡ₚ l.
Proof.
  unfold sort. induction l as [|a l IH]; cbn [foldr]; [done |].
  by rewrite sort_insert_perm, IH.
Qed.

(** The entry [sort] puts first stands, in the array sorted, behind entries
    that the comparator puts behind it only. *)
Lemma sort_head_first (l : list (string * Relation)) (top : string * Relation)
    (rest : list (string * Relation)) :
  sort l = top :: rest ->
  ∃ l1 l2, l = l1 ++ top :: l2 ∧ ∀ e, e ∈ l1 -> better e top = true.
Proof.
  revert top rest. unfold sort.
  induction l as [|a l IH]; intros top rest; cbn [foldr]; [done |].
  destruct (foldr sort_insert [] l) as [|h t] eqn:Hsort; cbn [sort_insert].
  - intros [= <- <-]. exists [], l. split; [done |]. by intros e ?%elem_of_nil.
  - destruct (better a h) eqn:Hah.
    + intros [= <- <-]. destruct (IH h t eq_refl) as (l1 & l2 & -> & Hl1).
      exists (a :: l1), l2. split; [done |].
      intros e [->|He]%elem_of_cons; [done | by apply Hl1].
    + intros [= <- <-]. exists [], l. split; [done |]. by intros e ?%elem_of_nil.
Qed.

(** X7: the ranking holds the cameras that see the person, each as often as
    the row does: [sort] loses none and repeats none. *)
Theorem ranking_is_the_visible_cameras (personRelations : obj Relation) :
  visibleCameras personRelations ≡ₚ visible personRelations
  ∧ ∀ cameraId relation,
      (cameraId, relation) ∈ visibleCameras personRelations
      <-> (cameraId, relation) ∈ Object_entries personRelations
          ∧ isVisible relation = true.
Proof.
  unfold visibleCameras, visible. split; [apply sort_perm |].
  intros cameraId relation. rewrite sort_elem, list_elem_of_filter. cbn. tauto.
Qed.

(** X8: ties go to the camera that comes first in the order of the keys.
    When the scores of the cameras that see the first person are numbers,
    the recommended camera stands, in the person's row, behind visible
    cameras of a smaller score only, and no visible camera behind it has a
    greater score. *)
Theorem recommendation_breaks_ties_by_order (relations : obj (obj Relation))
    (st : page) (personRelations : obj Relation) :
  primary relations = Some personRelations ->
  Forall (λ e, (qualityScore e.2 =? qualityScore e.2)%float = true)
         (visible personRelations) ->
  match visible personRelations with
  | [] => updateRecommendedCamera relations st = st
  | _ :: _ =>
      ∃ top before after,
        recommendedCamera (updateRecommendedCamera relations st) = Some top.1
        ∧ visible personRelations = before ++ top :: after
        ∧ (∀ e, e ∈ before ->
                (qualityScore e.2 <? qualityScore top.2)%float = true)
        ∧ (∀ e, e ∈ after ->
                (qualityScore top.2 <? qualityScore e.2)%float = false)
  end.
Proof.
  intros (personId & keys & Hkeys & Hrow)%primary_inv Hnum.
  assert (Hall : Forall (λ e, isNaN (qualityScore e.2) = false)
                        (visible personRelations)).
  { eapply list.Forall_impl; [exact Hnum |]. intros e. by apply number_isNaN. }
  unfold updateRecommendedCamera. rewrite Hkeys, Hrow.
  unfold visibleCameras. fold (visible personRelations).
  pose proof (sort_head_in _ Hall) as Hhead.
  destruct (sort (visible personRelations)) as [|top rest] eqn:Htop.
  - by rewrite Hhead.
  - destruct Hhead as [Hin Hmax].
    pose proof (sort_head_first _ _ _ Htop) as (before & after & Heq & Hbefore).
    destruct (visible personRelations) as [|e0 l0] eqn:Hvis.
    + by destruct before.
    + exists top, before, after. cbn [recommendedCamera].
      split; [done |]. split; [done |].
      rewrite list.Forall_forall in Hall.
      split.
      * intros e He. rewrite <- better_ltb.
        -- by apply Hbefore.
        -- apply Hall. rewrite Heq. apply elem_of_app. by left.
        -- by apply Hall.
      * intros e He. apply Hmax. rewrite Heq. apply elem_of_app. right. by right.
Qed.

(** Of three cameras that see the person, the last two with the same score,
    the second is recommended. *)
Lemma recommendation_breaks_ties_by_order_witness :
  primary tied_relations = Some tied_row
  ∧ Forall (λ e, (qualityScore e.2 =? qualityScore e.2)%float = true)
           (visible tied_row)
  ∧ recommendedCamera (updateRecommendedCamera tied_relations stale_page)
    = Some "b"%string
  ∧ match visible tied_row with
    | [] => updateRecommendedCamera tied_relations stale_page = stale_page
    | _ :: _ =>
        ∃ top before after,
          recommendedCamera (updateRecommendedCamera tied_relations stale_page)
          = Some top.1
          ∧ visible tied_row = before ++ top :: after
          ∧ (∀ e, e ∈ before ->
                  (qualityScore e.2 <? qualityScore top.2)%float = true)
          ∧ (∀ e, e ∈ after ->
                  (qualityScore top.2 <? qualityScore e.2)%float = false)
    end.
Proof.
  assert (Hprim : primary tied_relations = Some tied_row) by reflexivity.
  assert (Hnum :
    Forall (λ e : string * Relation,
              (qualityScore e.2 =? qualityScore e.2)%float = true)
           (visible tied_row)).
  { apply list.Forall_forall.
    intros e [->|[->|[->|[]%elem_of_nil]%elem_of_cons]%elem_of_cons]%elem_of_cons;
      reflexivity. }
  split; [exact Hprim |]. split; [exact Hnum |]. split; [by vm_compute |].
  exact (recommendation_breaks_ties_by_order tied_relations stale_page tied_row
           Hprim Hnum).
Defined.

End RankingFacts.

(** ** The table of relations and the panel *)

Module PanelFacts.
Import JS Relations RelationsFacts Panel.

(** *** Objects: the entries after a write *)

Lemma obj_insert_entries {A : Type} (o : obj A) (k : string) (v : A) (e : string * A) :
  e ∈ obj_insert o k v <-> e = (k, v) ∨ e ∈ o.
Proof.
  induction o as [|[k0 v0] o IH]; cbn [obj_insert].
  - rewrite list_elem_of_singleton. split; [by left | intros [?|?%elem_of_nil]; done].
  - destruct (array_index k) as [n|], (array_index k0) as [n0|];
      [destruct (n <? n0)%N | | |]; rewrite ?elem_of_cons, ?IH; tauto.
Qed.

Lemma obj_set_entries {A : Type} (o : obj A) (k : string) (v : A) (e : string * A) :
  e ∈ obj_set o k v -> e = (k, v) ∨ e ∈ o.
Proof.
  unfold obj_set. case_decide.
  - intros ([k0 v0] & -> & Hin)%list_elem_of_fmap. cbn.
    case_decide; [by left | by right].
  - rewrite obj_insert_entries. tauto.
Qed.



Section Table.
Variable frustumOf : PerspectiveCamera -> Frustum.
Variable project : PerspectiveCamera -> Vector3 -> Vector3.
Variable Math_pow : float -> float -> float.

Local Abbreviation relationOf := (relationOf frustumOf project Math_pow).
Local Abbreviation personRelationsOf := (personRelationsOf frustumOf project Math_pow).
Local Abbreviation relationsOf := (relationsOf frustumOf project Math_pow).

(** Every entry of a person's row is the relation of a camera of the scene. *)
Lemma personRelations_entries (cameras : obj Camera) (person : Person)
    (cameraId : string) (r : Relation) :
  (cameraId, r) ∈ Object_entries (personRelationsOf cameras person) ->
  ∃ camera, obj_get cameras cameraId = Some camera ∧ r = relationOf camera person.
Proof.
  unfold Relations.personRelationsOf, Object_entries.
  generalize (Object_keys cameras) as ks.
  assert (H0 : ∀ e, e ∈ ([] : obj Relation) ->
            ∃ camera, obj_get cameras e.1 = Some camera ∧ e.2 = relationOf camera person)
    by (by intros e ?%elem_of_nil).
  revert H0. generalize ([] : obj Relation) as acc.
  intros acc Hacc ks. revert acc Hacc.
  induction ks as [|k ks IH]; intros acc Hacc; cbn [fold_left].
  - intros Hin. by apply (Hacc (cameraId, r)).
  - apply IH. destruct (obj_get cameras k) as [camera|] eqn:Hk; [| done].
    intros e [->|He]%obj_set_entries; [by exists camera | by apply Hacc].
Qed.

(** Every row of the table is the row of a person. *)
Lemma relations_rows (cameras : obj Camera) (personsData : list Person)
    (k : string) (row : obj Relation) :
  obj_get (relationsOf cameras personsData) k = Some row ->
  ∃ person, person ∈ personsData ∧ id person = k
            ∧ row = personRelationsOf cameras person.
Proof.
  intros Hget%obj_get_entries. revert Hget.
  unfold Relations.relationsOf, Object_entries.
  assert (H0 : ∀ e, e ∈ ([] : obj (obj Relation)) ->
            ∃ person, person ∈ personsData ∧ id person = e.1
                      ∧ e.2 = personRelationsOf cameras person)
    by (by intros e ?%elem_of_nil).
  revert H0. generalize ([] : obj (obj Relation)) as acc.
  assert (Hsub : personsData ⊆ personsData) by done. revert Hsub.
  generalize personsData at 1 4 as ps.
  induction ps as [|q ps IH]; intros Hsub acc Hacc; cbn [fold_left].
  - intros Hin. by apply (Hacc (k, row)).
  - apply IH; [intros p Hp; apply Hsub; by right |].
    intros e [->|He]%obj_set_entries; [| by apply Hacc].
    exists q. split; [apply Hsub; by left | done].
Qed.



Lemma index_le_refl (a : option N) : index_le a a.
Proof. destruct a; cbn; [lia | done]. Qed.

Lemma obj_insert_first {A : Type} (o : obj A) (k : string) (v : A) :
  first_key_least o -> first_key_least (obj_insert o k v).
Proof.
  destruct o as [|[k0 v0] o]; cbn [obj_insert first_key_least].
  { intros _ e ->%list_elem_of_singleton. apply index_le_refl. }
  intros Hmin.
  destruct (array_index k) as [n|] eqn:Hk, (array_index k0) as [n0|] eqn:Hk0.
  - destruct (N.ltb_spec n n0) as [Hlt|Hge]; cbn [first_key_least].
    + intros e [->|He]%elem_of_cons; cbn [fst]; rewrite Hk.
      * cbn. lia.
      * specialize (Hmin e He). destruct (array_index e.1); cbn in *; [lia | done].
    + intros e [->|He]%elem_of_cons; cbn [fst]; rewrite Hk0.
      * cbn. lia.
      * apply obj_insert_entries in He as [->|He]; [cbn; rewrite Hk; cbn; lia |].
        apply Hmin. by right.
  - cbn [first_key_least]. intros e [->|He]%elem_of_cons; cbn [fst]; rewrite Hk.
    + cbn. lia.
    + specialize (Hmin e He). by destruct (array_index e.1).
  - cbn [first_key_least]. intros e [->|He]%elem_of_cons; cbn [fst]; rewrite Hk0.
    + cbn. lia.
    + apply obj_insert_entries in He as [->|He]; [cbn; by rewrite Hk |].
      apply Hmin. by right.
  - cbn [first_key_least]. intros e [->|He]%elem_of_cons; cbn [fst]; rewrite Hk0.
    + done.
    + apply obj_insert_entries in He as [->|He]; [cbn; by rewrite Hk |].
      apply Hmin. by right.
Qed.

Lemma first_key_least_keys {A : Type} (o o' : obj A) :
  o.*1 = o'.*1 -> first_key_least o -> first_key_least o'.
Proof.
  destruct o as [|[k0 v0] o], o' as [|[k0' v0'] o']; try done.
  intros Hkeys Hmin. cbn [first_key_least]. intros e He.
  assert (He1 : e.1 ∈ ((k0, v0) :: o).*1).
  { rewrite Hkeys. by apply list_elem_of_fmap_2. }
  apply list_elem_of_fmap in He1 as (e' & -> & He').
  cbn in Hkeys. injection Hkeys as <- _. by apply Hmin.
Qed.

Lemma obj_set_first {A : Type} (o : obj A) (k : string) (v : A) :
  first_key_least o -> first_key_least (obj_set o k v).
Proof.
  unfold obj_set. case_decide; [| apply obj_insert_first].
  apply first_key_least_keys.
  rewrite <- list_fmap_compose. apply list_fmap_ext. intros _ [k' v'] _. cbn.
  by case_decide.
Qed.

Lemma relations_first (cameras : obj Camera) (personsData : list Person) :
  first_key_least (relationsOf cameras personsData).
Proof.
  unfold Relations.relationsOf.
  assert (H0 : first_key_least ([] : obj (obj Relation))) by done.
  revert H0. generalize ([] : obj (obj Relation)) as acc.
  induction personsData as [|q ps IH]; intros acc Hacc; cbn [fold_left]; [done |].
  apply IH. by apply obj_set_first.
Qed.

End Table.

(** *** Whose cameras are ranked *)


(** X10: when a person's id is an array index below those of the others (["1"]
    among ["2"], ["10"], ["person_3"]), that person's cameras are ranked,
    wherever the person stands in [personsData]. *)
Theorem primary_is_smallest_index
    (frustumOf : PerspectiveCamera -> Frustum)
    (project : PerspectiveCamera -> Vector3 -> Vector3)
    (Math_pow : float -> float -> float)
    (cameras : obj Camera) (personsData : list Person) (person : Person) (n : N) :
  NoDup (id <$> personsData) ->
  person ∈ personsData ->
  array_index (id person) = Some n ->
  (∀ q, q ∈ personsData -> q ≠ person ->
        match array_index (id q) with
        | Some m => (n < m)%N
        | None => True
        end) ->
  primary (relationsOf frustumOf project Math_pow cameras personsData)
  = Some (personRelationsOf frustumOf project Math_pow cameras person).
Proof.
  intros Hnd Hin Hn Hothers.
  pose proof (relations_get frustumOf project Math_pow cameras personsData person Hnd Hin)
    as Hrow.
  pose proof (relations_first frustumOf project Math_pow cameras personsData) as Hmin.
  unfold primary.
  destruct (relationsOf frustumOf project Math_pow cameras personsData)
    as [|[k0 row0] rest] eqn:Hrel; [done |].
  cbn [Object_keys fmap list_fmap fst].
  assert (Hk0 : k0 = id person).
  { cbn [first_key_least] in Hmin.
    specialize (Hmin _ (obj_get_entries _ _ _ Hrow)). cbn [fst] in Hmin.
    rewrite Hn in Hmin.
    assert (Hhead : obj_get ((k0, row0) :: rest) k0 = Some row0)
      by (cbn; by case_decide).
    rewrite <- Hrel in Hhead.
    apply relations_rows in Hhead as (q & Hq & Hidq & _).
    destruct (decide (id q = id person)) as [Heq|Hne]; [congruence |].
    assert (Hqp : q ≠ person) by congruence.
    specialize (Hothers q Hq Hqp). rewrite Hidq in Hothers.
    destruct (array_index k0); cbn in Hmin; [lia | done]. }
  subst k0. exact Hrow.
Qed.

(** *** The recommendation names a camera of the scene *)

(** X11: after the effect of lines 838-924 the recommendation is the one from
    before, or a camera of the scene that sees a person of [personsData]. *)
Theorem recommended_camera_in_scene
    (frustumOf : PerspectiveCamera -> Frustum)
    (project : PerspectiveCamera -> Vector3 -> Vector3)
    (Math_pow : float -> float -> float)
    (sceneData : option (obj Camera)) (personsData : list Person) (st : page) :
  let st' := relationsEffect frustumOf project Math_pow sceneData personsData st in
  recommendedCamera st' = recommendedCamera st
  ∨ ∃ cameras cameraId camera person,
      sceneData = Some cameras
      ∧ recommendedCamera st' = Some cameraId
      ∧ obj_get cameras cameraId = Some camera
      ∧ person ∈ personsData
      ∧ isVisible (relationOf frustumOf project Math_pow camera person) = true.
Proof.
  cbn zeta. unfold relationsEffect.
  destruct sceneData as [cameras|]; [| by left].
  destruct (length personsData =? 0)%nat; [by left |].
  unfold updateRecommendedCamera.
  destruct (Object_keys _) as [|personId keys]; [by left |].
  destruct (obj_get _ personId) as [row|] eqn:Hrow; [| by left].
  destruct (visibleCameras row) as [|[cameraId r] tops] eqn:Htop; [by left |].
  right. cbn [recommendedCamera fst].
  assert (Hin : (cameraId, r) ∈ visibleCameras row) by (rewrite Htop; by left).
  unfold visibleCameras in Hin.
  apply sort_elem, list_elem_of_filter in Hin as [Hvis Hentry]. cbn in Hvis.
  apply relations_rows in Hrow as (person & Hperson & _ & ->).
  apply personRelations_entries in Hentry as (camera & Hcamera & ->).
  by exists cameras, cameraId, camera, person.
Qed.

(** *** The information panel *)

(** X12: when no id of a person or of a camera is ["__proto__"] and the
    active camera is not a name that every object inherits (["toString"]),
    the panel shows the relation of the active camera and [personsData[0]]
    as the table of the effect holds it, and nothing when the active camera
    is not a camera of the scene. *)
Theorem panel_shows_first_person
    (frustumOf : PerspectiveCamera -> Frustum)
    (project : PerspectiveCamera -> Vector3 -> Vector3)
    (Math_pow : float -> float -> float)
    (cameras : obj Camera) (person : Person) (others : list Person)
    (activeCamera : string) :
  NoDup (id <$> person :: others) ->
  Forall (fun q => id q ≠ "__proto__"%string) (person :: others) ->
  Forall (fun cameraId => cameraId ≠ "__proto__"%string) (Object_keys cameras) ->
  inherits activeCamera = false ->
  getCurrentPersonCameraInfo (person :: others)
    (relationsOf frustumOf project Math_pow cameras (person :: others)) activeCamera
  = (fun camera => infoOf (relationOf frustumOf project Math_pow camera person))
      <$> obj_get cameras activeCamera.
Proof.
  intros Hnd _ _ _. unfold getCurrentPersonCameraInfo.
  pose proof (relations_get frustumOf project Math_pow cameras (person :: others)
                person Hnd ltac:(by left)) as Hrow.
  rewrite Hrow.
  assert (Hkeys : ∀ {A} (o : obj A) k, is_Some (obj_get o k) ->
                    (length (Object_keys o) =? 0)%nat = false).
  { intros A o k [v Hv]. destruct o; [done | done]. }
  rewrite (Hkeys _ _ (id person)) by (by rewrite Hrow).
  rewrite personRelations_get.
  destruct (obj_get cameras activeCamera) as [camera|] eqn:Hcam.
  - rewrite (Hkeys _ _ activeCamera) by (rewrite personRelations_get, Hcam; by eexists).
    done.
  - by destruct (_ =? _)%nat.
Qed.


Lemma primary_is_smallest_index_witness :
  NoDup (id <$> numbered_persons)
  ∧ person_one ∈ numbered_persons
  ∧ array_index (id person_one) = Some 1%N
  ∧ (∀ q, q ∈ numbered_persons -> q ≠ person_one ->
          match array_index (id q) with
          | Some m => (1 < m)%N
          | None => True
          end)
  ∧ primary (relationsOf box_frustum box_project square_pow demo_cameras
               numbered_persons)
    = Some (personRelationsOf box_frustum box_project square_pow demo_cameras
              person_one).
Proof.
  assert (Hnd : NoDup (id <$> numbered_persons)).
  { apply (bool_decide_unpack _). by vm_compute. }
  assert (Hin : person_one ∈ numbered_persons) by (right; by left).
  assert (Hothers : ∀ q, q ∈ numbered_persons -> q ≠ person_one ->
            match array_index (id q) with
            | Some m => (1 < m)%N
            | None => True
            end).
  { intros q [->|[->|Hq%elem_of_nil]%elem_of_cons]%elem_of_cons Hne; [| done | done].
    by vm_compute. }
  split; [exact Hnd |]. split; [exact Hin |]. split; [reflexivity |].
  split; [exact Hothers |].
  exact (primary_is_smallest_index box_frustum box_project square_pow demo_cameras
           numbered_persons person_one 1%N Hnd Hin eq_refl Hothers).
Defined.

Lemma panel_shows_first_person_witness :
  NoDup (id <$> [demo_person])
  ∧ Forall (fun q => id q ≠ "__proto__"%string) [demo_person]
  ∧ Forall (fun cameraId => cameraId ≠ "__proto__"%string) (Object_keys demo_cameras)
  ∧ inherits "0" = false
  ∧ getCurrentPersonCameraInfo [demo_person]
      (relationsOf box_frustum box_project square_pow demo_cameras [demo_person]) "0"
    = (fun camera => infoOf (relationOf box_frustum box_project square_pow camera
                               demo_person))
        <$> obj_get demo_cameras "0".
Proof.
  assert (Hnd : NoDup (id <$> [demo_person])) by apply NoDup_singleton.
  assert (Hpersons : Forall (fun q => id q ≠ "__proto__"%string) [demo_person])
    by (by repeat constructor).
  assert (Hcameras :
    Forall (fun cameraId => cameraId ≠ "__proto__"%string) (Object_keys demo_cameras))
    by (by repeat constructor).
  assert (Hactive : inherits "0" = false) by (by vm_compute).
  split; [exact Hnd |]. split; [exact Hpersons |]. split; [exact Hcameras |].
  split; [exact Hactive |].
  exact (panel_shows_first_person box_frustum box_project square_pow demo_cameras
           demo_person [] "0" Hnd Hpersons Hcameras Hactive).
Defined.

(** The panel of the camera in front of the person of the examples: seen,
    at distance 5.00, with the score 70, a medium shot. *)
Lemma demo_panel :
  getCurrentPersonCameraInfo [demo_person]
    (relationsOf box_frustum box_project square_pow demo_cameras [demo_person]) "0"
  = Some {| info_isVisible := true; info_distance := FixDec false 500;
            info_qualityScore := FixDec false 70; info_shotType := Medium |}.
Proof. by vm_compute. Qed.

End PanelFacts.

(** ** The tracking client: closing by hand, commands *)

Module CommandsFacts.
Import Relations RelationsFacts Tracking TrackingFacts Commands.

(** *** Closing by hand *)

(** X13: [disconnect()] leaves the handlers on the socket it closes: when the
    close event of that socket arrives, a reconnection is scheduled, and
    the timer opens a new socket. *)
Theorem disconnect_is_followed_by_reconnect (s : TrackingService) :
  configured s -> socket s = true -> connected s = true -> (retryCount s < 5)%Z ->
  let s1 := handle s CallDisconnect in
  let s2 := handle s1 SocketClose in
  let s3 := handle s2 (TimerFires false) in
  (socket s1 = false ∧ connected s1 = false ∧ timeouts s1 = timeouts s)
  ∧ scheduled s [CallDisconnect; SocketClose] = [retry_delay (retryCount s + 1)]
  ∧ triggered s2 = triggered s ++ [disconnect]
  ∧ socket s3 = true.
Proof.
  intros (Hmax & Hdelay & Hcount) Hsock Hconn Hlt. cbn zeta.
  unfold scheduled, run. cbn [fold_left handle].
  unfold disconnect_method. rewrite Hsock, Hconn. cbn [andb].
  unfold onclose, seq_method, _attemptReconnect. cbn.
  destruct (Z.leb_spec (maxRetries s) (retryCount s)) as [Hle|_]; [lia |].
  cbn. unfold connect_method. cbn.
  split; [done |]. split; [| done].
  rewrite drop_app_length. unfold backoff, retry_delay. cbn. by rewrite Hdelay.
Qed.

Lemma disconnect_is_followed_by_reconnect_witness :
  configured open_service
  ∧ socket open_service = true ∧ connected open_service = true
  ∧ (retryCount open_service < 5)%Z
  ∧ let s1 := handle open_service CallDisconnect in
    let s2 := handle s1 SocketClose in
    let s3 := handle s2 (TimerFires false) in
    (socket s1 = false ∧ connected s1 = false ∧ timeouts s1 = timeouts open_service)
    ∧ scheduled open_service [CallDisconnect; SocketClose]
      = [retry_delay (retryCount open_service + 1)]
    ∧ triggered s2 = triggered open_service ++ [disconnect]
    ∧ socket s3 = true.
Proof.
  assert (Hc : configured open_service) by (unfold configured; cbn; lia).
  split; [exact Hc |]. split; [reflexivity |]. split; [reflexivity |].
  split; [cbn; lia |].
  apply (disconnect_is_followed_by_reconnect open_service Hc);
    [reflexivity | reflexivity | cbn; lia].
Defined.

(** *** Commands *)

(** Only an open event sets [connected]. *)
Lemma handle_not_connected (s : TrackingService) (i : input) :
  connected s = false -> i ≠ SocketOpen -> connected (handle s i) = false.
Proof.
  intros Hc Hi.
  assert (Hre : ∀ s0, connected s0 = false -> connected (_attemptReconnect s0) = false).
  { intros s0 H0. unfold _attemptReconnect. by destruct (_ <=? _)%Z. }
  assert (Hconn : ∀ throws s0, connected s0 = false ->
            connected (connect_method throws s0) = false).
  { intros throws s0 H0. unfold connect_method. rewrite H0, andb_false_r.
    destruct throws; [| done]. by apply Hre. }
  destruct i as [throws| | | | |throws]; cbn [handle]; try done.
  - by apply Hconn.
  - unfold disconnect_method. by destruct (socket s && connected s).
  - by apply Hre.
  - destruct (pending s); [done |]. by apply Hconn.
Qed.

Lemma run_not_connected (trace : list input) (s : TrackingService) :
  connected s = false -> SocketOpen ∉ trace -> connected (run s trace) = false.
Proof.
  revert s. induction trace as [|i trace IH]; intros s Hc Hopen; [done |].
  apply not_elem_of_cons in Hopen as [Hi Hopen].
  cbn [run fold_left]. apply IH; [| done]. apply handle_not_connected; [done | congruence].
Qed.

(** X14: from a close or a [disconnect()] until the next open event, and before
    the first one, every command is refused: [sendCommand] returns [false]
    and the socket takes no message; commands are not queued. *)
Theorem commands_need_open_connection {value : Type} (str : string -> value)
    (s : TrackingService) (trace : list input)
    (command : string) (params : obj value) (throws : bool) :
  connected s = false -> SocketOpen ∉ trace ->
  sendCommand value str command params throws (run s trace) = (false, None).
Proof.
  intros Hc Hopen. unfold sendCommand.
  rewrite (run_not_connected trace s Hc Hopen). by rewrite orb_true_r.
Qed.

Lemma commands_need_open_connection_witness :
  connected constructor = false
  ∧ (SocketOpen ∉ [CallConnect false; SocketError; SocketClose; TimerFires false])
  ∧ sendCommand string (fun name => name) "start_tracking" [] false
      (run constructor [CallConnect false; SocketError; SocketClose; TimerFires false])
    = (false, None).
Proof.
  assert (Hopen : SocketOpen ∉ [CallConnect false; SocketError; SocketClose;
                                TimerFires false]).
  { apply (bool_decide_unpack _). by vm_compute. }
  split; [reflexivity |]. split; [exact Hopen |].
  exact (commands_need_open_connection (fun name => name) constructor _
           "start_tracking" [] false eq_refl Hopen).
Defined.

(** The parameters of a command are spread over the envelope: each is a
    field of the message, and one named [type] or [command] takes the place
    of the envelope's. *)
Lemma spread_get {value : Type} (params : list (string * value)) (k : string) :
  NoDup (params.*1) ->
  ∀ message : obj value,
    obj_get (fold_left (fun message kv => obj_set message kv.1 kv.2) params message) k
    = match obj_get params k with
      | Some v => Some v
      | None => obj_get message k
      end.
Proof.
  induction params as [|[k0 v0] params IH]; intros Hnd message; cbn [fold_left]; [done |].
  cbn [fmap list_fmap fst] in Hnd. apply list.NoDup_cons in Hnd as [Hk0 Hnd].
  rewrite IH by done. cbn [obj_get fst snd].
  destruct (decide (k = k0)) as [->|Hne].
  - assert (Hnone : obj_get params k0 = None).
    { apply eq_None_not_Some. by rewrite <- obj_get_keys. }
    rewrite Hnone, obj_get_set. by case_decide.
  - rewrite obj_get_set. by case_decide.
Qed.

(** X15: the message of a command holds the parameters as given, and [type] and
    [command] only where the parameters have no field of that name: a
    parameter called [type] or [command] replaces the field of the message. *)
Theorem command_message_fields {value : Type} (str : string -> value)
    (command : string) (params : obj value) (k : string) :
  NoDup (Object_keys params) ->
  obj_get (commandMessage value str command params) k
  = match obj_get params k with
    | Some v => Some v
    | None =>
        if decide (k = "type"%string) then Some (str "command")
        else if decide (k = "command"%string) then Some (str command)
        else None
    end.
Proof.
  intros Hnd. unfold commandMessage, Object_entries.
  rewrite spread_get by done. destruct (obj_get params k); [done |].
  cbn. by repeat case_decide.
Qed.

Lemma command_message_fields_witness :
  NoDup (Object_keys [("camera_id"%string, "3"%string)])
  ∧ obj_get (commandMessage string (fun name => name) "set_active_camera"
               [("camera_id"%string, "3"%string)]) "camera_id"
    = match obj_get [("camera_id"%string, "3"%string)] "camera_id" with
      | Some v => Some v
      | None =>
          if decide ("camera_id"%string = "type"%string) then Some "command"%string
          else if decide ("camera_id"%string = "command"%string)
               then Some "set_active_camera"%string
               else None
      end.
Proof.
  assert (Hnd : NoDup (Object_keys [("camera_id"%string, "3"%string)]))
    by apply NoDup_singleton.
  split; [exact Hnd |].
  exact (command_message_fields (fun name => name) "set_active_camera"
           [("camera_id"%string, "3"%string)] "camera_id" Hnd).
Defined.

End CommandsFacts.

(** ** The listeners *)

Module ListenersFacts.
Import Relations RelationsFacts Listeners.

Section Events.
Context {callback : Type} `{EqDecision callback}.
Variable data : Type.
Variable throws : callback -> data -> bool.
Variable inherited : string -> bool.

Local Abbreviation on := (on inherited).
Local Abbreviation off := (off inherited).
Local Abbreviation _triggerEvent := (_triggerEvent data throws inherited).

Lemma filter_all {A : Type} (P : A -> Prop) `{∀ x, Decision (P x)} (l : list A) :
  (∀ x, x ∈ l -> P x) -> filter P l = l.
Proof.
  induction l as [|a l IH]; intros Hall; [done |].
  rewrite filter_cons_True by (apply Hall; by left).
  f_equal. apply IH. intros x Hx. apply Hall. by right.
Qed.

Lemma forEach_calls (d : data) (cbs : list callback) (lg : log data) :
  forEach data (fun cb lg => try_catch data (call data throws d cb lg)) cbs lg
  = Normal (Log data (calls data lg ++ ((fun cb => (cb, d)) <$> cbs))
                (errors data lg + length (filter (fun cb => throws cb d = true) cbs))).
Proof.
  revert lg. induction cbs as [|cb cbs IH]; intros lg; cbn [forEach].
  { cbn. rewrite app_nil_r, Nat.add_0_r. by destruct lg. }
  unfold call at 1. rewrite filter_cons.
  destruct (throws cb d) eqn:Hcb; cbn [try_catch]; rewrite IH; cbn [calls errors].
  - rewrite decide_True by done. cbn [length fmap list_fmap].
    f_equal. f_equal; [by rewrite <- app_assoc | lia].
  - rewrite decide_False by done. cbn [fmap list_fmap]. by rewrite <- app_assoc.
Qed.

(** X16: a trigger calls every listener of the event once, in the order of
    their registration, whatever the listeners before it did: one that throws
    costs a [console.error] and does not stop the round, and the trigger
    returns. *)
Theorem trigger_calls_every_listener (event : string) (d : data)
    (l : obj (list callback)) (cbs : list callback) (lg : log data) :
  obj_get l event = Some cbs ->
  _triggerEvent event d l lg
  = Normal (Log data (calls data lg ++ ((fun cb => (cb, d)) <$> cbs))
                (errors data lg + length (filter (fun cb => throws cb d = true) cbs))).
Proof. intros Hl. unfold Listeners._triggerEvent. rewrite Hl. apply forEach_calls. Qed.

(** X17: [on] puts the listener behind those of its event and touches no
    other event; the function it returns takes the listener out again, and
    the table then reads as before. *)
Theorem subscribe_round_trip (event : string) (cb : callback)
    (l : obj (list callback)) (cbs : list callback) :
  obj_get l event = Some cbs ->
  cb ∉ cbs ->
  ∃ l' l'',
    on event cb l = Normal l'
    ∧ obj_get l' event = Some (cbs ++ [cb])
    ∧ (∀ other, other ≠ event -> obj_get l' other = obj_get l other)
    ∧ unsubscribe inherited event cb l' = Normal l''
    ∧ (∀ name, obj_get l'' name = obj_get l name).
Proof.
  intros Hl Hcb. unfold Listeners.on, unsubscribe, Listeners.off. rewrite Hl.
  eexists _, _. split; [done |].
  split; [rewrite obj_get_set; by case_decide |].
  split; [intros other Hother; rewrite obj_get_set; by case_decide |].
  rewrite obj_get_set, decide_True by done. split; [done |].
  intros name. rewrite !obj_get_set.
  case_decide as Hname; [| done]. subst name. rewrite Hl. f_equal.
  rewrite list.filter_app, filter_cons_False, filter_nil, app_nil_r by (by intros ?).
  apply filter_all. by intros c Hc ->.
Qed.

(** X18: [off] removes every registration of the listener for the event: a
    listener registered twice is gone after one [off], and a later trigger
    calls the other listeners as before and never that one. *)
Theorem unsubscribe_removes_every_registration (event : string) (cb : callback)
    (l : obj (list callback)) (cbs : list callback) (d : data) (lg : log data) :
  obj_get l event = Some cbs ->
  ∃ l' lg',
    off event cb l = Normal l'
    ∧ (∀ other, other ≠ event -> obj_get l' other = obj_get l other)
    ∧ _triggerEvent event d l' lg = Normal lg'
    ∧ calls data lg'
      = calls data lg ++ ((fun c => (c, d)) <$> filter (fun c => c ≠ cb) cbs)
    ∧ (∀ c, c ∈ calls data lg' -> c ∈ calls data lg ∨ c.1 ≠ cb).
Proof.
  intros Hl. unfold Listeners.off. rewrite Hl. eexists _, _. split; [done |].
  split; [intros other Hother; rewrite obj_get_set; by case_decide |].
  split.
  { unfold Listeners._triggerEvent. rewrite obj_get_set, decide_True by done.
    apply forEach_calls. }
  cbn [calls]. split; [done |].
  intros c [Hc|Hc]%elem_of_app; [by left | right].
  apply list_elem_of_fmap in Hc as (c' & -> & Hc'). cbn.
  by apply list_elem_of_filter in Hc' as [Hne _].
Qed.

End Events.

Lemma trigger_calls_every_listener_witness :
  obj_get demo_listeners "persons" = Some [1; 2; 1; 3]%nat
  ∧ _triggerEvent string demo_throws demo_inherited "persons" "frame"%string
      demo_listeners (Log string [] 0)
    = Normal (Log string
                ([] ++ ((fun cb => (cb, "frame"%string)) <$> [1; 2; 1; 3]%nat))
                (0 + length (filter (fun cb => demo_throws cb "frame" = true)
                                    [1; 2; 1; 3]%nat))).
Proof.
  split; [reflexivity |].
  exact (trigger_calls_every_listener string demo_throws demo_inherited "persons"
           "frame"%string demo_listeners [1; 2; 1; 3]%nat (Log string [] 0) eq_refl).
Defined.

Lemma subscribe_round_trip_witness :
  obj_get demo_listeners "connect" = Some [3]%nat
  ∧ (7%nat ∉ [3]%nat)
  ∧ ∃ l' l'',
      on demo_inherited "connect" 7%nat demo_listeners = Normal l'
      ∧ obj_get l' "connect" = Some ([3]%nat ++ [7%nat])
      ∧ (∀ other, other ≠ "connect"%string ->
                  obj_get l' other = obj_get demo_listeners other)
      ∧ unsubscribe demo_inherited "connect" 7%nat l' = Normal l''
      ∧ (∀ name, obj_get l'' name = obj_get demo_listeners name).
Proof.
  assert (Hcb : 7%nat ∉ [3]%nat) by (apply (bool_decide_unpack _); by vm_compute).
  split; [reflexivity |]. split; [exact Hcb |].
  exact (subscribe_round_trip demo_inherited "connect" 7%nat demo_listeners [3]%nat
           eq_refl Hcb).
Defined.

Lemma unsubscribe_removes_every_registration_witness :
  obj_get demo_listeners "persons" = Some [1; 2; 1; 3]%nat
  ∧ ∃ l' lg',
      off demo_inherited "persons" 1%nat demo_listeners = Normal l'
      ∧ (∀ other, other ≠ "persons"%string ->
                  obj_get l' other = obj_get demo_listeners other)
      ∧ _triggerEvent string demo_throws demo_inherited "persons" "frame"%string l'
          (Log string [] 0)
        = Normal lg'
      ∧ calls string lg'
        = calls string (Log string [] 0)
            ++ ((fun c => (c, "frame"%string))
                  <$> filter (fun c => c ≠ 1%nat) [1; 2; 1; 3]%nat)
      ∧ (∀ c, c ∈ calls string lg' ->
              c ∈ calls string (Log string [] 0) ∨ c.1 ≠ 1%nat).
Proof.
  split; [reflexivity |].
  exact (unsubscribe_removes_every_registration string demo_throws demo_inherited
           "persons" 1%nat demo_listeners [1; 2; 1; 3]%nat "frame"%string
           (Log string [] 0) eq_refl).
Defined.

End ListenersFacts.

(** ** The messages *)

Module MessagesFacts.
Import JS Relations Tracking Listeners Messages.

(** X19: what a message raises.  It raises at most one event.  A message that
    parses to [null] raises [error], as one that does not parse.  An object
    whose [type] is not ["cameras_info"] raises [persons] only when both its
    [timestamp] and its [persons] count as true: a frame whose timestamp is
    0, NaN, empty or missing raises nothing, whatever persons it holds. *)
Theorem message_dispatch (parsed : option value) :
  (length (onmessage parsed) <= 1)%nat
  ∧ (parsed = Some VNull -> onmessage parsed = [(error, parseFailure)])
  ∧ (∀ fields,
       parsed = Some (VObject fields) ->
       is_string (field (VObject fields) "type") "cameras_info" = false ->
       (truthy (field (VObject fields) "timestamp") = false -> onmessage parsed = [])
       ∧ (∀ e, e ∈ onmessage parsed ->
               e.1 = persons
               ∧ truthy (field (VObject fields) "timestamp") = true
               ∧ truthy (field (VObject fields) "persons") = true)).
Proof.
  split.
  { destruct parsed as [data|]; [| cbn; lia]. unfold onmessage, _handleMessage.
    destruct data; cbn [length app]; try lia;
      destruct (is_string _ _); cbn [length]; try lia;
      destruct (_ && _); cbn [length]; lia. }
  split; [by intros -> |].
  intros fields -> Htype. unfold onmessage, _handleMessage. rewrite Htype.
  split.
  - by intros ->.
  - destruct (truthy (field (VObject fields) "timestamp")),
      (truthy (field (VObject fields) "persons")); cbn [andb];
      intros e He; try (by apply elem_of_nil in He).
    by apply list_elem_of_singleton in He as ->.
Qed.

(** The frame at time 0 is dropped. *)
Lemma first_frame_dropped :
  truthy (field first_frame "persons") = true ∧ onmessage (Some first_frame) = [].
Proof. by vm_compute. Qed.

End MessagesFacts.

(** ** The histories *)

Module HistoryFacts.
Import JS Relations RelationsFacts History.

Section Trajectories.
Variable stamp : Type.

Local Abbreviation entry := (entry stamp).

Lemma slice_last_short {A : Type} (n : nat) (l : list A) :
  (length l <= n)%nat -> slice_last n l = l.
Proof. intros H. unfold slice_last. by replace (length l - n)%nat with 0%nat by lia. Qed.

Lemma length_slice_last {A : Type} (n : nat) (l : list A) :
  length (slice_last n l) = Nat.min n (length l).
Proof. unfold slice_last. rewrite length_drop. lia. Qed.

Lemma slice_last_app {A : Type} (n : nat) (l1 l2 : list A) :
  slice_last n (slice_last n l1 ++ l2) = slice_last n (l1 ++ l2).
Proof.
  destruct (decide (length l1 <= n)%nat) as [Hle|Hgt].
  { by rewrite (slice_last_short n l1). }
  unfold slice_last. rewrite !length_app, length_drop.
  replace (length l1 - (length l1 - n) + length l2 - n)%nat with (length l2) by lia.
  replace (length l1 + length l2 - n)%nat with ((length l1 - n) + length l2)%nat by lia.
  rewrite <- drop_drop. f_equal. rewrite drop_app_le by lia. done.
Qed.

Lemma read_alloc_old (st : list (list entry)) (h : list entry) (a : nat) :
  (a < length st)%nat -> read stamp (alloc stamp st h).2 a = read stamp st a.
Proof. intros Ha. unfold read, alloc. cbn [fst snd]. by rewrite lookup_app_l. Qed.

Lemma read_alloc_new (st : list (list entry)) (h : list entry) :
  read stamp (alloc stamp st h).2 (alloc stamp st h).1 = h.
Proof. unfold read, alloc. cbn [fst snd]. by rewrite list_lookup_middle. Qed.

Lemma read_push (st : list (list entry)) (a b : nat) (e : entry) :
  (a < length st)%nat ->
  read stamp (push stamp st a e) b
  = if decide (b = a) then read stamp st a ++ [e] else read stamp st b.
Proof.
  intros Ha. unfold push. unfold read at 1.
  case_decide as Hb.
  - subst b. by rewrite list_lookup_insert_eq.
  - by rewrite list_lookup_insert_ne.
Qed.

Lemma length_push (st : list (list entry)) (a : nat) (e : entry) :
  length (push stamp st a e) = length st.
Proof. unfold push. by rewrite length_insert. Qed.


Local Abbreviation track := (track stamp).
Local Abbreviation updateHistory := (updateHistory stamp).
Local Abbreviation separate := (separate stamp).
Local Abbreviation historyOf := (historyOf stamp).
Local Abbreviation entriesFor := (entriesFor stamp).
Local Abbreviation read := (read stamp).
Local Abbreviation push := (push stamp).

(** What one round does: the history of the person is the last 100 of the
    old one and the new entry, the others are as they were. *)
Lemma track_spec (time : stamp) (u : history) (st : list (list entry)) (p : Person) :
  separate u st ->
  let r := track time (u, st) p in
  separate r.1 r.2
  ∧ is_Some (obj_get r.1 (id p))
  ∧ historyOf r.1 r.2 (id p)
    = slice_last 100 (historyOf u st (id p) ++ [(time, personPosition p)])
  ∧ (∀ k, k ≠ id p ->
          obj_get r.1 k = obj_get u k ∧ historyOf r.1 r.2 k = historyOf u st k).
Proof.
  intros [Hin Hinj]. cbn zeta. unfold History.track, History.historyOf. cbn [fst snd].
  destruct (obj_get u (id p)) as [a|] eqn:Hp; cbn [fst snd].
  - rewrite Hp. pose proof (Hin _ _ Hp) as Ha.
    set (e := (time, personPosition p)).
    assert (Hread : read (push st a e) a = read st a ++ [e]).
    { rewrite read_push by done. by case_decide. }
    rewrite Hread.
    assert (Hother : ∀ k b, k ≠ id p -> obj_get u k = Some b ->
              read (push st a e) b = read st b).
    { intros k b Hk Hb. rewrite read_push by done. case_decide as Hba; [| done].
      subst b. destruct Hk. by eapply Hinj. }
    destruct (Nat.ltb_spec 100 (length (read st a ++ [e]))) as [Hlong|Hshort];
      cbn [fst snd].
    + unfold alloc. cbn [fst snd]. rewrite length_push.
      split; [split |].
      * intros k b. rewrite obj_get_set, length_app, length_push. cbn [length].
        case_decide; intros Hb; simplify_eq; [lia |]. specialize (Hin _ _ Hb). lia.
      * intros k k' b. rewrite !obj_get_set.
        repeat case_decide; intros Hb Hb'; simplify_eq; try done.
        -- specialize (Hin _ _ Hb'). lia.
        -- specialize (Hin _ _ Hb). lia.
        -- by eapply Hinj.
      * split; [rewrite obj_get_set; case_decide; [by eexists | done] |].
        split.
        -- rewrite obj_get_set, decide_True by done.
           unfold History.read. rewrite <- (length_push st a e) at 1.
           by rewrite list_lookup_middle.
        -- intros k Hk. rewrite obj_get_set, decide_False by done.
           split; [done |]. destruct (obj_get u k) as [b|] eqn:Hb; [| done].
           unfold History.read at 1. rewrite lookup_app_l
             by (rewrite length_push; by eapply Hin).
           by apply (Hother k).
    + split; [split |].
      * intros k b Hb. rewrite length_push. by eapply Hin.
      * done.
      * split; [by rewrite Hp |]. rewrite Hp.
        split; [by rewrite Hread, slice_last_short by lia |].
        intros k Hk. split; [done |].
        destruct (obj_get u k) as [b|] eqn:Hb; [| done]. by apply (Hother k).
  - unfold alloc. cbn [fst snd]. rewrite obj_get_set, decide_True by done.
    set (e := (time, personPosition p)).
    assert (Hread : read (push (st ++ [[]]) (length st) e) (length st) = [e]).
    { rewrite read_push by (rewrite length_app; cbn; lia).
      rewrite decide_True by done. unfold History.read.
      by rewrite list_lookup_middle. }
    rewrite Hread. cbn [length Nat.ltb Nat.leb fst snd].
    assert (Hother : ∀ k b, obj_get u k = Some b ->
              read (push (st ++ [[]]) (length st) e) b = read st b).
    { intros k b Hb. pose proof (Hin _ _ Hb).
      rewrite read_push by (rewrite length_app; cbn; lia).
      rewrite decide_False by lia. unfold History.read. by rewrite lookup_app_l. }
    split; [split |].
    + intros k b. rewrite obj_get_set, length_push, length_app. cbn [length].
      case_decide; intros Hb; simplify_eq; [lia |]. specialize (Hin _ _ Hb). lia.
    + intros k k' b. rewrite !obj_get_set.
      repeat case_decide; intros Hb Hb'; simplify_eq; try done.
      * specialize (Hin _ _ Hb'). lia.
      * specialize (Hin _ _ Hb). lia.
      * by eapply Hinj.
    + split; [rewrite obj_get_set; case_decide; [by eexists | done] |].
      rewrite obj_get_set, decide_True by done. rewrite Hread.
      split; [done |].
      intros k Hk. rewrite obj_get_set, decide_False by done.
      split; [done |]. destruct (obj_get u k) as [b|] eqn:Hb; [| done].
      by apply (Hother k).
Qed.

Lemma entriesFor_cons (time : stamp) (p : Person) (ps : list Person) (k : string) :
  entriesFor time (p :: ps) k
  = if decide (id p = k) then (time, personPosition p) :: entriesFor time ps k
    else entriesFor time ps k.
Proof. unfold History.entriesFor. rewrite filter_cons. by case_decide. Qed.

Lemma entriesFor_none (time : stamp) (ps : list Person) (k : string) :
  k ∉ id <$> ps -> entriesFor time ps k = [].
Proof.
  induction ps as [|p ps IH]; [done |]. cbn [fmap list_fmap].
  intros [Hp Hps]%not_elem_of_cons. rewrite entriesFor_cons, decide_False by done.
  by apply IH.
Qed.

(** X20: the update of [handlePersons], for a message whose persons have
    ids that are not names every object inherits (["constructor"],
    ["__proto__"]).  A person of the message has, after the update, the last
    100 entries of the history from before followed by the person's new
    positions, so at least one entry and at most 100; a person the message
    does not name keeps the history from before. *)
Theorem history_update (time : stamp) (persons : list Person) (prev : history)
    (st : list (list entry)) (k : string) :
  Forall (fun p => inherits (id p) = false) persons ->
  separate prev st ->
  let r := updateHistory time persons prev st in
  separate r.1 r.2
  ∧ (k ∉ id <$> persons ->
     obj_get r.1 k = obj_get prev k ∧ historyOf r.1 r.2 k = historyOf prev st k)
  ∧ (k ∈ id <$> persons ->
     is_Some (obj_get r.1 k)
     ∧ historyOf r.1 r.2 k
       = slice_last 100 (historyOf prev st k ++ entriesFor time persons k)
     ∧ (1 <= length (historyOf r.1 r.2 k) <= 100)%nat).
Proof.
  intros _. cbn zeta. unfold History.updateHistory. revert prev st.
  induction persons as [|p ps IH]; intros prev st Hsep; cbn [fold_left fst snd].
  { split; [done |]. split; [done |]. by intros ?%elem_of_nil. }
  destruct (track_spec time prev st p Hsep) as (Hsep1 & Hsome1 & Hown & Hothers).
  destruct (track time (prev, st) p) as [u1 st1] eqn:Hr1. cbn [fst snd] in *.
  destruct (IH u1 st1 Hsep1) as (Hsep2 & Hout & Hin).
  split; [done |]. cbn [fmap list_fmap].
  assert (Hformula : k ∈ id p :: (id <$> ps) ->
            historyOf (fold_left (track time) ps (u1, st1)).1
                      (fold_left (track time) ps (u1, st1)).2 k
            = slice_last 100 (historyOf prev st k ++ entriesFor time (p :: ps) k)
            ∧ is_Some (obj_get (fold_left (track time) ps (u1, st1)).1 k)).
  { intros Hk. rewrite entriesFor_cons.
    destruct (decide (id p = k)) as [<-|Hne].
    - destruct (decide (id p ∈ id <$> ps)) as [Hlater|Hlast].
      + destruct (Hin Hlater) as (Hs & -> & _). split; [| done].
        rewrite Hown, slice_last_app, <- app_assoc. done.
      + destruct (Hout Hlast) as (Hget & ->). split; [| by rewrite Hget].
        by rewrite Hown, entriesFor_none.
    - apply elem_of_cons in Hk as [->|Hk]; [done |].
      destruct (Hin Hk) as (Hs & -> & _). split; [| done].
      destruct (Hothers k ltac:(done)) as [_ ->]. done. }
  split.
  - intros [Hp Hps]%not_elem_of_cons. destruct (Hout Hps) as [-> ->].
    by apply Hothers.
  - intros Hk. destruct (Hformula Hk) as [Heq Hs]. split; [done |]. split; [done |].
    rewrite Heq, length_slice_last, length_app.
    assert (1 <= length (entriesFor time (p :: ps) k))%nat; [| lia].
    change (k ∈ id <$> p :: ps) in Hk.
    apply list_elem_of_fmap in Hk as (q & -> & Hq).
    unfold History.entriesFor. rewrite length_fmap.
    assert (Hq' : q ∈ filter (fun p0 => id p0 = id q) (p :: ps))
      by (by apply list_elem_of_filter).
    destruct (filter _ _); [by apply elem_of_nil in Hq' | cbn; lia].
Qed.

(** X21: the update works on the arrays of the state it is given.  When the
    person has a history, the entry is pushed into that very array: read
    through the previous state, the history has grown by the entry, also
    when the new state holds a copy cut to 100. *)
Theorem history_update_in_place (time : stamp) (prev : history)
    (st : list (list entry)) (p : Person) (a : nat) :
  separate prev st ->
  obj_get prev (id p) = Some a ->
  let r := track time (prev, st) p in
  historyOf prev r.2 (id p) = historyOf prev st (id p) ++ [(time, personPosition p)]
  ∧ ((length (read st a) < 100)%nat -> r.1 = prev)
  ∧ ((100 <= length (read st a))%nat ->
     ∃ a', obj_get r.1 (id p) = Some a' ∧ a' ≠ a
           ∧ length (read r.2 a') = 100%nat ∧ length (read r.2 a) = S (length (read st a))).
Proof.
  intros [Hin Hinj] Hp. cbn zeta. pose proof (Hin _ _ Hp) as Ha.
  unfold History.track, History.historyOf. cbn [fst snd]. rewrite Hp. cbn [fst snd].
  rewrite Hp.
  set (e := (time, personPosition p)).
  assert (Hread : read (push st a e) a = read st a ++ [e]).
  { rewrite read_push by done. by case_decide. }
  rewrite Hread, length_app. cbn [length].
  destruct (Nat.ltb_spec 100 (length (read st a) + 1)) as [Hlong|Hshort];
    cbn [fst snd].
  - unfold alloc. cbn [fst snd].
    assert (Hold : read (push st a e ++ [slice_last 100 (read st a ++ [e])]) a
                   = read st a ++ [e]).
    { unfold History.read at 1. rewrite lookup_app_l by (by rewrite length_push).
      exact Hread. }
    split; [exact Hold |]. split; [lia |]. intros _.
    exists (length (push st a e)).
    rewrite obj_get_set, decide_True by done. split; [done |].
    rewrite length_push. split; [lia |].
    split.
    + unfold History.read. rewrite <- (length_push st a e) at 1.
      rewrite list_lookup_middle by done.
      change (length (slice_last 100 (read st a ++ [e])) = 100%nat).
      rewrite length_slice_last, length_app. cbn [length]. lia.
    + rewrite Hold, length_app. cbn. lia.
  - split; [done |]. split; [done |]. lia.
Qed.

End Trajectories.

Lemma demo_separate : separate Z demo_history demo_store.
Proof.
  split.
  - intros k a. cbn. case_decide; intros; simplify_eq. lia.
  - intros k k' a. cbn. repeat case_decide; intros; by simplify_eq.
Qed.

Lemma history_update_witness :
  Forall (fun p => inherits (id p) = false) [walker]
  ∧ separate Z demo_history demo_store
  ∧ let r := updateHistory Z 1%Z [walker] demo_history demo_store in
    separate Z r.1 r.2
    ∧ ("person_1"%string ∉ id <$> [walker] ->
       obj_get r.1 "person_1" = obj_get demo_history "person_1"
       ∧ historyOf Z r.1 r.2 "person_1" = historyOf Z demo_history demo_store "person_1")
    ∧ ("person_1"%string ∈ id <$> [walker] ->
       is_Some (obj_get r.1 "person_1")
       ∧ historyOf Z r.1 r.2 "person_1"
         = slice_last 100 (historyOf Z demo_history demo_store "person_1"
                           ++ entriesFor Z 1%Z [walker] "person_1")
       ∧ (1 <= length (historyOf Z r.1 r.2 "person_1") <= 100)%nat).
Proof.
  assert (Hids : Forall (fun p => inherits (id p) = false) [walker]).
  { constructor; [by vm_compute | constructor]. }
  split; [exact Hids |]. split; [exact demo_separate |].
  exact (history_update Z 1%Z [walker] demo_history demo_store "person_1"
           Hids demo_separate).
Defined.

Lemma history_update_in_place_witness :
  separate Z demo_history demo_store
  ∧ obj_get demo_history (id walker) = Some 0%nat
  ∧ let r := track Z 1%Z (demo_history, demo_store) walker in
    historyOf Z demo_history r.2 (id walker)
    = historyOf Z demo_history demo_store (id walker) ++ [(1%Z, personPosition walker)]
    ∧ ((length (read Z demo_store 0) < 100)%nat -> r.1 = demo_history)
    ∧ ((100 <= length (read Z demo_store 0))%nat ->
       ∃ a', obj_get r.1 (id walker) = Some a' ∧ a' ≠ 0%nat
             ∧ length (read Z r.2 a') = 100%nat
             ∧ length (read Z r.2 0) = S (length (read Z demo_store 0))).
Proof.
  split; [exact demo_separate |]. split; [reflexivity |].
  exact (history_update_in_place Z 1%Z demo_history demo_store walker 0
           demo_separate eq_refl).
Defined.

End HistoryFacts.

(** ** The box of the scene *)

Module BoundsFacts.
Import JS Sampler Relations Doubles DoublesFacts Bounds.

(** *** [Math.min] and [Math.max] *)

(** [a] is below [b] in the order of the doubles. *)
Local Abbreviation below a b := (rank_le (rank (Prim2SF a)) (rank (Prim2SF b))).

Lemma Math_min_spec (a b : float) :
  isNaN a = false -> isNaN b = false ->
  isNaN (Math_min a b) = false
  ∧ below (Math_min a b) a ∧ below (Math_min a b) b
  ∧ (Math_min a b = a ∨ Math_min a b = b).
Proof.
  intros Ha Hb. unfold Math_min. rewrite Ha, Hb. cbn [orb].
  pose proof (ltb_rank a b Ha Hb) as Hab. pose proof (ltb_rank b a Hb Ha) as Hba.
  destruct (a <? b)%float.
  - split; [done |]. split; [apply rank_le_refl |]. split; [| by left].
    destruct (rank_le_total (rank (Prim2SF a)) (rank (Prim2SF b))) as [H|H]; [done |].
    by apply Hab in H.
  - destruct (b <? a)%float.
    + split; [done |]. split; [| split; [apply rank_le_refl | by right]].
      destruct (rank_le_total (rank (Prim2SF b)) (rank (Prim2SF a))) as [H|H]; [done |].
      by apply Hba in H.
    + assert (below a b) by (by apply Hba). assert (below b a) by (by apply Hab).
      destruct (Prim2SF a) as [| | |] eqn:E; try destruct s;
        (split; [done |]); (split; [rewrite ?E; done || apply rank_le_refl |]);
        (split; [rewrite ?E; done || apply rank_le_refl |]); tauto.
Qed.

Lemma Math_max_spec (a b : float) :
  isNaN a = false -> isNaN b = false ->
  isNaN (Math_max a b) = false
  ∧ below a (Math_max a b) ∧ below b (Math_max a b)
  ∧ (Math_max a b = a ∨ Math_max a b = b).
Proof.
  intros Ha Hb. unfold Math_max. rewrite Ha, Hb. cbn [orb].
  pose proof (ltb_rank a b Ha Hb) as Hab. pose proof (ltb_rank b a Hb Ha) as Hba.
  destruct (a <? b)%float.
  - split; [done |]. split; [| split; [apply rank_le_refl | by right]].
    destruct (rank_le_total (rank (Prim2SF a)) (rank (Prim2SF b))) as [H|H]; [done |].
    by apply Hab in H.
  - destruct (b <? a)%float.
    + split; [done |]. split; [apply rank_le_refl |]. split; [| by left].
      destruct (rank_le_total (rank (Prim2SF b)) (rank (Prim2SF a))) as [H|H]; [done |].
      by apply Hba in H.
    + assert (below a b) by (by apply Hba). assert (below b a) by (by apply Hab).
      destruct (Prim2SF a) as [| | |] eqn:E; try destruct s;
        (split; [done |]); (split; [rewrite ?E; done || apply rank_le_refl |]);
        (split; [rewrite ?E; done || apply rank_le_refl |]); tauto.
Qed.


Lemma below_infinity (x : float) : isNaN x = false -> below x infinity.
Proof.
  unfold isNaN, rank_le. change (Prim2SF infinity) with (S754_infinity false).
  destruct (Prim2SF x) as [|[]| |[]]; cbn; intros; try done; lia.
Qed.

Lemma above_neg_infinity (x : float) : isNaN x = false -> below neg_infinity x.
Proof.
  unfold isNaN, rank_le. change (Prim2SF neg_infinity) with (S754_infinity true).
  destruct (Prim2SF x) as [|[]| |[]]; cbn; intros; try done; lia.
Qed.

Lemma Math_min_infinity (x : float) : isNaN x = false -> Math_min infinity x = x.
Proof.
  intros Hx. unfold Math_min. rewrite Hx.
  change (isNaN infinity) with false. cbn [orb].
  assert (Hlt : (infinity <? x)%float = false).
  { apply ltb_rank; [done | done |]. by apply below_infinity. }
  rewrite Hlt. destruct (x <? infinity)%float; [done |].
  by change (Prim2SF infinity) with (S754_infinity false).
Qed.

Lemma Math_max_neg_infinity (x : float) :
  isNaN x = false -> Math_max neg_infinity x = x.
Proof.
  intros Hx. unfold Math_max. rewrite Hx.
  change (isNaN neg_infinity) with false. cbn [orb].
  assert (Hlt : (x <? neg_infinity)%float = false).
  { apply ltb_rank; [done | done |]. by apply above_neg_infinity. }
  destruct (neg_infinity <? x)%float eqn:Hgt; [done |]. rewrite Hlt.
  change (Prim2SF neg_infinity) with (S754_infinity true). cbn.
  apply ltb_rank in Hgt; [| done | done].
  change (Prim2SF neg_infinity) with (S754_infinity true) in Hgt.
  rewrite <- (FloatAxioms.SF2Prim_Prim2SF x).
  unfold isNaN in Hx. unfold rank_le in Hgt.
  destruct (Prim2SF x) as [|[]| |[]]; cbn in Hgt; try done; lia.
Qed.

(** *** The box of a cloud *)

(** The running minimum and maximum of one axis. *)
Lemma fold_min (xs : list float) :
  Forall (fun x => isNaN x = false) xs ->
  ∀ a, isNaN a = false ->
  let m := fold_left Math_min xs a in
  isNaN m = false ∧ below m a ∧ Forall (fun x => below m x) xs ∧ m ∈ a :: xs.
Proof.
  induction 1 as [|x xs Hx _ IH]; intros a Ha; cbn [fold_left].
  { split; [done |]. split; [apply rank_le_refl |]. split; [done | by left]. }
  destruct (Math_min_spec a x Ha Hx) as (Hm & Hma & Hmx & Hor).
  destruct (IH _ Hm) as (Hn & Hle & Hall & Hin). cbn zeta in *.
  split; [done |]. split; [by eapply rank_le_trans |].
  split.
  - constructor; [by eapply rank_le_trans | done].
  - apply elem_of_cons in Hin as [->|Hin]; [| by right; right].
    destruct Hor as [->| ->]; [by left | right; by left].
Qed.

Lemma fold_max (xs : list float) :
  Forall (fun x => isNaN x = false) xs ->
  ∀ a, isNaN a = false ->
  let m := fold_left Math_max xs a in
  isNaN m = false ∧ below a m ∧ Forall (fun x => below x m) xs ∧ m ∈ a :: xs.
Proof.
  induction 1 as [|x xs Hx _ IH]; intros a Ha; cbn [fold_left].
  { split; [done |]. split; [apply rank_le_refl |]. split; [done | by left]. }
  destruct (Math_max_spec a x Ha Hx) as (Hm & Hma & Hmx & Hor).
  destruct (IH _ Hm) as (Hn & Hle & Hall & Hin). cbn zeta in *.
  split; [done |]. split; [by eapply rank_le_trans |].
  split.
  - constructor; [by eapply rank_le_trans | done].
  - apply elem_of_cons in Hin as [->|Hin]; [| by right; right].
    destruct Hor as [->| ->]; [by left | right; by left].
Qed.

(** The box is computed axis by axis. *)
Lemma fold_extend (pts : list vec3) (b : bounds) :
  fold_left extend pts b
  = {| min := (fold_left Math_min ((fun p : vec3 => p.1.1) <$> pts) (min b).1.1,
               fold_left Math_min ((fun p : vec3 => p.1.2) <$> pts) (min b).1.2,
               fold_left Math_min ((fun p : vec3 => p.2) <$> pts) (min b).2);
       max := (fold_left Math_max ((fun p : vec3 => p.1.1) <$> pts) (max b).1.1,
               fold_left Math_max ((fun p : vec3 => p.1.2) <$> pts) (max b).1.2,
               fold_left Math_max ((fun p : vec3 => p.2) <$> pts) (max b).2) |}.
Proof.
  revert b. induction pts as [|p pts IH]; intros b; cbn [fold_left fmap list_fmap].
  - by destruct b as [[[? ?] ?] [[? ?] ?]].
  - by rewrite IH.
Qed.

Lemma axis_bounds (f : vec3 -> float) (p : vec3) (pts : list vec3) :
  Forall (fun q => isNaN (f q) = false) (p :: pts) ->
  let lo := fold_left Math_min (f <$> p :: pts) infinity in
  let hi := fold_left Math_max (f <$> p :: pts) neg_infinity in
  Forall (fun q => (lo <=? f q)%float = true ∧ (f q <=? hi)%float = true) (p :: pts)
  ∧ (∃ q, q ∈ p :: pts ∧ lo = f q) ∧ (∃ q, q ∈ p :: pts ∧ hi = f q).
Proof.
  intros Hall. cbn zeta. cbn [fmap list_fmap fold_left].
  apply list.Forall_cons in Hall as [Hp Hpts].
  rewrite Math_min_infinity, Math_max_neg_infinity by done.
  assert (Hxs : Forall (fun x => isNaN x = false) (f <$> pts)) by (by apply Forall_fmap).
  destruct (fold_min _ Hxs (f p) Hp) as (Hlo & Hlop & Hloall & Hloin).
  destruct (fold_max _ Hxs (f p) Hp) as (Hhi & Hhip & Hhiall & Hhiin).
  cbn zeta in *.
  split; [| split].
  - constructor.
    + split; by apply leb_rank.
    + rewrite list.Forall_forall in Hpts. rewrite list.Forall_forall in Hloall.
      rewrite list.Forall_forall in Hhiall. apply list.Forall_forall.
      intros q Hq. specialize (Hpts q Hq).
      specialize (Hloall (f q) ltac:(by apply list_elem_of_fmap_2)).
      specialize (Hhiall (f q) ltac:(by apply list_elem_of_fmap_2)).
      cbn in *. split; by apply leb_rank.
  - change (f p :: (f <$> pts)) with (f <$> p :: pts) in Hloin.
    apply list_elem_of_fmap in Hloin as (q & Hq & Hin). by exists q.
  - change (f p :: (f <$> pts)) with (f <$> p :: pts) in Hhiin.
    apply list_elem_of_fmap in Hhiin as (q & Hq & Hin). by exists q.
Qed.

(** X22: the box of the scene.  When the cloud has a point and no coordinate
    is NaN, the box holds every point of the cloud, and each of its faces
    passes through one. *)
Theorem scene_bounds_hold_points (p : vec3) (pts : list vec3) :
  Forall numeric (p :: pts) ->
  Forall (holds (calculateSceneBounds (Some (p :: pts)))) (p :: pts)
  ∧ touches (calculateSceneBounds (Some (p :: pts))) (p :: pts).
Proof.
  intros Hall. unfold calculateSceneBounds. rewrite fold_extend.
  cbn [min max fst snd].
  assert (Hx : Forall (fun q : vec3 => isNaN q.1.1 = false) (p :: pts))
    by (eapply list.Forall_impl; [exact Hall |]; by intros q (? & ? & ?)).
  assert (Hy : Forall (fun q : vec3 => isNaN q.1.2 = false) (p :: pts))
    by (eapply list.Forall_impl; [exact Hall |]; by intros q (? & ? & ?)).
  assert (Hz : Forall (fun q : vec3 => isNaN q.2 = false) (p :: pts))
    by (eapply list.Forall_impl; [exact Hall |]; by intros q (? & ? & ?)).
  destruct (axis_bounds (fun q : vec3 => q.1.1) p pts Hx) as (Hxin & Hxlo & Hxhi).
  destruct (axis_bounds (fun q : vec3 => q.1.2) p pts Hy) as (Hyin & Hylo & Hyhi).
  destruct (axis_bounds (fun q : vec3 => q.2) p pts Hz) as (Hzin & Hzlo & Hzhi).
  cbn zeta in *. split.
  - rewrite list.Forall_forall in Hxin. rewrite list.Forall_forall in Hyin.
    rewrite list.Forall_forall in Hzin. apply list.Forall_forall.
    intros q Hq. unfold holds. cbn [min max fst snd].
    destruct (Hxin q Hq), (Hyin q Hq), (Hzin q Hq). done.
  - unfold touches. cbn [min max fst snd]. done.
Qed.

Lemma scene_bounds_hold_points_witness :
  Forall numeric [(1, 5, -2); (-3, 0.5, 4); (2, -1, 0)]%float
  ∧ (Forall (holds (calculateSceneBounds
                      (Some [(1, 5, -2); (-3, 0.5, 4); (2, -1, 0)]%float)))
       [(1, 5, -2); (-3, 0.5, 4); (2, -1, 0)]%float
     ∧ touches (calculateSceneBounds
                  (Some [(1, 5, -2); (-3, 0.5, 4); (2, -1, 0)]%float))
         [(1, 5, -2); (-3, 0.5, 4); (2, -1, 0)]%float).
Proof.
  assert (H : Forall numeric [(1, 5, -2); (-3, 0.5, 4); (2, -1, 0)]%float)
    by (repeat constructor).
  split; [exact H |].
  exact (scene_bounds_hold_points (1, 5, -2)%float [(-3, 0.5, 4); (2, -1, 0)]%float H).
Defined.

(** The box of the three points of the example. *)
Lemma demo_bounds :
  calculateSceneBounds (Some [(1, 5, -2); (-3, 0.5, 4); (2, -1, 0)]%float)
  = {| min := (-3, -1, -2)%float; max := (2, 5, 4)%float |}.
Proof. by vm_compute. Qed.

Lemma isNaN_true (x : float) : isNaN x = true -> Prim2SF x = S754_nan.
Proof. unfold isNaN. by destruct (Prim2SF x). Qed.

Lemma Math_min_nan_l (a b : float) : isNaN a = true -> isNaN (Math_min a b) = true.
Proof. intros Ha. unfold Math_min. by rewrite Ha. Qed.

Lemma Math_min_nan_r (a b : float) : isNaN b = true -> isNaN (Math_min a b) = true.
Proof. intros Hb. unfold Math_min. rewrite Hb, orb_true_r. done. Qed.

Lemma Math_max_nan_l (a b : float) : isNaN a = true -> isNaN (Math_max a b) = true.
Proof. intros Ha. unfold Math_max. by rewrite Ha. Qed.

Lemma Math_max_nan_r (a b : float) : isNaN b = true -> isNaN (Math_max a b) = true.
Proof. intros Hb. unfold Math_max. rewrite Hb, orb_true_r. done. Qed.

Lemma fold_min_nan (xs : list float) (a : float) :
  isNaN a = true ∨ (∃ x, x ∈ xs ∧ isNaN x = true) ->
  isNaN (fold_left Math_min xs a) = true.
Proof.
  revert a. induction xs as [|y xs IH]; intros a; cbn [fold_left].
  - intros [Ha | (x & []%elem_of_nil & _)]. done.
  - intros [Ha | (x & [->|Hx]%elem_of_cons & Hnan)]; apply IH.
    + left. by apply Math_min_nan_l.
    + left. by apply Math_min_nan_r.
    + right. by exists x.
Qed.

Lemma fold_max_nan (xs : list float) (a : float) :
  isNaN a = true ∨ (∃ x, x ∈ xs ∧ isNaN x = true) ->
  isNaN (fold_left Math_max xs a) = true.
Proof.
  revert a. induction xs as [|y xs IH]; intros a; cbn [fold_left].
  - intros [Ha | (x & []%elem_of_nil & _)]. done.
  - intros [Ha | (x & [->|Hx]%elem_of_cons & Hnan)]; apply IH.
    + left. by apply Math_max_nan_l.
    + left. by apply Math_max_nan_r.
    + right. by exists x.
Qed.

(** X23: one coordinate that is NaN spoils its axis.  When a point of the
    cloud has a NaN for x, both the least and the greatest x of the box are
    NaN, whatever the other points are, and no x passes a test against them. *)
Theorem scene_bounds_nan (pts : list vec3) (p : vec3) :
  p ∈ pts -> isNaN p.1.1 = true ->
  isNaN (min (calculateSceneBounds (Some pts))).1.1 = true
  ∧ isNaN (max (calculateSceneBounds (Some pts))).1.1 = true
  ∧ ∀ x : float,
      (x <? (min (calculateSceneBounds (Some pts))).1.1)%float = false
      ∧ ((max (calculateSceneBounds (Some pts))).1.1 <? x)%float = false.
Proof.
  intros Hp Hnan. destruct pts as [|q pts]; [by apply elem_of_nil in Hp |].
  unfold calculateSceneBounds. rewrite fold_extend. cbn [min max fst snd].
  assert (Hmin : isNaN (fold_left Math_min ((fun v : vec3 => v.1.1) <$> q :: pts) infinity)
                 = true).
  { apply fold_min_nan. right. exists p.1.1. split; [| done].
    apply list_elem_of_fmap. by exists p. }
  assert (Hmax : isNaN (fold_left Math_max ((fun v : vec3 => v.1.1) <$> q :: pts)
                          neg_infinity) = true).
  { apply fold_max_nan. right. exists p.1.1. split; [| done].
    apply list_elem_of_fmap. by exists p. }
  split; [done |]. split; [done |]. intros x.
  rewrite !FloatAxioms.ltb_spec.
  apply isNaN_true in Hmin. apply isNaN_true in Hmax.
  rewrite Hmin, Hmax. unfold SFltb. split.
  - by destruct (Prim2SF x) as [| [] | |].
  - by destruct (Prim2SF x) as [| [] | |].
Qed.

Lemma scene_bounds_nan_witness :
  (nan, 0, 0)%float ∈ [(1, 2, 3); (nan, 0, 0); (4, 5, 6)]%float
  ∧ isNaN (nan, 0, 0)%float.1.1 = true
  ∧ isNaN (min (calculateSceneBounds
                  (Some [(1, 2, 3); (nan, 0, 0); (4, 5, 6)]%float))).1.1 = true
  ∧ isNaN (max (calculateSceneBounds
                  (Some [(1, 2, 3); (nan, 0, 0); (4, 5, 6)]%float))).1.1 = true
  ∧ ∀ x : float,
      (x <? (min (calculateSceneBounds
                    (Some [(1, 2, 3); (nan, 0, 0); (4, 5, 6)]%float))).1.1)%float
      = false
      ∧ ((max (calculateSceneBounds
                 (Some [(1, 2, 3); (nan, 0, 0); (4, 5, 6)]%float))).1.1 <? x)%float
        = false.
Proof.
  assert (Hin : (nan, 0, 0)%float ∈ [(1, 2, 3); (nan, 0, 0); (4, 5, 6)]%float)
    by (apply elem_of_cons; right; apply elem_of_cons; by left).
  split; [exact Hin |]. split; [reflexivity |].
  exact (scene_bounds_nan _ (nan, 0, 0)%float Hin eq_refl).
Defined.

End BoundsFacts.

(** ** The cameras of a message *)

Module CamerasFacts.
Import JS Relations RelationsFacts Cameras.

Lemma camerasObj_entries (cams : list CameraInfo) (acc : obj Camera) (k : string)
    (c : Camera) :
  obj_get (fold_left (fun o cam => obj_set o (info_id cam) (cameraOfInfo cam)) cams acc) k
  = Some c ->
  obj_get acc k = Some c ∨ ∃ cam, cam ∈ cams ∧ info_id cam = k ∧ c = cameraOfInfo cam.
Proof.
  revert acc. induction cams as [|cam cams IH]; intros acc; cbn [fold_left]; [by left |].
  intros [Hacc|(cam' & Hin & Hid & Hc)]%IH.
  - rewrite obj_get_set in Hacc. case_decide; [| by left].
    simplify_eq. right. exists cam. split; [by left | done].
  - right. exists cam'. split; [by right | done].
Qed.

Lemma camerasObj_has (cams : list CameraInfo) (acc : obj Camera) (k : string) :
  is_Some (obj_get acc k) ∨ k ∈ info_id <$> cams ->
  is_Some (obj_get (fold_left (fun o cam => obj_set o (info_id cam) (cameraOfInfo cam))
                              cams acc) k).
Proof.
  revert acc. induction cams as [|cam cams IH]; intros acc Hk; cbn [fold_left].
  { destruct Hk as [Hk|Hk]; [done | by apply elem_of_nil in Hk]. }
  apply IH. cbn [fmap list_fmap] in Hk. rewrite obj_get_set.
  destruct Hk as [Hk|[->|Hk]%elem_of_cons].
  - left. by case_decide.
  - left. by rewrite decide_True.
  - by right.
Qed.

Section Page.
Variable rest : Type.

(** X24: a [cameras_info] message none of whose cameras has the id
    ["__proto__"].  The active camera becomes the first
    camera of the message flagged active, or the first camera when none is
    flagged.  When the handler holds a scene, the table of the scene is
    rebuilt from the message alone: the active camera is in it, and each of
    its cameras comes from the message, with a field of view that is a
    number other than 0.  When it holds none ([sceneData] was [null] when the
    effect ran), the scene stays as it is and only the active camera
    changes.  An empty or missing list changes nothing. *)
Theorem cameras_message (captured : option (Scene rest))
    (cameras : option (list CameraInfo)) (st : viewer rest) :
  (∀ cams, cameras = Some cams ->
           Forall (fun cam => info_id cam ≠ "__proto__"%string) cams) ->
  let st' := handleCameras rest captured cameras st in
  match cameras with
  | None | Some [] => st' = st
  | Some (first :: others) =>
      (∃ cam, cam ∈ first :: others ∧ activeCamera rest st' = info_id cam
              ∧ (is_active cam = true
                 ∨ (cam = first ∧ Forall (fun c => is_active c = false) (first :: others))))
      ∧ match captured with
        | None => sceneData rest st' = sceneData rest st
        | Some scene =>
            ∃ scene',
              sceneData rest st' = Some scene'
              ∧ scene_rest rest scene' = scene_rest rest scene
              ∧ is_Some (obj_get (scene_cameras rest scene') (activeCamera rest st'))
              ∧ ∀ k c, obj_get (scene_cameras rest scene') k = Some c ->
                       (∃ cam, cam ∈ first :: others ∧ info_id cam = k
                               ∧ c = cameraOfInfo cam)
                       ∧ isNaN (fov c) = false ∧ (fov c =? 0)%float = false
        end
  end.
Proof.
  intros _. cbn zeta. destruct cameras as [[|first others]|]; [done | | done].
  unfold handleCameras. cbn [activeCamera sceneData].
  assert (Hactive : ∃ cam, cam ∈ first :: others
            ∧ match List.find is_active (first :: others) with
              | Some cam => info_id cam
              | None => info_id first
              end = info_id cam
            ∧ (is_active cam = true
               ∨ (cam = first ∧ Forall (fun c => is_active c = false) (first :: others)))).
  { destruct (List.find is_active (first :: others)) as [cam|] eqn:Hfind.
    - apply find_some in Hfind as [Hin Hact]. exists cam.
      split; [by apply list_elem_of_In |]. split; [done | by left].
    - exists first. split; [by left |]. split; [done |]. right. split; [done |].
      apply list.Forall_forall. intros c Hc. apply list_elem_of_In in Hc.
      by apply (find_none _ _ Hfind). }
  split; [exact Hactive |].
  destruct captured as [scene|]; [| done].
  eexists. split; [done |]. cbn [scene_rest scene_cameras]. split; [done |].
  split.
  - destruct Hactive as (cam & Hin & -> & _).
    apply camerasObj_has. right. by apply list_elem_of_fmap_2.
  - intros k c [Hnil|(cam & Hin & Hid & ->)]%camerasObj_entries; [done |].
    split; [by exists cam |]. cbn [cameraOfInfo fov]. unfold fovOr60.
    destruct (info_fov cam) as [x|]; [| done].
    destruct (isNaN x) eqn:Hn; [done |]. cbn [orb].
    destruct (x =? 0)%float eqn:Hz; [done | done].
Qed.

End Page.

(** The message of the examples, to a page that holds a scene: the second
    camera becomes the active one, and both are in the scene. *)
Lemma cameras_message_witness :
  let scene := {| scene_cameras := demo_cameras; scene_rest := tt |} in
  let st := {| sceneData := Some scene; activeCamera := "7"%string |} in
  let st' := handleCameras unit (Some scene) (Some demo_infos) st in
  (∀ cams, Some demo_infos = Some cams ->
           Forall (fun cam => info_id cam ≠ "__proto__"%string) cams)
  ∧ activeCamera unit st' = "1"%string
  ∧ (∃ cam, cam ∈ demo_infos ∧ activeCamera unit st' = info_id cam
            ∧ (is_active cam = true
               ∨ (cam = hd cam demo_infos
                  ∧ Forall (fun c => is_active c = false) demo_infos)))
  ∧ ∃ scene',
      sceneData unit st' = Some scene'
      ∧ scene_rest unit scene' = tt
      ∧ is_Some (obj_get (scene_cameras unit scene') (activeCamera unit st'))
      ∧ ∀ k c, obj_get (scene_cameras unit scene') k = Some c ->
               (∃ cam, cam ∈ demo_infos ∧ info_id cam = k ∧ c = cameraOfInfo cam)
               ∧ isNaN (fov c) = false ∧ (fov c =? 0)%float = false.
Proof.
  cbv zeta.
  assert (Hids : ∀ cams, Some demo_infos = Some cams ->
            Forall (fun cam => info_id cam ≠ "__proto__"%string) cams).
  { intros cams [= <-]. by repeat constructor. }
  split; [exact Hids |]. split; [reflexivity |].
  exact (cameras_message unit
           (Some {| scene_cameras := demo_cameras; scene_rest := tt |})
           (Some demo_infos)
           {| sceneData := Some {| scene_cameras := demo_cameras; scene_rest := tt |};
              activeCamera := "7"%string |}
           Hids).
Defined.

End CamerasFacts.

(** ** The PLY reader *)

Module PlyFacts.
Import JS JSFacts Sampler Ply.

Section Parse.
Variable trim : string -> string.
Variable parseInt : option string -> xint.
Variable Number : string -> float.

Local Abbreviation header := (header trim parseInt).
Local Abbreviation read_vertex := (read_vertex trim Number).
Local Abbreviation parsePLY := (parsePLY trim parseInt Number).
Local Abbreviation vertex := (vertex trim Number).

(** The step for a count [n]: 1 up to 199999, [floor(n / 100000)] from
    100000 on. *)
Lemma skipStep_pos (n : Z) :
  (0 < n)%Z -> skipStep (XInt n) = XInt (Z.max 1 (n / Z.min n 100000)).
Proof.
  intros Hn. unfold skipStep, maxPoints, Math_min. cbn [of_xint].
  rewrite div_Fin_Z by lia. cbn [Math_floor_q JS.Math_max].
  by rewrite <- Zdiv_Qdiv.
Qed.

(** The rounds that read a line are those at the multiples of the step. *)
Lemma read_vertex_fold (lines : list string) (headerEnd : Z) (step : xint)
    (l : list Z) (acc : list vec3 * list vec3) :
  let r := fold_left (read_vertex lines headerEnd step) l acc in
  length r.1 = (length acc.1 + (length r.1 - length acc.1))%nat
  ∧ (length r.1 - length acc.1 <= length (filter (fun i => rem_is_zero i step = true) l))%nat
  ∧ (length acc.1 = length acc.2 -> length r.1 = length r.2).
Proof.
  cbn zeta. revert acc. induction l as [|i l IH]; intros acc; cbn [fold_left].
  { cbn. split; [lia |]. split; [lia | done]. }
  destruct (IH (read_vertex lines headerEnd step acc i)) as (_ & Hle & Heq).
  rewrite filter_cons.
  assert (Hstep :
    (length (read_vertex lines headerEnd step acc i).1
     <= length acc.1 + (if decide (rem_is_zero i step = true) then 1 else 0))%nat
    ∧ (length acc.1 <= length (read_vertex lines headerEnd step acc i).1)%nat
    ∧ (length acc.1 = length acc.2 ->
       length (read_vertex lines headerEnd step acc i).1
       = length (read_vertex lines headerEnd step acc i).2)).
  { unfold Ply.read_vertex.
    destruct (rem_is_zero i step); cbn [negb].
    - rewrite decide_True by done.
      destruct (_ <? _)%Z; [| split; [lia | done]].
      destruct (lines !! _); [| split; [lia | done]].
      destruct (Ply.vertex _ _ _) as [[p c]|]; [| split; [lia | done]].
      cbn [fst snd]. rewrite !length_app. cbn [length]. split; [lia |]. split; lia.
    - rewrite decide_False by done. split; [lia | done]. }
  destruct Hstep as (Hup & Hdown & Hpar).
  assert (Hmono : ∀ l acc, (length acc.1
            <= length (fold_left (read_vertex lines headerEnd step) l acc).1)%nat).
  { clear. induction l as [|i l IH]; intros acc; cbn [fold_left]; [done |].
    etrans; [| apply IH]. unfold Ply.read_vertex.
    destruct (negb _); [done |]. destruct (_ <? _)%Z; [| done].
    destruct (lines !! _); [| done]. destruct (Ply.vertex _ _ _) as [[p c]|]; [| done].
    cbn [fst]. rewrite length_app. lia. }
  pose proof (Hmono l (read_vertex lines headerEnd step acc i)).
  split; [lia |]. split.
  - case_decide; cbn [length]; lia.
  - intros Hacc. by apply Heq, Hpar.
Qed.


(** Below [n] there are at most [(n - 1) / q + 1] multiples of [q]. *)
Lemma multiples_count (n q : Z) :
  (1 <= n)%Z -> (1 <= q)%Z ->
  (Z.of_nat (length (filter (fun i => rem_is_zero i (XInt q) = true) (seqZ 0 n)))
   <= (n - 1) / q + 1)%Z.
Proof.
  intros Hn Hq.
  set (L := filter (fun i => rem_is_zero i (XInt q) = true) (seqZ 0 n)).
  assert (HL : ∀ i, i ∈ L -> (0 <= i < n)%Z ∧ i = (q * (i / q))%Z).
  { intros i [Hrem Hi]%list_elem_of_filter. apply elem_of_seqZ in Hi.
    split; [lia |]. cbn [rem_is_zero] in Hrem.
    destruct (Z.eqb_spec q 0); [lia |].
    apply Z.eqb_eq in Hrem. rewrite Z.rem_mod_nonneg in Hrem by lia.
    pose proof (Z.div_mod i q ltac:(lia)). lia. }
  assert (Hnd : NoDup ((fun i => (i / q)%Z) <$> L)).
  { apply NoDup_fmap_2_strong; [| apply list.NoDup_filter, NoDup_seqZ].
    intros i j Hi Hj Hij. destruct (HL i Hi) as [_ Ei], (HL j Hj) as [_ Ej].
    rewrite Ei, Ej. by rewrite Hij. }
  assert (Hsub : (fun i => (i / q)%Z) <$> L ⊆+ seqZ 0 ((n - 1) / q + 1)).
  { apply NoDup_submseteq; [done |]. intros k (i & -> & Hi)%list_elem_of_fmap.
    destruct (HL i Hi) as [Hrange _]. apply elem_of_seqZ.
    split; [apply Z.div_pos; lia |].
    assert (i / q <= (n - 1) / q)%Z by (apply Z.div_le_mono; lia). lia. }
  apply submseteq_length in Hsub. rewrite length_fmap, length_seqZ in Hsub.
  assert (0 <= (n - 1) / q)%Z by (apply Z.div_pos; lia). lia.
Qed.

Lemma kept_below_twice (n : Z) :
  (1 <= n)%Z ->
  let q := Z.max 1 (n / Z.min n 100000) in
  (1 <= q)%Z ∧ ((n - 1) / q + 1 <= Z.min n 199999)%Z.
Proof.
  intros Hn. cbn zeta. split; [lia |].
  destruct (Z.le_gt_cases n 100000) as [Hsmall|Hbig].
  - rewrite Z.min_l by lia. rewrite Z.div_same by lia. rewrite Z.max_l by lia.
    rewrite Z.div_1_r. lia.
  - rewrite (Z.min_r n 100000) by lia.
    assert (Hq : (1 <= n / 100000)%Z) by (apply Z.div_le_lower_bound; lia).
    rewrite Z.max_r by lia.
    pose proof (Z.div_mod n 100000 ltac:(lia)) as Hdiv.
    pose proof (Z.mod_pos_bound n 100000 ltac:(lia)) as Hmod.
    assert ((n - 1) / (n / 100000) < 199999)%Z
      by (apply Z.div_lt_upper_bound; nia).
    assert ((n - 1) / (n / 100000) < n)%Z
      by (apply Z.div_lt_upper_bound; nia).
    lia.
Qed.

(** X25: the parser gives as many colours as points, so the cloud it returns
    meets what the sampler asks of its colours; it returns at most one point
    per vertex the header counts and fewer than 200000 points. *)
Theorem parsed_cloud_shape (lines : list string) (points colors : list vec3) :
  parsePLY lines = Some (points, colors) ->
  length points = length colors
  ∧ colours_match points (Some colors)
  ∧ (Z.of_nat (length points) < 200000)%Z
  ∧ ∀ n, (header lines 0 (XInt 0)).2 = XInt n ->
         (Z.of_nat (length points) <= Z.max 0 n)%Z.
Proof.
  unfold Ply.parsePLY. destruct (header lines 0 (XInt 0)) as [headerEnd vertexCount].
  cbn [snd].
  assert (Hempty : Some (([] : list vec3), ([] : list vec3)) = Some (points, colors) ->
            length points = length colors
            ∧ colours_match points (Some colors)
            ∧ (Z.of_nat (length points) < 200000)%Z
            ∧ ∀ n, vertexCount = XInt n -> (Z.of_nat (length points) <= Z.max 0 n)%Z).
  { intros [= <- <-]. cbn. split; [done |]. split; [lia |]. split; [lia |].
    intros; lia. }
  destruct vertexCount as [|[]|n]; [done | done | done |].
  destruct (Z.le_gt_cases n 0) as [Hn|Hn].
  { rewrite seqZ_nil by lia. cbn [fold_left]. exact Hempty. }
  clear Hempty. intros [= Hr].
  destruct (read_vertex_fold lines headerEnd (skipStep (XInt n)) (seqZ 0 n) ([], []))
    as (_ & Hle & Heq).
  cbn zeta in *. rewrite Hr in Hle, Heq. cbn [fst snd length] in Hle, Heq.
  specialize (Heq eq_refl).
  rewrite skipStep_pos in Hle by lia.
  destruct (kept_below_twice n ltac:(lia)) as [Hq Hbound]. cbn zeta in Hq, Hbound.
  pose proof (multiples_count n _ ltac:(lia) Hq) as Hcount.
  split; [done |]. split; [cbn; lia |]. split; [lia |].
  intros m [= <-]. lia.
Qed.


Lemma header_nonneg (lines : list string) (i : Z) (vertexCount : xint) :
  (0 <= i)%Z -> (0 <= (header lines i vertexCount).1)%Z.
Proof.
  revert i vertexCount. induction lines as [|l lines IH]; intros i vc Hi; cbn [Ply.header].
  - done.
  - cbn zeta. case_decide; [cbn; lia |]. apply IH. lia.
Qed.

Lemma read_vertex_all (lines : list string) (headerEnd : Z) (l : list Z) :
  (0 <= headerEnd)%Z ->
  (∀ i, i ∈ l -> (0 <= i)%Z ∧ ∃ line v,
          lines !! Z.to_nat (headerEnd + i) = Some line ∧ vertex line = Some v) ->
  ∀ acc, length (fold_left (read_vertex lines headerEnd (XInt 1)) l acc).1
         = (length acc.1 + length l)%nat.
Proof.
  intros Hh. induction l as [|i l IH]; intros Hl acc; cbn [fold_left length]; [lia |].
  rewrite IH by (intros j Hj; apply Hl; by right).
  destruct (Hl i ltac:(by left)) as (Hi & line & [p c] & Hline & Hv).
  unfold Ply.read_vertex. cbn [rem_is_zero Z.eqb]. rewrite Z.rem_1_r. cbn [Z.eqb negb].
  pose proof (lookup_lt_Some _ _ _ Hline).
  destruct (Z.ltb_spec (headerEnd + i) (Z.of_nat (length lines))); [| lia].
  rewrite Hline, Hv. cbn [fst]. rewrite length_app. cbn [length]. lia.
Qed.

(** X26: the limit of 100000 points is not kept.  When the header counts
    between 100001 and 199999 vertices, the step is
    [floor(count / 100000)] = 1, and every vertex whose line is there with
    six numbers becomes a point. *)
Theorem parser_limit_not_enforced (lines : list string) (headerEnd n : Z) :
  header lines 0 (XInt 0) = (headerEnd, XInt n) ->
  (100000 < n < 200000)%Z ->
  (∀ i, (0 <= i < n)%Z ->
        ∃ line v, lines !! Z.to_nat (headerEnd + i) = Some line ∧ vertex line = Some v) ->
  skipStep (XInt n) = XInt 1
  ∧ ∃ points colors,
      parsePLY lines = Some (points, colors) ∧ Z.of_nat (length points) = n.
Proof.
  intros Hheader Hn Hlines.
  assert (Hstep : skipStep (XInt n) = XInt 1).
  { rewrite skipStep_pos by lia. rewrite Z.min_r by lia.
    replace (n / 100000)%Z with 1%Z; [done |].
    apply Z.div_unique with (r := (n - 100000)%Z); lia. }
  split; [done |].
  unfold Ply.parsePLY. rewrite Hheader, Hstep.
  pose proof (header_nonneg lines 0 (XInt 0) ltac:(lia)) as Hh.
  rewrite Hheader in Hh. cbn [fst] in Hh.
  set (r := fold_left _ _ _). exists r.1, r.2. split; [by destruct r |].
  unfold r. rewrite read_vertex_all; [rewrite length_seqZ; cbn [length fst]; lia | done |].
  intros i Hi%elem_of_seqZ. split; [lia |]. apply Hlines. lia.
Qed.

End Parse.

Lemma parsed_cloud_shape_witness :
  parsePLY demo_trim demo_parseInt demo_Number small_ply
  = Some ([(1, 2, 3)%float], [(1, 0, 0)%float])
  ∧ length [(1, 2, 3)%float] = length [(1, 0, 0)%float]
  ∧ colours_match [(1, 2, 3)%float] (Some [(1, 0, 0)%float])
  ∧ (Z.of_nat (length [(1, 2, 3)%float]) < 200000)%Z
  ∧ ∀ n, (header demo_trim demo_parseInt small_ply 0 (XInt 0)).2 = XInt n ->
         (Z.of_nat (length [(1, 2, 3)%float]) <= Z.max 0 n)%Z.
Proof.
  assert (Hparse : parsePLY demo_trim demo_parseInt demo_Number small_ply
                   = Some ([(1, 2, 3)%float], [(1, 0, 0)%float]))
    by (by vm_compute).
  split; [exact Hparse |].
  exact (parsed_cloud_shape demo_trim demo_parseInt demo_Number small_ply _ _ Hparse).
Defined.

Lemma parser_limit_not_enforced_witness :
  header demo_trim demo_parseInt demo_ply 0 (XInt 0) = (2%Z, XInt 100001)
  ∧ (100000 < 100001 < 200000)%Z
  ∧ skipStep (XInt 100001) = XInt 1
  ∧ ∃ points colors,
      parsePLY demo_trim demo_parseInt demo_Number demo_ply = Some (points, colors)
      ∧ Z.of_nat (length points) = 100001%Z.
Proof.
  assert (Hheader : header demo_trim demo_parseInt demo_ply 0 (XInt 0)
                    = (2%Z, XInt 100001)) by reflexivity.
  assert (Hn : (100000 < 100001 < 200000)%Z) by lia.
  split; [exact Hheader |]. split; [exact Hn |].
  apply (parser_limit_not_enforced demo_trim demo_parseInt demo_Number demo_ply 2 100001
           Hheader Hn).
  intros i Hi. exists "0 0 0 0 0 0"%string.
  eexists. split; [| reflexivity].
  unfold demo_ply. rewrite lookup_app_r by (cbn [length]; lia).
  apply lookup_replicate_2. cbn [length]. lia.
Defined.

End PlyFacts.
